(** * WingmanSupport: the "Team Special" ability sequencer

    A shallow embedding of [WingmanSupport.jsx]: the ability state machine
    (cooldown, phase, unit pose, target snapshot), the attack generator
    [executeAttack], the completion handlers, the explosion sweeper, the
    frames, renders and timers of the effect components, the jagged path of
    the chain, the values shown by [WingmanSelectorHUD] and the state kept
    by the default export [WingmanSupportSystem].

    Conventions of the embedding.
    - A JavaScript number is a rational [Q] with exact arithmetic (every
      finite double is a rational; rounding is not modelled).  Whole
      milliseconds ([Date.now()], timer delays) are [Z].
    - React state is the record [State]; one handler or one frame callback
      runs against the committed state and yields the next committed state
      together with the host callbacks it invoked ([Event]).  State set by a
      callback is rendered and committed before the next callback runs.
    - A callback built by [useCallback] is the function of the render that
      last found its dependencies changed and reads the state that render
      saw; an effect hook is cleaned up and run again by every commit that
      finds one of its dependencies changed.  Timers fire in the order they
      are due and, when due together, in the order they were armed.
    - [Math.sqrt] is a member of the class [MathLib]; [Math.random] is an
      oracle [nat -> Q] indexed by the number of calls made so far.
    - [Math.atan2] and [Math.PI] only feed the Euler angles handed to the
      renderer; these angles are kept as symbolic [Angle] expressions. *)

From Stdlib Require Import ZArith QArith Qabs Qround Lqa Lia List Bool String
  Ascii Permutation Sorted Decimal DecimalString DecimalPos.
Import ListNotations.

#[local] Open Scope Q_scope.

(** ** JavaScript numerics *)

Class MathLib := { Math_sqrt : Q -> Q }.

Definition Math_min (a b : Q) : Q := if Qle_bool a b then a else b.
Definition Math_max (a b : Q) : Q := if Qle_bool a b then b else a.

(** [a > b] and [a >= b] on numbers. *)
Definition gtb (a b : Q) : bool := negb (Qle_bool a b).
Definition geb (a b : Q) : bool := Qle_bool b a.

(** The square root used for closed evaluations: exact on squares of
    rationals, rounded down to a multiple of [1 / Qden q] elsewhere. *)
Definition Qsqrt (q : Q) : Q := Z.sqrt (Qnum q * Zpos (Qden q)) # Qden q.

(** ** three.js: [Vector3] and [MathUtils] *)

Module Vector3.

Record t := new { x : Q; y : Q; z : Q }.

Definition add (a b : t) : t := new (x a + x b) (y a + y b) (z a + z b).
Definition addVectors := add.
Definition subVectors (a b : t) : t :=
  new (x a - x b) (y a - y b) (z a - z b).
Definition multiplyScalar (a : t) (s : Q) : t :=
  new (x a * s) (y a * s) (z a * s).
Definition lengthSq (a : t) : Q := x a * x a + y a * y a + z a * z a.
Definition length `{MathLib} (a : t) : Q := Math_sqrt (lengthSq a).

(** [divideScalar(length() || 1)]: a zero length is replaced by 1. *)
Definition normalize `{MathLib} (a : t) : t :=
  let l := length a in
  multiplyScalar a (1 / (if Qeq_bool l 0 then 1 else l)).

Definition distanceToSquared (a b : t) : Q := lengthSq (subVectors a b).
Definition distanceTo `{MathLib} (a b : t) : Q :=
  Math_sqrt (distanceToSquared a b).

Definition lerpVectors (v1 v2 : t) (alpha : Q) : t :=
  new (x v1 + (x v2 - x v1) * alpha)
      (y v1 + (y v2 - y v1) * alpha)
      (z v1 + (z v2 - z v1) * alpha).

(** Component-wise numeric equality ([Vector3.equals]). *)
Definition equals (a b : t) : Prop :=
  x a == x b /\ y a == y b /\ z a == z b.

End Vector3.

Module MathUtils.

Definition smoothstep (x min max : Q) : Q :=
  if Qle_bool x min then 0
  else if Qle_bool max x then 1
  else let t := (x - min) / (max - min) in t * t * (3 - 2 * t).

End MathUtils.

(** ** Strings: template literals, [split] and [parseInt] *)

#[local] Open Scope string_scope.

(** [`${n}`] for a whole number [n]. *)
Definition Number_toString (n : Z) : string :=
  NilEmpty.string_of_int (Z.to_int n).

(** [s.split(sep)] for a one-character separator; [cur] is the token being
    read. *)
Fixpoint split_from (sep : ascii) (s cur : string) : list string :=
  match s with
  | EmptyString => [cur]
  | String c s' =>
      if Ascii.eqb c sep then cur :: split_from sep s' EmptyString
      else split_from sep s' (cur ++ String c EmptyString)%string
  end.

Definition String_split (sep : ascii) (s : string) : list string :=
  split_from sep s EmptyString.

Definition digit_of (radix : Z) (c : ascii) : option Z :=
  let n := Z.of_nat (nat_of_ascii c) in
  let v :=
    if (48 <=? n)%Z && (n <=? 57)%Z then Some (n - 48)%Z
    else if (97 <=? n)%Z && (n <=? 122)%Z then Some (n - 87)%Z
    else if (65 <=? n)%Z && (n <=? 90)%Z then Some (n - 55)%Z
    else None in
  match v with
  | Some d => if (d <? radix)%Z then Some d else None
  | None => None
  end.

(** The longest prefix of digits, most significant first; [None] when no
    digit was read. *)
Fixpoint parseDigits (radix : Z) (s : string) (acc : option Z) : option Z :=
  match s with
  | EmptyString => acc
  | String c s' =>
      match digit_of radix c with
      | Some d =>
          parseDigits radix s'
            (Some (match acc with Some a => a * radix + d | None => d end)%Z)
      | None => acc
      end
  end.

Definition isWhiteSpace (c : ascii) : bool :=
  let n := nat_of_ascii c in
  ((9 <=? n) && (n <=? 13))%nat || (n =? 32)%nat.

Fixpoint trimStart (s : string) : string :=
  match s with
  | String c s' => if isWhiteSpace c then trimStart s' else s
  | EmptyString => s
  end.

(** [parseInt(s)] without radix argument; [None] is [NaN]. *)
Definition parseInt (s : string) : option Z :=
  let s := trimStart s in
  let '(neg, s) :=
    match s with
    | String "-" s' => (true, s')
    | String "+" s' => (false, s')
    | _ => (false, s)
    end in
  let r :=
    match s with
    | String "0" (String "x" s') => parseDigits 16 s' None
    | String "0" (String "X" s') => parseDigits 16 s' None
    | _ => parseDigits 10 s None
    end in
  option_map (fun v => if neg then (- v)%Z else v) r.


(** [lacks sep s]: the character [sep] does not occur in [s]. *)
Fixpoint lacks (sep : ascii) (s : string) : bool :=
  match s with
  | EmptyString => true
  | String c s' => negb (Ascii.eqb c sep) && lacks sep s'
  end.

(** The number read off a digit sequence by Horner's rule from [acc]. *)
Fixpoint uint_value (u : uint) (acc : Z) : Z :=
  match u with
  | Nil => acc
  | D0 u => uint_value u (acc * 10 + 0)
  | D1 u => uint_value u (acc * 10 + 1)
  | D2 u => uint_value u (acc * 10 + 2)
  | D3 u => uint_value u (acc * 10 + 3)
  | D4 u => uint_value u (acc * 10 + 4)
  | D5 u => uint_value u (acc * 10 + 5)
  | D6 u => uint_value u (acc * 10 + 6)
  | D7 u => uint_value u (acc * 10 + 7)
  | D8 u => uint_value u (acc * 10 + 8)
  | D9 u => uint_value u (acc * 10 + 9)
  end%Z.

#[local] Open Scope list_scope.

(** ** Configuration ([WINGMAN_CONFIG]) *)

Module WINGMAN_CONFIG.
Definition TEAM_SPECIAL_COOLDOWN : Q := 45000.
Definition SPAWN_OFFSET_BEHIND : Q := 40.
Definition SPAWN_OFFSET_ABOVE : Q := 15.
Definition APPROACH_SPEED : Q := 60.
Definition ATTACK_DURATION : Z := 2000.
Definition ESCAPE_DURATION : Z := 1500.
Definition ESCAPE_CLIMB_ANGLE : Q := 8 # 10.
Definition GATLING_FIRE_DURATION : Z := 800.
Definition BEAM_LOCK_DURATION : Z := 100.
Definition LIGHTNING_CHAIN_DURATION : Z := 600.
Definition MISSILE_FLIGHT_TIME : Z := 500.
Definition WINGMAN_COLORS : list string :=
  ["#ff4444"; "#44ff44"; "#ffff44"; "#ff44ff"].
Definition WINGMAN_NAMES : list string :=
  ["FALCO"; "SLIPPY"; "PEPPY"; "KRYSTAL"].
End WINGMAN_CONFIG.
Import WINGMAN_CONFIG.

(** [table[i]] for a number [i]: [None] is [undefined]. *)
Definition item {A} (table : list A) (i : Z) : option A :=
  if (i <? 0)%Z then None else nth_error table (Z.to_nat i).

(** ** Data *)

(** A target supplied by the host: [{ id, position }]. *)
Record Enemy := { id : string; position : Vector3.t }.

(** The descriptors pushed by [executeAttack], one constructor per
    [type] tag with the fields the object literal carries. *)
Inductive Effect :=
| gatling (id : string) (startPosition targetPosition : Vector3.t)
    (delay : Z)
| beam (id : string) (startPosition targetPosition : Vector3.t)
    (delay duration : Z)
| lightning (id : string) (positions : list Vector3.t) (delay duration : Z)
| missile (id : string) (startPosition targetPosition : Vector3.t)
    (delay flightTime : Z).

Definition effect_id (e : Effect) : string :=
  match e with
  | gatling i _ _ _ | beam i _ _ _ _ | lightning i _ _ _
  | missile i _ _ _ _ => i
  end.

(** [effect.targetPosition]; [None] is [undefined] (the chain has none). *)
Definition effect_targetPosition (e : Effect) : option Vector3.t :=
  match e with
  | gatling _ _ t _ | beam _ _ t _ _ | missile _ _ t _ _ => Some t
  | lightning _ _ _ _ => None
  end.

Definition effect_delay (e : Effect) : Z :=
  match e with
  | gatling _ _ _ d | beam _ _ _ d _ | lightning _ _ d _
  | missile _ _ _ d _ => d
  end.

(** An explosion object: [{ id, position, color }]. *)
Module Explosion.
Record t := { id : string; position : Vector3.t; color : option string }.
End Explosion.

Inductive Phase := idle | approach | attack | escape.

(** Euler angles are kept symbolic: a rational number of radians, [Math.PI],
    or [Math.atan2(a, b) + Math.PI]. *)
Inductive Angle :=
| radians (q : Q)
| Math_PI
| atan2_plus_PI (a b : Q).

(** The React state of [WingmanSupport] together with its two refs. *)
Record State := mkState {
  cooldown : Q;
  isActive : bool;
  phase : Phase;
  wingmanPosition : Vector3.t;
  wingmanRotation : Angle * Angle * Angle;
  attackEffects : list Effect;
  explosions : list Explosion.t;
  targetEnemies : list Enemy;
  phaseStartTime : Z;
  attackPosition : Vector3.t }.

(** The props of one render. The three callbacks are optional in the source;
    a flag records whether the host supplied one. *)
Record Props := {
  playerPosition : Vector3.t;
  playerForward : Vector3.t;
  enemies : list Enemy;
  selectedWingman : Z;
  onActivate : bool;
  onEnemiesDestroyed : bool;
  onCooldownUpdate : bool }.

(** Host callbacks invoked by a handler, in call order. *)
Inductive Event :=
| Activated (wingman : Z) (name : option string)
| EnemiesDestroyed (ids : list string)
| CooldownUpdate (current max : Q).

Definition initialState : State :=
  {| cooldown := 0; isActive := false; phase := idle;
     wingmanPosition := Vector3.new 0 0 0;
     wingmanRotation := (radians 0, Math_PI, radians 0);
     attackEffects := []; explosions := []; targetEnemies := [];
     phaseStartTime := 0%Z;
     attackPosition := Vector3.new 0 0 0 |}.

(** ** Activation *)

Definition getSpawnPosition (p : Props) : Vector3.t :=
  let spawn :=
    Vector3.add (playerPosition p)
      (Vector3.multiplyScalar (playerForward p) SPAWN_OFFSET_BEHIND) in
  Vector3.new (Vector3.x spawn) (Vector3.y spawn + SPAWN_OFFSET_ABOVE)
    (Vector3.z spawn).

Definition getAttackPosition (p : Props) : Vector3.t :=
  let attack := playerPosition p in
  Vector3.new (Vector3.x attack + 5) (Vector3.y attack + 2)
    (Vector3.z attack).

(** [triggerTeamSpecial], called at clock reading [now]: the boolean result,
    the next state and the callbacks invoked. *)
Definition triggerTeamSpecial (p : Props) (now : Z) (s : State)
  : bool * State * list Event :=
  if gtb (cooldown s) 0 || isActive s || (List.length (enemies p) =? 0)%nat
  then (false, s, [])
  else
    (true,
     {| cooldown := cooldown s; isActive := true; phase := approach;
        wingmanPosition := getSpawnPosition p;
        wingmanRotation := wingmanRotation s;
        attackEffects := attackEffects s; explosions := explosions s;
        targetEnemies := enemies p;
        phaseStartTime := now;
        attackPosition := getAttackPosition p |},
     if onActivate p
     then [Activated (selectedWingman p)
             (item WINGMAN_NAMES (selectedWingman p))]
     else []).

(** ** The attack generator *)

(** [Math.random()]: the oracle gives the result of the k-th call, and a
    computation threads the number of calls made so far. *)
Definition Rand := nat -> Q.
Definition Rnd (A : Type) := nat -> A * nat.

Definition ret {A} (a : A) : Rnd A := fun k => (a, k).
Definition bind {A B} (m : Rnd A) (f : A -> Rnd B) : Rnd B :=
  fun k => let '(a, k') := m k in f a k'.
Definition Math_random (rand : Rand) : Rnd Q := fun k => (rand k, S k).

Notation "x <- m ;; f" := (bind m (fun x => f))
  (at level 61, m at next level, right associativity).

(** [l.forEach((a, i) => ...)] where the callback pushes onto one array:
    the items pushed, in order. [i] is the index of the head of [l]. *)
Fixpoint forEach {A B} (f : A -> nat -> Rnd (list B)) (l : list A) (i : nat)
  : Rnd (list B) :=
  match l with
  | [] => ret []
  | a :: l' =>
      pushed <- f a i ;; rest <- forEach f l' (S i) ;; ret (pushed ++ rest)
  end.

(** [for (let j = j0; j < j0 + n; j++) body(j)], pushing likewise. *)
Fixpoint for_loop {B} (n j : nat) (body : nat -> Rnd (list B))
  : Rnd (list B) :=
  match n with
  | O => ret []
  | S n' =>
      pushed <- body j ;; rest <- for_loop n' (S j) body ;;
      ret (pushed ++ rest)
  end.

(** [l.sort(cmp)]: the sort is stable, so with a comparator that orders by a
    numeric key its result is the stable insertion sort. *)
Fixpoint sort_insert {A} (cmp : A -> A -> Q) (a : A) (l : list A) : list A :=
  match l with
  | [] => [a]
  | b :: l' => if gtb (cmp a b) 0 then b :: sort_insert cmp a l' else a :: l
  end.

Definition Array_sort {A} (cmp : A -> A -> Q) (l : list A) : list A :=
  fold_right (sort_insert cmp) [] l.

Definition nat_toString (n : nat) : string := Number_toString (Z.of_nat n).

Section Generator.
Context `{MathLib}.
Variable rand : Rand.

Definition gatlingShot (shipPos : Vector3.t) (enemy : Enemy) (i j : nat)
  : Rnd (list Effect) :=
  r1 <- Math_random rand ;;
  r2 <- Math_random rand ;;
  ret [gatling ("gatling-" ++ nat_toString i ++ "-" ++ nat_toString j)%string
         (Vector3.add shipPos
            (Vector3.new ((r1 - (1 # 2)) * 2) ((r2 - (1 # 2)) * 1) 0))
         (position enemy)
         (Z.of_nat j * 50 + Z.of_nat i * 30)%Z].

(** The array [effects] built by [executeAttack] for the selected wingman,
    the target snapshot and the ship position. *)
Definition generateEffects (wingman : Z) (targets : list Enemy)
    (shipPos : Vector3.t) : list Effect :=
  if (wingman =? 0)%Z then
    fst (forEach
           (fun enemy i => for_loop 5 0 (gatlingShot shipPos enemy i))
           targets 0%nat 0%nat)
  else if (wingman =? 1)%Z then
    fst (forEach
           (fun enemy i =>
              ret [beam ("beam-" ++ nat_toString i)%string shipPos
                     (position enemy) (Z.of_nat i * 50)%Z
                     BEAM_LOCK_DURATION])
           targets 0%nat 0%nat)
  else if (wingman =? 2)%Z then
    if (0 <? List.length targets)%nat then
      let sortedEnemies :=
        Array_sort
          (fun a b =>
             Vector3.distanceTo shipPos (position a)
             - Vector3.distanceTo shipPos (position b))%Q
          targets in
      let chainPositions := shipPos :: map position sortedEnemies in
      [lightning "lightning-chain" chainPositions 0%Z
         LIGHTNING_CHAIN_DURATION]
    else []
  else if (wingman =? 3)%Z then
    fst (forEach
           (fun enemy i =>
              ret [missile ("missile-" ++ nat_toString i)%string
                     (Vector3.add shipPos
                        (Vector3.new
                           ((inject_Z (Z.of_nat (i mod 3)) - 1) * (3 # 2))
                           (inject_Z (Z.of_nat (i / 3)) * (1 # 2))
                           0))
                     (position enemy) 0%Z MISSILE_FLIGHT_TIME])
           targets 0%nat 0%nat)
  else [].

Definition executeAttack (p : Props) (s : State) : State :=
  {| cooldown := cooldown s; isActive := isActive s; phase := phase s;
     wingmanPosition := wingmanPosition s;
     wingmanRotation := wingmanRotation s;
     attackEffects :=
       generateEffects (selectedWingman p) (targetEnemies s)
         (attackPosition s);
     explosions := explosions s;
     targetEnemies := targetEnemies s;
     phaseStartTime := phaseStartTime s;
     attackPosition := attackPosition s |}.

End Generator.


(** ** Completion handlers and the explosion sweeper *)

Definition set_attackEffects (v : list Effect) (s : State) : State :=
  mkState (cooldown s) (isActive s) (phase s) (wingmanPosition s)
    (wingmanRotation s) v (explosions s) (targetEnemies s)
    (phaseStartTime s) (attackPosition s).

Definition set_explosions (v : list Explosion.t) (s : State) : State :=
  mkState (cooldown s) (isActive s) (phase s) (wingmanPosition s)
    (wingmanRotation s) (attackEffects s) v (targetEnemies s)
    (phaseStartTime s) (attackPosition s).

Definition set_cooldown (v : Q) (s : State) : State :=
  mkState v (isActive s) (phase s) (wingmanPosition s)
    (wingmanRotation s) (attackEffects s) (explosions s) (targetEnemies s)
    (phaseStartTime s) (attackPosition s).

(** [handleEffectComplete(effectId)] at clock reading [now]. The callback
    is rebuilt by every render that finds [attackEffects] or
    [selectedWingman] changed, and the instance that runs is the one its
    caller holds: [seen] is the [attackEffects] that instance closed over,
    which its [find] reads, and [p] carries the [selectedWingman] of the
    same render. The removal is a functional update and reads the committed
    state. [rnd] is the text that [Math.random()] contributes to the
    explosion id. *)
Definition handleEffectComplete (p : Props) (seen : list Effect) (now : Z)
    (rnd : string) (effectId : string) (s : State) : State :=
  let remaining :=
    filter (fun e => negb (String.eqb (effect_id e) effectId))
      (attackEffects s) in
  let effect :=
    find (fun e => String.eqb (effect_id e) effectId) seen in
  let explosions' :=
    match effect with
    | Some e =>
        match effect_targetPosition e with
        | Some target =>
            explosions s ++
            [{| Explosion.id :=
                  ("explosion-" ++ Number_toString now ++ "-" ++ rnd)%string;
                Explosion.position := target;
                Explosion.color := item WINGMAN_COLORS (selectedWingman p) |}]
        | None => explosions s
        end
    | None => explosions s
    end in
  set_explosions explosions' (set_attackEffects remaining s).

(** [handleLightningComplete()]: the live set is emptied and one timer per
    target is armed, [i * 50] ms ahead; each pending timer is returned with
    the index and position its closure holds. *)
Definition handleLightningComplete (s : State)
  : State * list (Z * (nat * Vector3.t)) :=
  (set_attackEffects [] s,
   fst (forEach
          (fun enemy i => ret [((Z.of_nat i * 50)%Z, (i, position enemy))])
          (targetEnemies s) 0%nat 0%nat)).

(** The body of one such timer, firing at clock reading [now]. *)
Definition lightningExplosion (now : Z) (i : nat) (pos : Vector3.t)
    (s : State) : State :=
  set_explosions
    (explosions s ++
     [{| Explosion.id :=
           ("explosion-" ++ Number_toString now ++ "-" ++ nat_toString i)
           %string;
         Explosion.position := pos;
         Explosion.color := Some "#ffff00" |}])
    s.

Definition CLEANUP_INTERVAL : Z := 100.

(** [setInterval(cleanup, CLEANUP_INTERVAL)] armed at [mountedAt]: the due
    time of the k-th run of the sweeper (k = 0, 1, ...). *)
Definition cleanupDue (mountedAt : Z) (k : nat) : Z :=
  (mountedAt + CLEANUP_INTERVAL * (Z.of_nat k + 1))%Z.

(** The filter predicate of the sweeper: [e.id.split('-')[1]], [parseInt],
    and the age test; a comparison with [NaN] is false. *)
Definition keepExplosion (now : Z) (e : Explosion.t) : bool :=
  match nth_error (String_split "-" (Explosion.id e)) 1 with
  | Some token =>
      match parseInt token with
      | Some created => (now - created <? 600)%Z
      | None => false
      end
  | None => false
  end.

(** One run of the [setInterval] callback at clock reading [now]. *)
Definition cleanup (now : Z) (s : State) : State :=
  set_explosions (filter (keepExplosion now) (explosions s)) s.

(** ** The main update loop *)

Section Frame.
Context `{MathLib}.
Variable rand : Rand.

(** The [useFrame] callback of [WingmanSupport], run with props [p], clock
    reading [now] and frame time [delta] (seconds). *)
Definition useFrame (p : Props) (now : Z) (delta : Q) (s : State)
  : State * list Event :=
  let newCooldown := Math_max 0 (cooldown s - delta * 1000) in
  let s1 := if gtb (cooldown s) 0 then set_cooldown newCooldown s else s in
  let ev1 :=
    if gtb (cooldown s) 0 && onCooldownUpdate p
    then [CooldownUpdate newCooldown TEAM_SPECIAL_COOLDOWN] else [] in
  if negb (isActive s) then (s1, ev1)
  else
    let elapsed := (now - phaseStartTime s)%Z in
    match phase s with
    | idle => (s1, ev1)
    | approach =>
        let approachProgress := Math_min (inject_Z elapsed / 1000) 1 in
        let spawnPos := getSpawnPosition p in
        let newPos :=
          Vector3.lerpVectors spawnPos (attackPosition s)
            (MathUtils.smoothstep approachProgress 0 1) in
        let lookDir :=
          Vector3.normalize
            (Vector3.subVectors (attackPosition s) newPos) in
        let rotation :=
          if gtb (Vector3.length lookDir) (1 # 10)
          then (radians 0,
                atan2_plus_PI (Vector3.x lookDir) (Vector3.z lookDir),
                radians 0)
          else wingmanRotation s1 in
        let s2 :=
          mkState (cooldown s1) (isActive s1) (phase s1) newPos rotation
            (attackEffects s1) (explosions s1) (targetEnemies s1)
            (phaseStartTime s1) (attackPosition s1) in
        if geb approachProgress 1 then
          (executeAttack rand p
             (mkState (cooldown s2) (isActive s2) attack
                (wingmanPosition s2) (wingmanRotation s2)
                (attackEffects s2) (explosions s2) (targetEnemies s2)
                now (attackPosition s2)),
           ev1)
        else (s2, ev1)
    | attack =>
        if (elapsed >? ATTACK_DURATION)%Z then
          (mkState (cooldown s1) (isActive s1) escape
             (wingmanPosition s1) (wingmanRotation s1)
             (attackEffects s1) (explosions s1) (targetEnemies s1)
             now (attackPosition s1),
           ev1 ++
           (if onEnemiesDestroyed p
            then [EnemiesDestroyed (map id (targetEnemies s))] else []))
        else (s1, ev1)
    | escape =>
        let escapeProgress :=
          Math_min (inject_Z elapsed / inject_Z ESCAPE_DURATION) 1 in
        let escapePos :=
          Vector3.new (Vector3.x (attackPosition s))
            (Vector3.y (attackPosition s) + escapeProgress * 50)
            (Vector3.z (attackPosition s) + escapeProgress * 30) in
        let rotation :=
          (radians (- ESCAPE_CLIMB_ANGLE), Math_PI, radians 0) in
        if geb escapeProgress 1 then
          (mkState TEAM_SPECIAL_COOLDOWN false idle escapePos rotation
             [] (explosions s1) [] (phaseStartTime s1)
             (attackPosition s1),
           ev1)
        else
          (mkState (cooldown s1) (isActive s1) (phase s1) escapePos
             rotation (attackEffects s1) (explosions s1)
             (targetEnemies s1) (phaseStartTime s1) (attackPosition s1),
           ev1)
    end.

End Frame.


(** ** Effect components *)

Definition ltb (a b : Q) : bool := negb (Qle_bool b a).

(** [GatlingProjectile]: the component state [active], the position of the
    mesh behind [ref] (absent until the active component has rendered) and
    the [direction] ref. *)
Module GatlingProjectile.

Definition speed : Q := 120.

Record local := {
  active : bool;
  mesh : option Vector3.t;
  direction : Vector3.t }.

Definition mounted : local :=
  {| active := false; mesh := None; direction := Vector3.new 0 0 0 |}.

(** The [setTimeout] callback armed for [delay] ms, followed by the render
    that creates the mesh at [startPosition.clone()]. *)
Definition start `{MathLib} (startPosition targetPosition : Vector3.t)
    (g : local) : local :=
  {| active := true;
     mesh := Some startPosition;
     direction :=
       Vector3.normalize
         (Vector3.subVectors targetPosition startPosition) |}.

(** The [useFrame] callback; the boolean tells whether [onComplete(id)]
    was called in this frame. *)
Definition useFrame `{MathLib} (targetPosition : Vector3.t) (delta : Q)
    (g : local) : local * bool :=
  match active g, mesh g with
  | true, Some pos =>
      let pos' :=
        Vector3.add pos
          (Vector3.multiplyScalar (direction g) (speed * delta)) in
      let distanceToTarget := Vector3.distanceTo pos' targetPosition in
      ({| active := true; mesh := Some pos'; direction := direction g |},
       ltb distanceToTarget 2)
  | _, _ => (g, false)
  end.

(** A render of the mounted component. The mesh element carries
    [position={startPosition.clone()}], a new vector at every render, which
    the renderer writes to the mesh: an active projectile is put back at its
    start position. The component is not memoised and renders whenever
    [WingmanSupport] does: at every completion, at every frame that sets
    the pose of the unit, and at least every 100 ms, when the sweeper stores
    a new array of explosions. *)
Definition render (startPosition : Vector3.t) (g : local) : local :=
  if active g
  then {| active := true; mesh := Some startPosition;
          direction := direction g |}
  else g.

(** What happens to a started projectile: a frame with its frame time, or a
    render. *)
Inductive Tick :=
| frame (delta : Q)
| rerender.

(** Frames and renders in the order they happen: the number of [onComplete]
    calls made. *)
Fixpoint run `{MathLib} (startPosition targetPosition : Vector3.t)
    (ticks : list Tick) (g : local) : local * nat :=
  match ticks with
  | [] => (g, 0%nat)
  | frame delta :: rest =>
      let '(g1, called) := useFrame targetPosition delta g in
      let '(g2, n) := run startPosition targetPosition rest g1 in
      (g2, ((if called then 1 else 0) + n)%nat)
  | rerender :: rest =>
      run startPosition targetPosition rest (render startPosition g)
  end.

End GatlingProjectile.

(** [Missile]: the component state [active] and [exploded] and the
    [startTime] ref. The group behind [ref] is rendered exactly while the
    missile is active and has not exploded. The pose written to that group
    does not enter the completion logic and is left out. *)
Module Missile.

Record local := { active : bool; exploded : bool; startTime : Z }.

Definition mounted : local :=
  {| active := false; exploded := false; startTime := 0%Z |}.

(** The [setTimeout] callback armed for [delay] ms. *)
Definition start (now : Z) (m : local) : local :=
  {| active := true; exploded := exploded m; startTime := now |}.

(** The [useFrame] callback at clock reading [now]; the result carries the
    due time of the [onComplete] timer armed in this frame, if any. *)
Definition useFrame (flightTime : Z) (now : Z) (m : local)
  : local * option Z :=
  if negb (active m) || exploded m then (m, None)
  else
    let elapsed := (now - startTime m)%Z in
    let progress :=
      Math_min (inject_Z elapsed / inject_Z flightTime) 1 in
    if geb progress 1
    then ({| active := active m; exploded := true;
             startTime := startTime m |},
          Some (now + 300)%Z)
    else (m, None).

(** Consecutive frames at the given clock readings: the due times of all
    [onComplete] timers armed. *)
Fixpoint frames (flightTime : Z) (clock : list Z) (m : local)
  : local * list Z :=
  match clock with
  | [] => (m, [])
  | now :: rest =>
      let '(m1, armed) := useFrame flightTime now m in
      let '(m2, due) := frames flightTime rest m1 in
      (m2, match armed with Some t => t :: due | None => due end)
  end.

End Missile.

(** [BeamEffect]: the timers of its effect hook, for all the beams of one
    activation together. Times are in ms since the descriptors were created
    and the components mounted; [createdAt] is the clock reading of that
    moment. The component state [active] and [completed] only decides what is
    drawn and is left out. Timer callbacks run one at a time, each followed
    by the render it causes. *)
Module BeamEffect.

(** A pending [setTimeout] of the hook. The start timer belongs to one run of
    the hook and is cleared by the cleanup of that run; its callback arms the
    end timer, which nothing clears: the function returned from inside the
    start callback is discarded. The callback of the end timer calls the
    [onComplete] that run of the hook closed over, and [seen] is the
    [attackEffects] inside that [handleEffectComplete]. *)
Inductive Timer :=
| startTimer (id : string) (duration : Z) (due : Z) (seen : list Effect)
| endTimer (id : string) (due : Z) (seen : list Effect).

Definition due (t : Timer) : Z :=
  match t with
  | startTimer _ _ due _ => due
  | endTimer _ due _ => due
  end.

Definition isEnd (t : Timer) : bool :=
  match t with
  | startTimer _ _ _ _ => false
  | endTimer _ _ _ => true
  end.

(** The timer that fires next among the pending ones, which are listed in
    the order they were armed: the one due first and, among those due at the
    same time, the one armed first. The result carries the timers that stay
    pending. *)
Fixpoint next (q : list Timer) : option (Timer * list Timer) :=
  match q with
  | [] => None
  | t :: rest =>
      match next rest with
      | None => Some (t, [])
      | Some (t', rest') =>
          if (due t <=? due t')%Z then Some (t, rest)
          else Some (t', t :: rest')
      end
  end.

(** The hooks of the mounted beams run at [now], after a render that has
    [tracked] as [attackEffects]: each arms a start timer [delay] ms ahead
    and closes over the [handleEffectComplete] of that render. *)
Definition arm (now : Z) (tracked : list Effect) : list Timer :=
  flat_map
    (fun e =>
       match e with
       | beam id _ _ delay duration =>
           [startTimer id duration (now + delay) tracked]
       | _ => []
       end)
    tracked.

(** The commit of a render that finds [attackEffects] changed.
    [handleEffectComplete] is then a new function, and the hook lists
    [onComplete] among its dependencies [[delay, duration, onComplete, id]]:
    the hook of every beam that stays mounted is cleaned up and run again,
    the hook of every beam that unmounts is cleaned up. So every pending
    start timer is cleared, and a new one is armed for each beam still
    tracked, whether it had started or not. *)
Definition commit (now : Z) (tracked : list Effect) (q : list Timer)
  : list Timer :=
  filter isEnd q ++ arm now tracked.

(** The state of [WingmanSupport], the pending timers in the order they were
    armed, and the [onComplete(id)] calls made so far with their times. *)
Record runtime := {
  host : State;
  pending : list Timer;
  calls : list (Z * string) }.

(** The commit that mounts the beams of [attackEffects]. *)
Definition mount (s : State) : runtime :=
  {| host := s; pending := arm 0 (attackEffects s); calls := [] |}.

Section Runtime.

Context `{MathLib}.
Variable p : Props.
Variable createdAt : Z.

(** The text that [Math.random()] contributes to the id of the explosion
    of the n-th call. *)
Variable rnd : nat -> string.

(** The next timer fires. A start callback arms the end timer [duration] ms
    ahead. An end callback calls [onComplete(id)], and the render that
    follows commits the new [attackEffects]. *)
Definition fire (r : runtime) : runtime :=
  match next (pending r) with
  | None => r
  | Some (startTimer id duration due seen, rest) =>
      {| host := host r;
         pending := rest ++ [endTimer id (due + duration) seen];
         calls := calls r |}
  | Some (endTimer id due seen, rest) =>
      let s' :=
        handleEffectComplete p seen (createdAt + due)
          (rnd (List.length (calls r))) id (host r) in
      {| host := s';
         pending := commit due (attackEffects s') rest;
         calls := calls r ++ [(due, id)] |}
  end.

(** Every timer due before [until] fires, at most [fuel] of them. *)
Fixpoint settle (fuel : nat) (until : Z) (r : runtime) : runtime :=
  match fuel with
  | O => r
  | S fuel' =>
      match next (pending r) with
      | Some (t, _) =>
          if (due t <? until)%Z then settle fuel' until (fire r) else r
      | None => r
      end
  end.

(** A frame of [WingmanSupport] [t] ms after the descriptors were created;
    the timers due before it have fired. The frame that enters the attack
    phase and the frame that leaves the escape phase set [attackEffects],
    which the following render commits. *)
Definition frame (rand : Rand) (fuel : nat) (t : Z) (delta : Q)
    (r : runtime) : runtime :=
  let r1 := settle fuel t r in
  let s' := fst (useFrame rand p (createdAt + t) delta (host r1)) in
  {| host := s';
     pending :=
       match phase (host r1), phase s' with
       | approach, attack | escape, idle =>
           commit t (attackEffects s') (pending r1)
       | _, _ => pending r1
       end;
     calls := calls r1 |}.

Fixpoint frames (rand : Rand) (fuel : nat) (clock : list (Z * Q))
    (r : runtime) : runtime :=
  match clock with
  | [] => r
  | (t, delta) :: rest => frames rand fuel rest (frame rand fuel t delta r)
  end.

End Runtime.

End BeamEffect.

(** ** Runs of the component *)

(** Everything that can run against the state: the trigger, a frame, the
    two completion handlers, a lightning explosion timer and the sweeper. *)
Inductive Op :=
| Trigger (p : Props) (now : Z)
| Frame (rand : Rand) (p : Props) (now : Z) (delta : Q)
| EffectComplete (p : Props) (seen : list Effect) (now : Z)
    (rnd effectId : string)
| LightningComplete
| LightningExplosion (now : Z) (i : nat) (pos : Vector3.t)
| Cleanup (now : Z).

Definition step `{MathLib} (op : Op) (s : State) : State * list Event :=
  match op with
  | Trigger p now =>
      let '(_, s', ev) := triggerTeamSpecial p now s in (s', ev)
  | Frame rand p now delta => useFrame rand p now delta s
  | EffectComplete p seen now rnd effectId =>
      (handleEffectComplete p seen now rnd effectId s, [])
  | LightningComplete => (fst (handleLightningComplete s), [])
  | LightningExplosion now i pos => (lightningExplosion now i pos s, [])
  | Cleanup now => (cleanup now s, [])
  end.

Fixpoint run `{MathLib} (ops : list Op) (s : State) : State * list Event :=
  match ops with
  | [] => (s, [])
  | op :: rest =>
      let '(s1, ev1) := step op s in
      let '(s2, ev2) := run rest s1 in
      (s2, ev1 ++ ev2)
  end.

(** The committed state after a history of operations on a fresh mount. *)
Definition stateAfter `{MathLib} (history : list Op) : State :=
  fst (run history initialState).


(** ** The invariant of the state machine *)

(** [isActive] holds exactly outside the idle phase, the cooldown is never
    negative, and it is zero throughout an activation. *)
Definition consistent (s : State) : Prop :=
  (isActive s = true <-> phase s <> idle)
  /\ 0 <= cooldown s
  /\ (isActive s = true -> cooldown s <= 0).

(** ** Sample inputs *)

#[local] Instance exactMath : MathLib := {| Math_sqrt := Qsqrt |}.

(** The two enemies of the usage example in the README. *)
Definition sampleEnemies : list Enemy :=
  [ {| id := "enemy-1"; position := Vector3.new 0 0 (-30) |};
    {| id := "enemy-2"; position := Vector3.new 5 2 (-35) |} ].

(** The reference pose sits at [pos] and faces down the negative z axis. *)
Definition sampleProps (pos : Vector3.t) (wingman : Z)
    (targets : list Enemy) : Props :=
  {| playerPosition := pos; playerForward := Vector3.new 0 0 (-1);
     enemies := targets; selectedWingman := wingman;
     onActivate := true; onEnemiesDestroyed := true;
     onCooldownUpdate := true |}.

(** [Math.random()] always returning 0.5: no jitter. *)
Definition noJitter : Rand := fun _ => 1 # 2.

Definition origin : Vector3.t := Vector3.new 0 0 0.

(** An activation rendered every [period] ms: the trigger at clock reading
    0, then [frames] frames. With a period of 100 ms the frame at 1000
    enters the attack phase, the frame at 3100 the escape phase and the
    frame at 4600 the idle phase. *)
Definition sampleRun (p : Props) (period : Z) (frames : nat) : list Op :=
  Trigger p 0
  :: map (fun k => Frame noJitter p (period * Z.of_nat k)
                     (inject_Z period / 1000))
       (seq 1 frames).

(** One enemy straight ahead of the attack pose of a player at the origin,
    30 units away. *)
Definition loneEnemy : list Enemy :=
  [ {| id := "enemy-1"; position := Vector3.new 5 2 (-30) |} ].

(** The state right after the trigger was accepted at clock reading 0 for a
    player at the origin, and the state after the frame at 1000 that enters
    the attack phase. *)
Definition sampleAccepted : State :=
  snd (fst (triggerTeamSpecial (sampleProps origin 0 sampleEnemies) 0
              initialState)).

Definition sampleAttacking : State :=
  fst (step (Frame noJitter (sampleProps origin 0 sampleEnemies) 1000
               (1 # 60))
         sampleAccepted).

(** [n] enemies in a row. *)
Definition enemyRow (n : nat) : list Enemy :=
  map (fun k => {| id := nat_toString k;
                   position := Vector3.new (inject_Z (Z.of_nat k)) 0 (-30) |})
    (seq 0 n).


(** The state after the frame at 3100 that enters the escape phase. *)
Definition sampleEscaping : State :=
  fst (step (Frame noJitter (sampleProps origin 0 sampleEnemies) 3100
               (1 # 10))
         sampleAttacking).

(** Forty-five frames of one second each, rendered after the sample
    activation has ended at 4600. *)
Definition sampleIdleFrames : list Op :=
  map (fun k => Frame noJitter (sampleProps origin 0 sampleEnemies)
                  (4600 + 1000 * Z.of_nat k) 1)
    (seq 1 45).



(** The sample activation up to the attack phase, followed by the
    completion signals of the first two projectiles, each sent through the
    callback of the latest render. *)
Definition sampleCompletions : list Op :=
  [ Trigger (sampleProps origin 0 sampleEnemies) 0;
    Frame noJitter (sampleProps origin 0 sampleEnemies) 1000 (1 # 60);
    EffectComplete (sampleProps origin 0 sampleEnemies)
      (attackEffects sampleAttacking) 1200 "0.5" "gatling-0-0";
    EffectComplete (sampleProps origin 0 sampleEnemies)
      (attackEffects
         (handleEffectComplete (sampleProps origin 0 sampleEnemies)
            (attackEffects sampleAttacking) 1200 "0.5" "gatling-0-0"
            sampleAttacking))
      1250 "0.7" "gatling-0-1" ].

(** The states of the activation accepted with props [p0] at clock reading
    [now0]: the state right after the accepted trigger, and every later
    state up to, and not including, the entry into the escape phase. *)
Inductive engaged `{MathLib} (p0 : Props) (now0 : Z) : State -> Prop :=
| engaged_accept s s' ev :
    triggerTeamSpecial p0 now0 s = (true, s', ev) ->
    engaged p0 now0 s'
| engaged_step op s :
    engaged p0 now0 s ->
    phase (fst (step op s)) <> escape ->
    engaged p0 now0 (fst (step op s)).

(** ** Further components *)

(** [WingmanSelectorHUD]: the values computed ahead of the markup. *)
Module WingmanSelectorHUD.

Definition Math_ceil (q : Q) : Z := Qceiling q.

Definition cooldownPercent (cooldown maxCooldown : Q) : Q :=
  if gtb maxCooldown 0
  then ((maxCooldown - cooldown) / maxCooldown) * 100
  else 100.

(** [cooldown === 0 && !isActive] *)
Definition isReady (cooldown : Q) (isActive : bool) : bool :=
  Qeq_bool cooldown 0 && negb isActive.

(** The text shown after ["TEAM SPECIAL "]. *)
Definition status (cooldown : Q) (isActive : bool) : string :=
  if isActive then "[ACTIVE]"
  else if isReady cooldown isActive then "[READY]"
  else ("[" ++ Number_toString (Math_ceil (cooldown / 1000)) ++ "s]")%string.

(** The background of the cooldown bar. *)
Definition barColor (cooldown : Q) (isActive : bool) : string :=
  if isReady cooldown isActive then "#00ff88"
  else if isActive then "#ffaa00" else "#448844".

(** The attack type hint under the buttons. *)
Definition hint (selectedWingman : Z) : option string :=
  item ["GATLING GUNS"; "BEAM GUNS"; "LIGHTNING GUN"; "MISSILE SWARM"]
    selectedWingman.

End WingmanSelectorHUD.

(** The [Explosion] component: the state [scale] and [opacity] and the
    [startTime] ref, which holds the clock reading of the mount. *)
Module ExplosionComponent.

Record local := { scale : Q; opacity : Q; startTime : Z }.

Definition mounted (now : Z) : local :=
  {| scale := 1 # 10; opacity := 1; startTime := now |}.

(** The [useFrame] callback at clock reading [now]. *)
Definition useFrame (duration : Z) (now : Z) (l : local) : local :=
  let elapsed := (now - startTime l)%Z in
  let progress := Math_min (inject_Z elapsed / inject_Z duration) 1 in
  {| scale := (1 # 10) + progress * 3;
     opacity := 1 - progress;
     startTime := startTime l |}.

(** [if (opacity <= 0) return null]: whether anything is drawn. *)
Definition drawn (l : local) : bool := negb (Qle_bool (opacity l) 0).

(** The default of the [duration] prop, which [WingmanSupport] never
    overrides. *)
Definition duration : Z := 500.

End ExplosionComponent.

(** [LightningChain]: the jagged path between two chain positions. *)
Module LightningChain.

Definition segments : nat := 8.

Section Points.
Context `{MathLib}.
Variable rand : Rand.

(** The body of the loop for index [i]. *)
Definition jaggedPoint (start direction : Vector3.t) (length : Q)
    (i : nat) : Rnd (list Vector3.t) :=
  let t := inject_Z (Z.of_nat i) / inject_Z (Z.of_nat segments) in
  let basePoint :=
    Vector3.add start (Vector3.multiplyScalar direction (length * t)) in
  r1 <- Math_random rand ;;
  r2 <- Math_random rand ;;
  r3 <- Math_random rand ;;
  ret [Vector3.add basePoint
         (Vector3.new ((r1 - (1 # 2)) * 2) ((r2 - (1 # 2)) * 2)
            ((r3 - (1 # 2)) * 2))].

Definition generateLightningPoints (start finish : Vector3.t)
  : Rnd (list Vector3.t) :=
  let direction := Vector3.subVectors finish start in
  let length := Vector3.length direction in
  let direction := Vector3.normalize direction in
  middle <- for_loop (segments - 1) 1 (jaggedPoint start direction length) ;;
  ret (start :: middle ++ [finish]).

End Points.

(** The effect hook: three timers, each armed by the callback of the one
    before. The hook runs once per mount, its dependencies [delay],
    [duration], [positions] and [onComplete] staying the same objects during
    an activation ([handleLightningComplete] depends on [targetEnemies]
    alone). Times are in ms since the mount. *)
Inductive Timer :=
| startTimer
| explodeTimer
| completeTimer.

(** The values of the state [phase]. *)
Inductive Stage :=
| chain
| explode.

Record local := {
  active : bool;
  stage : Stage;
  explosionPositions : list Vector3.t;
  pending : option (Timer * Z) }.

Definition mounted (delay : Z) : local :=
  {| active := false; stage := chain; explosionPositions := [];
     pending := Some (startTimer, delay) |}.

(** The pending timer fires; the result carries the time of the
    [onComplete()] call, if its callback makes one. *)
Definition fire (positions : list Vector3.t) (duration : Z) (l : local)
  : local * option Z :=
  match pending l with
  | None => (l, None)
  | Some (startTimer, due) =>
      ({| active := true; stage := stage l;
          explosionPositions := explosionPositions l;
          pending := Some (explodeTimer, (due + duration)%Z) |}, None)
  | Some (explodeTimer, due) =>
      ({| active := active l; stage := explode;
          explosionPositions := positions;
          pending := Some (completeTimer, (due + 500)%Z) |}, None)
  | Some (completeTimer, due) =>
      ({| active := active l; stage := stage l;
          explosionPositions := explosionPositions l;
          pending := None |}, Some due)
  end.

(** The cleanup of the hook, run when the component unmounts: it clears the
    start timer and no other. *)
Definition unmount (l : local) : local :=
  match pending l with
  | Some (startTimer, _) =>
      {| active := active l; stage := stage l;
         explosionPositions := explosionPositions l; pending := None |}
  | _ => l
  end.

(** The timers fire in turn, at most [fuel] of them: the times of the
    [onComplete()] calls made. *)
Fixpoint settle (fuel : nat) (positions : list Vector3.t) (duration : Z)
    (l : local) : local * list Z :=
  match fuel with
  | O => (l, [])
  | S fuel' =>
      match pending l with
      | None => (l, [])
      | Some _ =>
          let '(l1, called) := fire positions duration l in
          let '(l2, later) := settle fuel' positions duration l1 in
          (l2, match called with Some t => t :: later | None => later end)
      end
  end.

End LightningChain.

(** [WingmanSupportSystem], the default export: its own state, the props it
    hands to [WingmanSupport] and the three callbacks it supplies. *)
Module WingmanSupportSystem.

Definition mkInnerProps (pos forward : Vector3.t) (targets : list Enemy)
    (wingman : Z) : Props :=
  {| playerPosition := pos; playerForward := forward; enemies := targets;
     selectedWingman := wingman; onActivate := true;
     onEnemiesDestroyed := true; onCooldownUpdate := true |}.

(** The props of the default export; the flag tells whether the host
    supplied [onEnemiesDestroyed]. *)
Record HostProps := {
  playerPosition : Vector3.t;
  playerForward : Vector3.t;
  enemies : list Enemy;
  onEnemiesDestroyed : bool }.

Record local := { selectedWingman : Z; cooldown : Q; isActive : bool }.

Definition mounted : local :=
  {| selectedWingman := 0; cooldown := 0; isActive := false |}.

Definition innerProps (h : HostProps) (w : local) : Props :=
  mkInnerProps (playerPosition h) (playerForward h) (enemies h)
    (selectedWingman w).

(** What reaches the outside: a console line or the host callback. *)
Inductive Output :=
| console_log (line : string)
| hostEnemiesDestroyed (ids : list string).

(** One callback of [WingmanSupport] arriving at the wrapper:
    [handleActivate], the inline [onEnemiesDestroyed] and
    [handleCooldownUpdate]. *)
Definition deliver (h : HostProps) (ev : Event) (w : local)
  : local * list Output :=
  match ev with
  | Activated wingmanIndex wingmanName =>
      ({| selectedWingman := selectedWingman w; cooldown := cooldown w;
          isActive := true |},
       [console_log
          ((match wingmanName with Some n => n | None => "undefined" end)
           ++ " incoming for Team Special!")%string])
  | EnemiesDestroyed ids =>
      ({| selectedWingman := selectedWingman w; cooldown := cooldown w;
          isActive := false |},
       if onEnemiesDestroyed h then [hostEnemiesDestroyed ids] else [])
  | CooldownUpdate current max =>
      ({| selectedWingman := selectedWingman w; cooldown := current;
          isActive := isActive w |},
       [])
  end.

Fixpoint deliverAll (h : HostProps) (evs : list Event) (w : local)
  : local * list Output :=
  match evs with
  | [] => (w, [])
  | ev :: rest =>
      let '(w1, out1) := deliver h ev w in
      let '(w2, out2) := deliverAll h rest w1 in
      (w2, out1 ++ out2)
  end.

(** What can run against the mounted system, each with the host props of
    the current render. *)
Inductive SysOp :=
| SysTrigger (h : HostProps) (now : Z)
| SysFrame (rand : Rand) (h : HostProps) (now : Z) (delta : Q)
| SysEffectComplete (h : HostProps) (seen : list Effect) (now : Z)
    (rnd effectId : string)
| SysLightningComplete
| SysLightningExplosion (now : Z) (i : nat) (pos : Vector3.t)
| SysCleanup (now : Z).

Definition innerOp (w : local) (op : SysOp) : Op :=
  match op with
  | SysTrigger h now => Trigger (innerProps h w) now
  | SysFrame rand h now delta => Frame rand (innerProps h w) now delta
  | SysEffectComplete h seen now rnd effectId =>
      EffectComplete (innerProps h w) seen now rnd effectId
  | SysLightningComplete => LightningComplete
  | SysLightningExplosion now i pos => LightningExplosion now i pos
  | SysCleanup now => Cleanup now
  end.

Definition hostOf (op : SysOp) : option HostProps :=
  match op with
  | SysTrigger h _ | SysFrame _ h _ _ | SysEffectComplete h _ _ _ _ =>
      Some h
  | _ => None
  end.

Definition sysStep `{MathLib} (op : SysOp) (ws : local * State)
  : (local * State) * list Output :=
  let '(w, s) := ws in
  let '(s', evs) := step (innerOp w op) s in
  match hostOf op with
  | Some h => let '(w', out) := deliverAll h evs w in ((w', s'), out)
  | None => ((w, s'), [])
  end.

Fixpoint sysRun `{MathLib} (ops : list SysOp) (ws : local * State)
  : (local * State) * list Output :=
  match ops with
  | [] => (ws, [])
  | op :: rest =>
      let '(ws1, out1) := sysStep op ws in
      let '(ws2, out2) := sysRun rest ws1 in
      (ws2, out1 ++ out2)
  end.

Definition sysAfter `{MathLib} (history : list SysOp) : local * State :=
  fst (sysRun history (mounted, initialState)).

End WingmanSupportSystem.

(** ** Vocabulary for histories *)

(** The frame time of a frame, 0 for any other operation. *)
Definition frameDelta (op : Op) : Q :=
  match op with Frame _ _ _ delta => delta | _ => 0 end.

Definition isFrame (op : Op) : bool :=
  match op with Frame _ _ _ _ => true | _ => false end.

(** The frame times of a history added up, in seconds. *)
Definition totalDelta (ops : list Op) : Q :=
  fold_right (fun op acc => frameDelta op + acc) 0 ops.

(** The clock reading an operation is run at, where it reads the clock. *)
Definition clockOf (op : Op) : option Z :=
  match op with
  | Trigger _ now | Frame _ _ now _ | EffectComplete _ _ now _ _
  | LightningExplosion now _ _ | Cleanup now => Some now
  | LightningComplete => None
  end.

(** Every clock reading of the operation lies between [lo] and [hi]. *)
Definition clockWithin (lo hi : Z) (op : Op) : Prop :=
  match clockOf op with
  | Some now => (lo <= now <= hi)%Z
  | None => True
  end.

(** The timers armed by [handleLightningComplete] firing in the order they
    were armed, the k-th at clock reading [nth k clocks]. *)
Fixpoint fireLightningTimers (timers : list (Z * (nat * Vector3.t)))
    (clocks : list Z) (s : State) : State :=
  match timers, clocks with
  | (_, (i, pos)) :: timers', now :: clocks' =>
      fireLightningTimers timers' clocks' (lightningExplosion now i pos s)
  | _, _ => s
  end.

(** [l.map((a, i) => f(i, a))] with indices starting at [i0]. *)
Fixpoint mapi {A B} (f : nat -> A -> B) (i0 : nat) (l : list A) : list B :=
  match l with
  | [] => []
  | a :: l' => f i0 a :: mapi f (S i0) l'
  end.

(** Whether a descriptor is a RapidBurst shot. *)
Definition isGatling (e : Effect) : bool :=
  match e with gatling _ _ _ _ => true | _ => false end.

(** What links the state of the default export to the state of the
    [WingmanSupport] it renders: the selection is never changed, the
    activity flag of the wrapper is set exactly from the accepted trigger to
    the elimination callback, and its cooldown is the one last reported,
    which lags behind only between the end of the escape window and the next
    frame. *)
Definition inSync (ws : WingmanSupportSystem.local * State) : Prop :=
  let (w, s) := ws in
  consistent s
  /\ WingmanSupportSystem.selectedWingman w = 0%Z
  /\ (WingmanSupportSystem.isActive w = true
      <-> phase s = approach \/ phase s = attack)
  /\ (WingmanSupportSystem.cooldown w = cooldown s
      \/ (cooldown s = TEAM_SPECIAL_COOLDOWN /\ phase s = idle
          /\ WingmanSupportSystem.cooldown w == 0))
  /\ forallb isGatling (attackEffects s) = true.


(** The projectile is rendered often: no frame time is negative, and the
    frame times between two renders add up to at most [limit] seconds,
    [elapsed] of which have passed since the last render. *)
Fixpoint paced (limit elapsed : Q) (ticks : list GatlingProjectile.Tick)
  : Prop :=
  match ticks with
  | [] => True
  | GatlingProjectile.frame delta :: rest =>
      0 <= delta /\ elapsed + delta <= limit
      /\ paced limit (elapsed + delta) rest
  | GatlingProjectile.rerender :: rest => paced limit 0 rest
  end.

(** [rounds] times [per] frames of [delta] seconds and then a render. *)
Definition renderedFrames (rounds per : nat) (delta : Q)
  : list GatlingProjectile.Tick :=
  List.concat
    (repeat
       (repeat (GatlingProjectile.frame delta) per
        ++ [GatlingProjectile.rerender])
       rounds).

(** * Properties *)

(** ** Loops and sorting *)

Lemma forEach_length {A B} (f : A -> nat -> Rnd (list B)) (n : nat) :
  (forall a i k, List.length (fst (f a i k)) = n) ->
  forall l i k, List.length (fst (forEach f l i k)) = (n * List.length l)%nat.
Proof.
  intros Hf l; induction l as [|a l IH]; intros i k; simpl.
  - now rewrite Nat.mul_0_r.
  - unfold bind, ret. specialize (Hf a i k).
    destruct (f a i k) as [pushed k1]; simpl in Hf.
    specialize (IH (S i) k1).
    destruct (forEach f l (S i) k1) as [rest k2]; simpl in *.
    rewrite length_app, Hf, IH. lia.
Qed.

Lemma for_loop_length {B} (body : nat -> Rnd (list B)) (m : nat) :
  (forall j k, List.length (fst (body j k)) = m) ->
  forall n j k, List.length (fst (for_loop n j body k)) = (n * m)%nat.
Proof.
  intros Hb n; induction n as [|n IH]; intros j k; simpl.
  - reflexivity.
  - unfold bind, ret. specialize (Hb j k).
    destruct (body j k) as [pushed k1]; simpl in Hb.
    specialize (IH (S j) k1).
    destruct (for_loop n (S j) body k1) as [rest k2]; simpl in *.
    rewrite length_app, Hb, IH. lia.
Qed.

Section SortByKey.
Context {A : Type} (key : A -> Q).

Let cmp (a b : A) : Q := key a - key b.
Let le (a b : A) : Prop := key a <= key b.

Lemma sort_insert_perm a l : Permutation (a :: l) (sort_insert cmp a l).
Proof.
  induction l as [|b l IH]; simpl.
  - apply Permutation_refl.
  - destruct (gtb (cmp a b) 0).
    + eapply perm_trans; [apply perm_swap|]. now apply perm_skip.
    + apply Permutation_refl.
Qed.

Lemma Array_sort_perm l : Permutation l (Array_sort cmp l).
Proof.
  induction l as [|a l IH]; simpl.
  - apply perm_nil.
  - eapply perm_trans; [apply perm_skip, IH|]. apply sort_insert_perm.
Qed.

Lemma gtb_cmp_true a b : gtb (cmp a b) 0 = true -> le b a.
Proof.
  unfold gtb, cmp, le. intros Hg.
  destruct (Qle_bool (key a - key b) 0) eqn:E; [discriminate|].
  assert (~ key a - key b <= 0)
    by (intros C; apply Qle_bool_iff in C; congruence).
  lra.
Qed.

Lemma gtb_cmp_false a b : gtb (cmp a b) 0 = false -> le a b.
Proof.
  unfold gtb, cmp, le. intros Hg.
  destruct (Qle_bool (key a - key b) 0) eqn:E; [|discriminate].
  apply Qle_bool_iff in E. lra.
Qed.

Lemma sort_insert_sorted a l :
  StronglySorted le l -> StronglySorted le (sort_insert cmp a l).
Proof.
  induction 1 as [|b l Hs IH Hb]; simpl.
  - constructor; constructor.
  - destruct (gtb (cmp a b) 0) eqn:E.
    + constructor; [exact IH|].
      eapply Permutation_Forall; [apply sort_insert_perm|].
      constructor; [now apply gtb_cmp_true | exact Hb].
    + apply gtb_cmp_false in E.
      constructor; [now constructor|].
      constructor; [exact E|].
      eapply Forall_impl; [|exact Hb].
      intros c Hc. unfold le in *. lra.
Qed.

Lemma Array_sort_sorted l : StronglySorted le (Array_sort cmp l).
Proof.
  induction l as [|a l IH]; simpl.
  - constructor.
  - now apply sort_insert_sorted.
Qed.

End SortByKey.

Lemma StronglySorted_map {A B} (f : A -> B) (R : B -> B -> Prop) l :
  StronglySorted (fun a b => R (f a) (f b)) l -> StronglySorted R (map f l).
Proof.
  induction 1 as [|a l Hs IH Ha]; simpl; constructor; auto.
  rewrite Forall_forall in *. intros q Hq.
  apply in_map_iff in Hq. destruct Hq as [b [<- Hb]]. now apply Ha.
Qed.

(** The square root of the sample instance is exact on squares. *)
Lemma Qsqrt_square q : Qsqrt (q * q) == Qabs q.
Proof.
  destruct q as [a b]. unfold Qsqrt, Qabs, Qeq. cbn [Qnum Qden Qmult].
  replace (a * a * Z.pos (b * b))%Z
    with ((Z.abs a * Z.pos b) * (Z.abs a * Z.pos b))%Z
    by (rewrite Pos2Z.inj_mul; destruct (Z.abs_spec a) as [[_ ->]|[_ ->]];
        ring).
  rewrite Z.sqrt_square by lia. rewrite Pos2Z.inj_mul. ring.
Qed.

(** ** The attack generator *)

(** The RapidBurst scenario of the specification: two targets give ten
    projectiles whose start delays run from 0 to 230 ms. *)
Example rapid_burst_two_targets :
  map effect_delay
    (generateEffects noJitter 0
       [ {| id := "a"; position := Vector3.new 0 0 (-30) |};
         {| id := "b"; position := Vector3.new 5 2 (-35) |} ]
       (Vector3.new 5 2 0))
  = [0; 50; 100; 150; 200; 30; 80; 130; 180; 230]%Z.
Proof. reflexivity. Qed.

(** C4. For a snapshot of N targets and any origin: RapidBurst (wingman 0)
    yields 5 * N descriptors, PrecisionBeam (1) and HomingSwarm (3) yield N,
    and ChainedArc (2) yields 1 descriptor when N >= 1 and none when
    N = 0. *)
Theorem descriptor_count_laws `{MathLib} (rand : Rand)
    (targets : list Enemy) (origin : Vector3.t) :
  let N := List.length targets in
  List.length (generateEffects rand 0 targets origin) = (5 * N)%nat /\
  List.length (generateEffects rand 1 targets origin) = N /\
  List.length (generateEffects rand 3 targets origin) = N /\
  List.length (generateEffects rand 2 targets origin)
  = (if (N =? 0)%nat then 0 else 1)%nat.
Proof.
  intros N. unfold generateEffects; cbn [Z.eqb Pos.eqb]. repeat split.
  - rewrite (forEach_length _ 5%nat); [subst N; lia|].
    intros a i k. apply (for_loop_length _ 1%nat). reflexivity.
  - rewrite (forEach_length _ 1%nat); [subst N; lia|]. reflexivity.
  - rewrite (forEach_length _ 1%nat); [subst N; lia|]. reflexivity.
  - subst N. destruct targets; reflexivity.
Qed.

(** C8. For ChainedArc with a non-empty snapshot the generator yields the
    single chain descriptor with start delay 0 and the fixed chain duration
    (600 ms); its position sequence is the origin followed by the target
    positions of the snapshot, reordered by ascending distance from the
    origin. *)
Theorem chained_arc_descriptor `{MathLib} (rand : Rand)
    (targets : list Enemy) (origin : Vector3.t) :
  targets <> [] ->
  exists sortedPositions,
    generateEffects rand 2 targets origin
    = [lightning "lightning-chain" (origin :: sortedPositions) 0%Z
         LIGHTNING_CHAIN_DURATION]
    /\ LIGHTNING_CHAIN_DURATION = 600%Z
    /\ Permutation (map position targets) sortedPositions
    /\ StronglySorted
         (fun p q => Vector3.distanceTo origin p
                     <= Vector3.distanceTo origin q)
         sortedPositions.
Proof.
  intros Hne. unfold generateEffects; cbn [Z.eqb Pos.eqb].
  destruct targets as [|t targets]; [congruence|].
  set (key := fun a : Enemy => Vector3.distanceTo origin (position a)).
  change (0 <? List.length (t :: targets))%nat with true. cbv iota.
  eexists. split; [reflexivity|]. split; [reflexivity|]. split.
  - apply Permutation_map. apply (Array_sort_perm key).
  - apply StronglySorted_map. apply (Array_sort_sorted key).
Qed.


(** ** Comparisons on numbers *)

Lemma gtb_true a b : gtb a b = true <-> b < a.
Proof.
  unfold gtb. destruct (Qle_bool a b) eqn:E; simpl.
  - apply Qle_bool_iff in E. split; [discriminate | lra].
  - split; [intros _|reflexivity].
    apply Qnot_le_lt. intros C. apply Qle_bool_iff in C. congruence.
Qed.

Lemma gtb_false a b : gtb a b = false <-> a <= b.
Proof.
  pose proof (gtb_true a b) as Ht.
  destruct (gtb a b); split; intros Hx; try reflexivity; try discriminate.
  - assert (b < a) by now apply Ht. lra.
  - apply Qnot_lt_le. intros C. apply Ht in C. discriminate.
Qed.

Lemma geb_true a b : geb a b = true <-> b <= a.
Proof. unfold geb. apply Qle_bool_iff. Qed.

Lemma Math_max_spec a b :
  (a <= b /\ Math_max a b = b) \/ (b < a /\ Math_max a b = a).
Proof.
  unfold Math_max. destruct (Qle_bool a b) eqn:E.
  - left. split; [now apply Qle_bool_iff | reflexivity].
  - right. split; [|reflexivity].
    apply Qnot_le_lt. intros C. apply Qle_bool_iff in C. congruence.
Qed.

Lemma Math_min_spec a b :
  (a <= b /\ Math_min a b = a) \/ (b < a /\ Math_min a b = b).
Proof.
  unfold Math_min. destruct (Qle_bool a b) eqn:E.
  - left. split; [now apply Qle_bool_iff | reflexivity].
  - right. split; [|reflexivity].
    apply Qnot_le_lt. intros C. apply Qle_bool_iff in C. congruence.
Qed.

(** ** Invariants of the state machine *)

Lemma initial_consistent : consistent initialState.
Proof.
  unfold consistent; simpl. repeat split; try discriminate; try lra.
  intros E; now elim E.
Qed.

Lemma trigger_consistent p now s :
  consistent s -> consistent (snd (fst (triggerTeamSpecial p now s))).
Proof.
  intros Hs. unfold triggerTeamSpecial.
  destruct (gtb (cooldown s) 0) eqn:Eg; simpl; [exact Hs|].
  destruct (isActive s) eqn:Ei; simpl; [exact Hs|].
  destruct (List.length (enemies p) =? 0)%nat; simpl; [exact Hs|].
  apply gtb_false in Eg. destruct Hs as (Ha & Hc & Hz).
  repeat split; simpl; auto; discriminate.
Qed.

Lemma useFrame_consistent `{MathLib} rand p now delta s :
  consistent s -> consistent (fst (useFrame rand p now delta s)).
Proof.
  intros (Ha & Hc & Hz). unfold useFrame.
  destruct (isActive s) eqn:Ei; simpl.
  - assert (Hle : cooldown s <= 0) by now apply Hz.
    assert (Eg : gtb (cooldown s) 0 = false) by now apply gtb_false.
    rewrite Eg; simpl.
    destruct (phase s) eqn:Ep.
    + exfalso. now apply (proj1 Ha).
    + destruct (geb _ 1); unfold consistent; simpl; rewrite Ei;
        repeat split; auto; discriminate.
    + destruct (_ >? _)%Z; unfold consistent; simpl; rewrite ?Ei, ?Ep;
        repeat split; auto; discriminate.
    + destruct (geb _ 1); unfold consistent; simpl; rewrite ?Ei, ?Ep;
        repeat split; auto; try discriminate;
        try (unfold TEAM_SPECIAL_COOLDOWN; lra).
  - destruct (gtb (cooldown s) 0) eqn:Eg; simpl;
      unfold consistent; simpl; rewrite ?Ei; repeat split;
      try discriminate; try tauto; try (intros C; now apply Ha in C).
    destruct (Math_max_spec 0 (cooldown s - delta * 1000)) as [[? ->]|[? ->]];
      lra.
Qed.

Lemma step_consistent `{MathLib} op s :
  consistent s -> consistent (fst (step op s)).
Proof.
  destruct op; simpl; intros Hs.
  - pose proof (trigger_consistent p now s Hs) as Ht.
    destruct (triggerTeamSpecial p now s) as [[b s'] ev]. exact Ht.
  - now apply useFrame_consistent.
  - exact Hs.
  - exact Hs.
  - exact Hs.
  - exact Hs.
Qed.

Lemma run_consistent `{MathLib} ops :
  forall s, consistent s -> consistent (fst (run ops s)).
Proof.
  induction ops as [|op ops IH]; intros s Hs; simpl; [exact Hs|].
  pose proof (step_consistent op s Hs) as H1.
  destruct (step op s) as [s1 ev1]. simpl in H1.
  specialize (IH s1 H1). destruct (run ops s1) as [s2 ev2]. exact IH.
Qed.

Lemma stateAfter_consistent `{MathLib} history :
  consistent (stateAfter history).
Proof. apply run_consistent, initial_consistent. Qed.


(** ** Activation *)

(** C2. After any history of operations, a call of the trigger made outside
    the idle phase, or with a positive cooldown, or with an empty enemy
    list, returns [false], leaves every component of the state as it was
    and invokes no callback. *)
Theorem idempotent_rejection `{MathLib} (history : list Op) (p : Props)
    (now : Z) :
  let s := stateAfter history in
  phase s <> idle \/ 0 < cooldown s \/ enemies p = [] ->
  triggerTeamSpecial p now s = (false, s, []).
Proof.
  intros s Hrej. unfold triggerTeamSpecial.
  destruct (stateAfter_consistent history) as (Ha & _ & _). fold s in Ha.
  destruct Hrej as [Hp | [Hc | He]].
  - apply Ha in Hp. rewrite Hp. now rewrite orb_true_r.
  - apply gtb_true in Hc. now rewrite Hc.
  - rewrite He. simpl. now rewrite orb_true_r.
Qed.

(** C9. The attack pose is the reference position moved by +5 along the
    world x axis and +2 along the world y axis; the reference forward
    direction does not enter it, and an accepted trigger stores exactly this
    pose. *)
Theorem attack_pose_offset (p : Props) (now : Z) (s s' : State)
    (ev : list Event) :
  triggerTeamSpecial p now s = (true, s', ev) ->
  attackPosition s'
  = Vector3.new (Vector3.x (playerPosition p) + 5)
      (Vector3.y (playerPosition p) + 2) (Vector3.z (playerPosition p))
  /\ getAttackPosition p = attackPosition s'
  /\ forall forward,
       getAttackPosition
         {| playerPosition := playerPosition p; playerForward := forward;
            enemies := enemies p; selectedWingman := selectedWingman p;
            onActivate := onActivate p;
            onEnemiesDestroyed := onEnemiesDestroyed p;
            onCooldownUpdate := onCooldownUpdate p |}
       = attackPosition s'.
Proof.
  unfold triggerTeamSpecial.
  destruct (_ || _ || _); [discriminate|].
  intros E; injection E as <- _. simpl. repeat split.
Qed.

(** ** Cooldown *)

(** C5. After any history, (a) an operation that leaves the cooldown larger
    than it found it is a frame that leaves the escape phase for the idle
    phase, and the new value is the configured maximum; (b) a frame with
    positive frame time run while the cooldown is positive leaves it
    strictly smaller, equal to [max(0, cooldown - delta * 1000)], hence not
    below zero; (c) the frame that ends the escape window assigns the
    configured maximum. *)
Theorem cooldown_monotonicity `{MathLib} (history : list Op) (op : Op) :
  let s := stateAfter history in
  let s' := fst (step op s) in
  ((forall rand p now delta, op = Frame rand p now delta -> 0 <= delta) ->
   cooldown s < cooldown s' ->
   (exists rand p now delta, op = Frame rand p now delta)
   /\ phase s = escape /\ phase s' = idle
   /\ cooldown s' = TEAM_SPECIAL_COOLDOWN)
  /\ (forall rand p now delta,
        op = Frame rand p now delta -> 0 < delta -> 0 < cooldown s ->
        cooldown s' < cooldown s /\ 0 <= cooldown s'
        /\ cooldown s' = Math_max 0 (cooldown s - delta * 1000))
  /\ (forall rand p now delta,
        op = Frame rand p now delta -> phase s = escape ->
        (ESCAPE_DURATION <= now - phaseStartTime s)%Z ->
        cooldown s' = TEAM_SPECIAL_COOLDOWN /\ phase s' = idle).
Proof.
  intros s s'.
  destruct (stateAfter_consistent history) as (Ha & Hc & Hz).
  fold s in Ha, Hc, Hz.
  split; [|split].
  - (* no increase except at escape exit *)
    intros Hdelta. subst s'. destruct op; cbn [step].
    + unfold triggerTeamSpecial.
      destruct (_ || _ || _); cbn [fst snd cooldown]; intros C; lra.
    + unfold useFrame. destruct (isActive s) eqn:Ei; cbn [negb].
      * assert (Eg : gtb (cooldown s) 0 = false)
          by (apply gtb_false; now apply Hz).
        rewrite Eg.
        destruct (phase s) eqn:Ep.
        -- cbn [fst]; intros C; lra.
        -- destruct (geb _ 1); cbn [fst executeAttack cooldown];
             intros C; lra.
        -- destruct (_ >? _)%Z; cbn [fst cooldown]; intros C; lra.
        -- destruct (geb _ 1); cbn [fst cooldown phase]; intros C; [|lra].
           repeat split. now exists rand, p, now, delta.
      * destruct (gtb (cooldown s) 0) eqn:Eg;
          cbn [fst set_cooldown cooldown]; intros C; [|lra].
        apply gtb_true in Eg.
        pose proof (Hdelta rand p now delta eq_refl) as Hd.
        destruct (Math_max_spec 0 (cooldown s - delta * 1000))
          as [[? E]|[? E]]; rewrite E in C; lra.
    + cbn [fst]. unfold handleEffectComplete.
      cbn [cooldown set_explosions set_attackEffects]. intros C; lra.
    + cbn [fst handleLightningComplete set_attackEffects cooldown].
      intros C; lra.
    + cbn [fst lightningExplosion set_explosions cooldown]. intros C; lra.
    + cbn [fst cleanup set_explosions cooldown]. intros C; lra.
  - intros rand p now delta -> Hd Hpos. subst s'. cbn [step].
    unfold useFrame.
    assert (Ei : isActive s = false).
    { destruct (isActive s); [|reflexivity].
      assert (cooldown s <= 0) by auto. lra. }
    rewrite Ei. cbn [negb].
    assert (Eg : gtb (cooldown s) 0 = true) by now apply gtb_true.
    rewrite Eg. cbn [fst set_cooldown cooldown].
    destruct (Math_max_spec 0 (cooldown s - delta * 1000))
      as [[? E]|[? E]]; rewrite E; repeat split; lra.
  - intros rand p now delta -> Hp Hl. subst s'. cbn [step].
    unfold useFrame.
    assert (Ei : isActive s = true) by (apply Ha; rewrite Hp; discriminate).
    rewrite Ei, Hp. cbn [negb].
    assert (Hg : geb (Math_min (inject_Z (now - phaseStartTime s)
                                / inject_Z ESCAPE_DURATION) 1) 1 = true).
    { apply geb_true.
      assert (1 <= inject_Z (now - phaseStartTime s)
                   / inject_Z ESCAPE_DURATION).
      { apply Qle_shift_div_l; [reflexivity|].
        rewrite Qmult_1_l. rewrite <- Zle_Qle. exact Hl. }
      destruct (Math_min_spec (inject_Z (now - phaseStartTime s)
                               / inject_Z ESCAPE_DURATION) 1)
        as [[? E]|[? E]]; rewrite E; lra. }
    rewrite Hg. cbn [fst cooldown phase]. split; reflexivity.
Qed.


(** ** Elimination *)

Lemma trigger_accepted p now s s' ev :
  triggerTeamSpecial p now s = (true, s', ev) ->
  cooldown s <= 0 /\ isActive s = false /\ enemies p <> []
  /\ s' = mkState (cooldown s) true approach (getSpawnPosition p)
            (wingmanRotation s) (attackEffects s) (explosions s)
            (enemies p) now (getAttackPosition p).
Proof.
  unfold triggerTeamSpecial.
  destruct (gtb (cooldown s) 0) eqn:Eg; [discriminate|].
  destruct (isActive s) eqn:Ei; [discriminate|].
  destruct (enemies p) as [|e es] eqn:Ee; [discriminate|].
  cbn [orb List.length Nat.eqb]. intros E; injection E as <- _.
  apply gtb_false in Eg. repeat split; auto. discriminate.
Qed.

(** Throughout an activation the snapshot is the enemy list captured by the
    trigger, the attack pose is the one computed by the trigger, the
    component is active in the approach or attack phase, the approach phase
    still carries the clock reading of the trigger, and the cooldown is not
    positive. *)
Lemma engaged_snapshot `{MathLib} p0 now0 s :
  engaged p0 now0 s ->
  targetEnemies s = enemies p0 /\ isActive s = true
  /\ (phase s = approach \/ phase s = attack) /\ cooldown s <= 0
  /\ attackPosition s = getAttackPosition p0
  /\ (phase s = approach -> phaseStartTime s = now0).
Proof.
  induction 1 as [s s' ev Ht | op s Hs IH Hp].
  - apply trigger_accepted in Ht. destruct Ht as (Hc & _ & _ & ->).
    cbn. repeat split; auto.
  - destruct IH as (Ht & Hi & Hph & Hc & Hat & Hst).
    assert (Eg : gtb (cooldown s) 0 = false) by now apply gtb_false.
    destruct op; cbn [step] in *.
    + unfold triggerTeamSpecial in *. rewrite Hi, orb_true_r in *.
      cbn [orb fst] in *. auto 6.
    + unfold useFrame in *. rewrite Hi, Eg in *. cbn [negb] in *.
      destruct Hph as [Hph | Hph]; rewrite Hph in *.
      * destruct (geb _ 1); cbn in *; repeat split; auto; discriminate.
      * destruct (_ >? _)%Z; cbn in *; [congruence|].
        rewrite Hph. repeat split; auto; discriminate.
    + cbn. repeat split; auto.
    + cbn. repeat split; auto.
    + cbn. repeat split; auto.
    + cbn. repeat split; auto.
Qed.

(** C1. In the activation accepted with a snapshot of N targets, for any
    selected wingman: a frame that enters the escape phase starts from the
    attack phase and calls [onEnemiesDestroyed] exactly once, with the ids
    of the snapshot in snapshot order; this list has N entries, holds the id
    of every target of the snapshot, and holds each of them once when the
    ids of the snapshot are distinct. A frame run in the attack phase more
    than [ATTACK_DURATION] after the phase began does enter the escape
    phase, and a frame of the activation that does not enter it calls no
    callback. *)
Theorem full_elimination `{MathLib} (p0 : Props) (now0 : Z) (s : State)
    (rand : Rand) (p : Props) (now : Z) (delta : Q) :
  engaged p0 now0 s ->
  onEnemiesDestroyed p = true ->
  let snapshot := enemies p0 in
  let s' := fst (useFrame rand p now delta s) in
  let ids := map id snapshot in
  snapshot <> []
  /\ (phase s = attack -> (now - phaseStartTime s > ATTACK_DURATION)%Z ->
      phase s' = escape)
  /\ (phase s' <> escape -> snd (useFrame rand p now delta s) = [])
  /\ (phase s' = escape ->
      phase s = attack
      /\ snd (useFrame rand p now delta s) = [EnemiesDestroyed ids]
      /\ List.length ids = List.length snapshot
      /\ (forall e, In e snapshot -> In (id e) ids)
      /\ (NoDup (map id snapshot) ->
          forall e, In e snapshot -> count_occ string_dec ids (id e) = 1%nat)).
Proof.
  intros He Hcb snapshot s' ids.
  assert (Hne : snapshot <> []).
  { clear - He. induction He as [s s' ev Ht | ]; auto.
    apply trigger_accepted in Ht. destruct Ht as (_ & _ & Hn & _).
    exact Hn. }
  apply engaged_snapshot in He. destruct He as (Ht & Hi & Hph & Hc & _ & _).
  assert (Eg : gtb (cooldown s) 0 = false) by now apply gtb_false.
  split; [exact Hne|]. subst s'. unfold useFrame.
  rewrite Hi, Eg. cbn [negb andb]. split.
  - intros Hp Hel. rewrite Hp.
    apply Z.gt_lt, Z.gtb_lt in Hel. rewrite Hel. reflexivity.
  - split.
    { destruct Hph as [Hph | Hph]; rewrite Hph.
      - destruct (geb _ 1); reflexivity.
      - destruct (_ >? _)%Z; cbn [fst snd phase]; [congruence|reflexivity]. }
    destruct Hph as [Hph | Hph]; rewrite Hph.
    + destruct (geb _ 1); cbn; discriminate.
    + destruct (_ >? _)%Z; cbn [fst snd phase]; [|congruence].
      intros _. rewrite Hcb, Ht. cbn [app]. fold snapshot. fold ids.
      repeat split.
      * subst ids. apply length_map.
      * intros e Hin. subst ids. now apply in_map.
      * intros Hnd e Hin. apply NoDup_count_occ'; [exact Hnd|].
        subst ids. now apply in_map.
Qed.

(** ** Approach *)

Lemma smoothstep_unit t :
  0 <= t <= 1 -> MathUtils.smoothstep t 0 1 == t * t * (3 - 2 * t).
Proof.
  intros [H0 H1]. unfold MathUtils.smoothstep.
  destruct (Qle_bool t 0) eqn:E0.
  - apply Qle_bool_iff in E0. assert (Ht : t == 0) by lra.
    rewrite Ht. reflexivity.
  - destruct (Qle_bool 1 t) eqn:E1.
    + apply Qle_bool_iff in E1. assert (Ht : t == 1) by lra.
      rewrite Ht. reflexivity.
    + cbv zeta. assert (Hd : (t - 0) / (1 - 0) == t) by field.
      rewrite Hd. reflexivity.
Qed.

(** Apart from the rise by [SPAWN_OFFSET_ABOVE], the spawn pose is the
    reference position moved by [SPAWN_OFFSET_BEHIND] times the forward
    vector: it lies on the side the reference pose faces. *)
Lemma getSpawnPosition_along_forward p :
  Vector3.equals
    (Vector3.subVectors (getSpawnPosition p) (playerPosition p))
    (Vector3.add (Vector3.multiplyScalar (playerForward p) 40)
       (Vector3.new 0 15 0)).
Proof.
  unfold Vector3.equals, getSpawnPosition, SPAWN_OFFSET_BEHIND,
    SPAWN_OFFSET_ABOVE. cbn. repeat split; ring.
Qed.

(** C7, as the code has it. An accepted trigger places the unit at the spawn
    pose computed from the reference pose of that moment. Every frame of the
    approach phase computes the spawn pose afresh from the reference pose of
    that frame and sets the unit position to the blend from this spawn pose
    to the attack pose stored at acceptance, at
    [smoothstep(min(elapsed / 1000, 1), 0, 1)] with [elapsed] counted from
    the acceptance; when the reference pose is the one of the acceptance the
    blend starts from the spawn pose of the acceptance. On the unit interval
    [smoothstep] is [t * t * (3 - 2 * t)]: it is 0 at 0 and 1 at 1, and
    within [h] of either endpoint it moves by at most [3 * h * h], so its
    derivative vanishes there. *)
Theorem approach_blend `{MathLib} (rand : Rand) (p0 p : Props)
    (now0 now : Z) (delta : Q) (s : State) :
  engaged p0 now0 s -> phase s = approach ->
  let progress := Math_min (inject_Z (now - now0) / 1000) 1 in
  let s' := fst (useFrame rand p now delta s) in
  (forall s0 s1 ev,
     triggerTeamSpecial p0 now0 s0 = (true, s1, ev) ->
     wingmanPosition s1 = getSpawnPosition p0)
  /\ wingmanPosition s'
     = Vector3.lerpVectors (getSpawnPosition p) (getAttackPosition p0)
         (MathUtils.smoothstep progress 0 1)
  /\ attackPosition s' = getAttackPosition p0
  /\ (playerPosition p = playerPosition p0 ->
      playerForward p = playerForward p0 ->
      getSpawnPosition p = getSpawnPosition p0)
  /\ progress <= 1
  /\ (forall t, 0 <= t <= 1 ->
      MathUtils.smoothstep t 0 1 == t * t * (3 - 2 * t))
  /\ MathUtils.smoothstep 0 0 1 == 0 /\ MathUtils.smoothstep 1 0 1 == 1
  /\ (forall h, 0 <= h <= 1 ->
      0 <= MathUtils.smoothstep h 0 1 - MathUtils.smoothstep 0 0 1
        <= 3 * h * h
      /\ 0 <= MathUtils.smoothstep 1 0 1 - MathUtils.smoothstep (1 - h) 0 1
           <= 3 * h * h).
Proof.
  intros He Hp progress s'.
  apply engaged_snapshot in He.
  destruct He as (_ & Hi & _ & Hc & Hat & Hst). specialize (Hst Hp).
  assert (Eg : gtb (cooldown s) 0 = false) by now apply gtb_false.
  split.
  { intros s0 s1 ev Ht. apply trigger_accepted in Ht.
    destruct Ht as (_ & _ & _ & ->). reflexivity. }
  subst s' progress. unfold useFrame.
  rewrite Hi, Hp, Eg, Hst, Hat. cbn [andb negb].
  set (progress := Math_min (inject_Z (now - now0) / 1000) 1).
  split; [destruct (geb progress 1); reflexivity|].
  split; [destruct (geb progress 1); cbn; now rewrite ?Hat|].
  split.
  { intros Hpp Hf. unfold getSpawnPosition. now rewrite Hpp, Hf. }
  split.
  { subst progress.
    destruct (Math_min_spec (inject_Z (now - now0) / 1000) 1)
      as [[? E]|[? E]]; rewrite E; lra. }
  split; [exact smoothstep_unit|].
  split; [reflexivity|]. split; [reflexivity|].
  intros h Hh.
  rewrite (smoothstep_unit h) by lra.
  rewrite (smoothstep_unit (1 - h)) by lra.
  rewrite (smoothstep_unit 0) by lra.
  rewrite (smoothstep_unit 1) by lra.
  repeat split; nra.
Qed.


(** ** Explosion identifiers and the sweeper *)

Lemma split_from_token sep a rest cur :
  lacks sep a = true ->
  split_from sep (a ++ String sep rest)%string cur
  = (cur ++ a)%string :: split_from sep rest EmptyString.
Proof.
  revert cur. induction a as [|c a IH]; intros cur Hl; simpl in *.
  - rewrite Ascii.eqb_refl. f_equal.
    induction cur; simpl; congruence.
  - apply andb_true_iff in Hl. destruct Hl as [Hc Ha].
    destruct (Ascii.eqb c sep); [discriminate|].
    rewrite IH by exact Ha. f_equal.
    clear. induction cur; simpl; congruence.
Qed.

Lemma string_of_uint_lacks_dash u :
  lacks "-" (NilEmpty.string_of_uint u) = true.
Proof. induction u; simpl; auto. Qed.

Lemma parseDigits_uint u : forall acc rest,
  parseDigits 10 (NilEmpty.string_of_uint u ++ String "-" rest)%string
    (Some acc)
  = Some (uint_value u acc)
  /\ parseDigits 10 (NilEmpty.string_of_uint u) (Some acc)
     = Some (uint_value u acc).
Proof.
  induction u; intros acc rest; simpl;
    try (split; reflexivity); apply IHu.
Qed.

Lemma uint_value_pos u : forall a z,
  z = Zpos a -> uint_value u z = Zpos (Pos.of_uint_acc u a).
Proof.
  induction u; intros a z ->; cbn [uint_value Pos.of_uint_acc];
    try reflexivity; apply IHu; lia.
Qed.

Lemma uint_value_0 u : uint_value u 0 = Z.of_N (Pos.of_uint u).
Proof.
  induction u; simpl; try reflexivity; try exact IHu;
    now apply uint_value_pos.
Qed.

Lemma parseInt_digits u :
  u <> Nil ->
  parseInt (NilEmpty.string_of_uint u) = Some (Z.of_N (Pos.of_uint u)).
Proof.
  intros Hn. rewrite <- uint_value_0.
  destruct u as [|u|u|u|u|u|u|u|u|u|u]; try congruence;
    destruct u; unfold parseInt;
    cbn [NilEmpty.string_of_uint trimStart];
    repeat match goal with
      | |- context [isWhiteSpace ?c] =>
          let v := eval vm_compute in (isWhiteSpace c) in
          change (isWhiteSpace c) with v
      end;
    cbv iota; simpl;
    try reflexivity;
    match goal with
    | |- context [parseDigits 10 (NilEmpty.string_of_uint ?v) (Some ?a)] =>
        rewrite (proj2 (parseDigits_uint v a EmptyString))
    end; reflexivity.
Qed.

(** A whole number at or above zero is read back from its decimal text. *)
Lemma parseInt_toString n :
  (0 <= n)%Z -> parseInt (Number_toString n) = Some n.
Proof.
  intros Hn. unfold Number_toString.
  destruct n as [|q|q]; [reflexivity| |lia].
  cbn [Z.to_int NilEmpty.string_of_int].
  rewrite parseInt_digits by apply Unsigned.to_uint_nonnil.
  now rewrite Unsigned.of_to.
Qed.

Lemma toString_lacks_dash n :
  (0 <= n)%Z -> lacks "-" (Number_toString n) = true.
Proof.
  intros Hn. unfold Number_toString.
  destruct n as [|q|q]; [reflexivity| |lia].
  apply string_of_uint_lacks_dash.
Qed.

(** The second dash-separated token of ["explosion-<n>-<suffix>"]. *)
Lemma explosion_id_token n suffix :
  (0 <= n)%Z ->
  nth_error
    (String_split "-"
       ("explosion-" ++ Number_toString n ++ "-" ++ suffix)%string) 1
  = Some (Number_toString n).
Proof.
  intros Hn. unfold String_split. cbn [append split_from Ascii.eqb Bool.eqb].
  change ("-" ++ suffix)%string with (String "-" suffix).
  rewrite split_from_token by now apply toString_lacks_dash.
  reflexivity.
Qed.

(** C10. An explosion pushed at a clock reading [created] (at or after the
    epoch) by either completion path carries an id whose second
    dash-separated token is the decimal text of [created]; the sweeper reads
    that number back and keeps the explosion exactly when fewer than 600 ms
    separate its own clock reading from [created]. A sweep keeps the
    explosions that pass this test and no others, and the sweeps are due
    100 ms apart. *)
Theorem explosion_sweep (created : Z) :
  (0 <= created)%Z ->
  let fresh e :=
    nth_error (String_split "-" (Explosion.id e)) 1
    = Some (Number_toString created)
    /\ parseInt (Number_toString created) = Some created
    /\ forall now, keepExplosion now e = true <-> (now - created < 600)%Z in
  (forall p seen rnd effectId s e,
     In e (explosions (handleEffectComplete p seen created rnd effectId s)) ->
     In e (explosions s) \/ fresh e)
  /\ (forall i pos s e,
        In e (explosions (lightningExplosion created i pos s)) ->
        In e (explosions s) \/ fresh e)
  /\ (forall now s e,
        In e (explosions (cleanup now s))
        <-> In e (explosions s) /\ keepExplosion now e = true)
  /\ (forall mountedAt k,
        cleanupDue mountedAt (S k) - cleanupDue mountedAt k = 100)%Z.
Proof.
  intros Hc fresh.
  assert (Hfresh : forall suffix pos color,
             fresh {| Explosion.id :=
                        ("explosion-" ++ Number_toString created ++ "-"
                         ++ suffix)%string;
                      Explosion.position := pos;
                      Explosion.color := color |}).
  { intros suffix pos color. unfold fresh. cbn [Explosion.id].
    split; [now apply explosion_id_token|].
    split; [now apply parseInt_toString|].
    intros now. unfold keepExplosion. cbn [Explosion.id].
    rewrite explosion_id_token by exact Hc.
    rewrite parseInt_toString by exact Hc.
    apply Z.ltb_lt. }
  split; [|split; [|split]].
  - intros p seen rnd effectId s e. unfold handleEffectComplete.
    cbn [explosions set_explosions].
    destruct (find _ _) as [eff|]; [|now left].
    destruct (effect_targetPosition eff) as [target|]; [|now left].
    intros Hin. apply in_app_or in Hin.
    destruct Hin as [Hin | [<- | []]]; [now left|right]. apply Hfresh.
  - intros i pos s e. unfold lightningExplosion.
    cbn [explosions set_explosions].
    intros Hin. apply in_app_or in Hin.
    destruct Hin as [Hin | [<- | []]]; [now left|right]. apply Hfresh.
  - intros now s e. unfold cleanup. cbn [explosions set_explosions].
    apply filter_In.
  - intros mountedAt k. unfold cleanupDue, CLEANUP_INTERVAL. lia.
Qed.

(** ** Loops of the generator *)


Lemma forEach_Forall {A B} (P : B -> Prop) (f : A -> nat -> Rnd (list B)) :
  (forall a i k, Forall P (fst (f a i k))) ->
  forall l i k, Forall P (fst (forEach f l i k)).
Proof.
  intros Hf l; induction l as [|a l IH]; intros i k; cbn [forEach].
  - constructor.
  - unfold bind, ret. specialize (Hf a i k).
    destruct (f a i k) as [pushed k1]. specialize (IH (S i) k1).
    destruct (forEach f l (S i) k1) as [rest k2]. cbn [fst] in *.
    apply Forall_app. now split.
Qed.

Lemma for_loop_Forall {B} (P : B -> Prop) (body : nat -> Rnd (list B)) :
  (forall j k, Forall P (fst (body j k))) ->
  forall n j k, Forall P (fst (for_loop n j body k)).
Proof.
  intros Hb n; induction n as [|n IH]; intros j k; cbn [for_loop].
  - constructor.
  - unfold bind, ret. specialize (Hb j k).
    destruct (body j k) as [pushed k1]. specialize (IH (S j) k1).
    destruct (for_loop n (S j) body k1) as [rest k2]. cbn [fst] in *.
    apply Forall_app. now split.
Qed.

(** ** Completion signals *)




(** The completion handler removes from the live set the instances with the
    given id and no others. *)
Lemma handleEffectComplete_removes p seen now rnd effectId s e :
  In e (attackEffects (handleEffectComplete p seen now rnd effectId s))
  <-> In e (attackEffects s) /\ effect_id e <> effectId.
Proof.
  unfold handleEffectComplete. cbn [attackEffects set_explosions
    set_attackEffects]. rewrite filter_In.
  destruct (String.eqb_spec (effect_id e) effectId) as [E|E]; cbn;
    intuition congruence.
Qed.

(** ** Instances on concrete inputs *)

Lemma sampleAccepted_engaged :
  engaged (sampleProps origin 0 sampleEnemies) 0 sampleAccepted.
Proof.
  apply (engaged_accept _ _ initialState sampleAccepted
           [Activated 0 (Some "FALCO")]).
  reflexivity.
Defined.

Lemma sampleAttacking_engaged :
  engaged (sampleProps origin 0 sampleEnemies) 0 sampleAttacking.
Proof.
  apply engaged_step; [exact sampleAccepted_engaged|].
  vm_compute. discriminate.
Defined.

Lemma full_elimination_witness :
  snd (useFrame noJitter (sampleProps origin 0 sampleEnemies) 3001 (1 # 60)
         sampleAttacking)
  = [EnemiesDestroyed ["enemy-1"; "enemy-2"]].
Proof.
  destruct (full_elimination (sampleProps origin 0 sampleEnemies) 0
              sampleAttacking noJitter
              (sampleProps origin 0 sampleEnemies) 3001 (1 # 60)
              sampleAttacking_engaged eq_refl) as (_ & _ & _ & Hx).
  destruct Hx as (_ & Hev & _); [vm_compute; reflexivity|].
  exact Hev.
Defined.

Lemma idempotent_rejection_witness :
  triggerTeamSpecial (sampleProps origin 0 sampleEnemies) 5
    (stateAfter (sampleRun (sampleProps origin 0 sampleEnemies) 100 3))
  = (false, stateAfter (sampleRun (sampleProps origin 0 sampleEnemies) 100 3),
     [])
  /\ 0 < cooldown
           (stateAfter (sampleRun (sampleProps origin 0 sampleEnemies) 100 46))
  /\ fst (fst (triggerTeamSpecial (sampleProps origin 0 sampleEnemies) 4700
                 (stateAfter
                    (sampleRun (sampleProps origin 0 sampleEnemies) 100 46))))
     = false.
Proof.
  split; [|split].
  - apply (idempotent_rejection
             (sampleRun (sampleProps origin 0 sampleEnemies) 100 3)).
    left. vm_compute. discriminate.
  - vm_compute. reflexivity.
  - rewrite (idempotent_rejection
               (sampleRun (sampleProps origin 0 sampleEnemies) 100 46)).
    + reflexivity.
    + right; left. vm_compute. reflexivity.
Defined.

Lemma cooldown_monotonicity_witness :
  0 < cooldown
        (stateAfter (sampleRun (sampleProps origin 0 sampleEnemies) 100 46))
  /\ cooldown
       (fst (step (Frame noJitter (sampleProps origin 0 sampleEnemies) 4700
                     (1 # 10))
               (stateAfter
                  (sampleRun (sampleProps origin 0 sampleEnemies) 100 46))))
     < cooldown
         (stateAfter (sampleRun (sampleProps origin 0 sampleEnemies) 100 46)).
Proof.
  pose proof (cooldown_monotonicity
                (sampleRun (sampleProps origin 0 sampleEnemies) 100 46)
                (Frame noJitter (sampleProps origin 0 sampleEnemies) 4700
                   (1 # 10))) as (_ & Hdec & _).
  split; [vm_compute; reflexivity|].
  apply (Hdec noJitter (sampleProps origin 0 sampleEnemies) 4700%Z (1 # 10));
    [reflexivity | reflexivity | vm_compute; reflexivity].
Defined.

Lemma approach_blend_witness :
  wingmanPosition
    (fst (useFrame noJitter (sampleProps origin 0 sampleEnemies) 500
            (1 # 60) sampleAccepted))
  = Vector3.lerpVectors
      (getSpawnPosition (sampleProps origin 0 sampleEnemies))
      (getAttackPosition (sampleProps origin 0 sampleEnemies))
      (MathUtils.smoothstep (Math_min (inject_Z (500 - 0) / 1000) 1) 0 1).
Proof.
  apply (approach_blend noJitter (sampleProps origin 0 sampleEnemies)
           (sampleProps origin 0 sampleEnemies) 0 500 (1 # 60)
           sampleAccepted sampleAccepted_engaged).
  reflexivity.
Defined.

Lemma chained_arc_descriptor_witness :
  exists sortedPositions,
    generateEffects noJitter 2 sampleEnemies (Vector3.new 5 2 0)
    = [lightning "lightning-chain" (Vector3.new 5 2 0 :: sortedPositions)
         0%Z LIGHTNING_CHAIN_DURATION]
    /\ LIGHTNING_CHAIN_DURATION = 600%Z
    /\ Permutation (map position sampleEnemies) sortedPositions
    /\ StronglySorted
         (fun p q => Vector3.distanceTo (Vector3.new 5 2 0) p
                     <= Vector3.distanceTo (Vector3.new 5 2 0) q)
         sortedPositions.
Proof.
  apply (chained_arc_descriptor noJitter sampleEnemies (Vector3.new 5 2 0)).
  discriminate.
Defined.

Lemma attack_pose_offset_witness :
  attackPosition sampleAccepted = Vector3.new (0 + 5) (0 + 2) 0.
Proof.
  apply (attack_pose_offset (sampleProps origin 0 sampleEnemies) 0
           initialState sampleAccepted
           [Activated 0 (Some "FALCO")]).
  reflexivity.
Defined.

Lemma explosion_sweep_witness :
  keepExplosion 1730000000500
    {| Explosion.id := "explosion-1730000000000-0.25";
       Explosion.position := origin;
       Explosion.color := Some "#ff4444" |} = true
  <-> (1730000000500 - 1730000000000 < 600)%Z.
Proof.
  destruct (explosion_sweep 1730000000000 ltac:(lia)) as (Hh & _).
  destruct (Hh (sampleProps origin 0 sampleEnemies)
              [beam "beam-0" origin origin 0 100] "0.25" "beam-0"
              (set_attackEffects
                 [beam "beam-0" origin origin 0 100] initialState)
              {| Explosion.id := "explosion-1730000000000-0.25";
                 Explosion.position := origin;
                 Explosion.color := Some "#ff4444" |})
    as [[] | (_ & _ & Hk)].
  - vm_compute. left. reflexivity.
  - apply Hk.
Defined.

(** ** Where the code departs from the stated claims *)

(** C7 as stated fails. The trigger is accepted with the player at the
    origin; by the frame 500 ms later the player has moved to x = 10. The
    unit is then placed on the blend that starts from the spawn pose of the
    moved player, not from the spawn pose computed at acceptance. *)
Lemma approach_spawn_recomputed :
  fst (fst (triggerTeamSpecial (sampleProps origin 0 sampleEnemies) 0
              initialState)) = true
  /\ phase sampleAccepted = approach
  /\ wingmanPosition sampleAccepted
     = getSpawnPosition (sampleProps origin 0 sampleEnemies)
  /\ ~ Vector3.equals
         (wingmanPosition
            (fst (useFrame noJitter
                    (sampleProps (Vector3.new 10 0 0) 0 sampleEnemies)
                    500 (1 # 60) sampleAccepted)))
         (Vector3.lerpVectors
            (getSpawnPosition (sampleProps origin 0 sampleEnemies))
            (attackPosition sampleAccepted)
            (MathUtils.smoothstep
               (Math_min (inject_Z (500 - 0) / 1000) 1) 0 1)).
Proof.
  split; [reflexivity|]. split; [reflexivity|]. split; [reflexivity|].
  intros [Hx _]. vm_compute in Hx. discriminate.
Qed.


(** * Further properties *)

(** Closed comparisons of numbers are settled by evaluation. *)
Ltac evaluate := vm_compute; first [reflexivity | discriminate].

(** ** The state machine *)

Lemma progress_full (window elapsed : Z) :
  (0 < window)%Z -> (window <= elapsed)%Z ->
  geb (Math_min (inject_Z elapsed / inject_Z window) 1) 1 = true.
Proof.
  intros Hw He. apply geb_true.
  assert (1 <= inject_Z elapsed / inject_Z window).
  { apply Qle_shift_div_l; [now rewrite <- (Zlt_Qlt 0)|].
    rewrite Qmult_1_l, <- Zle_Qle. exact He. }
  destruct (Math_min_spec (inject_Z elapsed / inject_Z window) 1)
    as [[? E]|[? E]]; rewrite E; lra.
Qed.

Lemma progress_partial (window elapsed : Z) :
  (0 < window)%Z -> (elapsed < window)%Z ->
  geb (Math_min (inject_Z elapsed / inject_Z window) 1) 1 = false.
Proof.
  intros Hw He.
  assert (Hlt : inject_Z elapsed / inject_Z window < 1).
  { apply Qlt_shift_div_r; [now rewrite <- (Zlt_Qlt 0)|].
    rewrite Qmult_1_l, <- Zlt_Qlt. exact He. }
  destruct (geb _ 1) eqn:E; [|reflexivity].
  apply geb_true in E.
  destruct (Math_min_spec (inject_Z elapsed / inject_Z window) 1)
    as [[? E']|[? E']]; rewrite E' in E; lra.
Qed.

(** X1. After any history the trigger is accepted exactly when the phase is
    idle, the cooldown is zero and the enemy list is not empty; an accepted
    call activates the component in the approach phase at the spawn pose,
    stores the enemy list as the snapshot and the clock reading as the phase
    start, leaves cooldown, effects and explosions as they were, and calls
    [onActivate], when supplied, once with the selected index and its name. *)
Theorem trigger_accepts_iff `{MathLib} (history : list Op) (p : Props)
    (now : Z) :
  let s := stateAfter history in
  let ok := fst (fst (triggerTeamSpecial p now s)) in
  let s' := snd (fst (triggerTeamSpecial p now s)) in
  (ok = true <-> phase s = idle /\ cooldown s == 0 /\ enemies p <> [])
  /\ (ok = true ->
      s' = mkState (cooldown s) true approach (getSpawnPosition p)
             (wingmanRotation s) (attackEffects s) (explosions s)
             (enemies p) now (getAttackPosition p)
      /\ snd (triggerTeamSpecial p now s)
         = if onActivate p
           then [Activated (selectedWingman p)
                   (item WINGMAN_NAMES (selectedWingman p))]
           else []).
Proof.
  intros s ok s'. subst ok s'.
  destruct (stateAfter_consistent history) as (Ha & Hc & Hz).
  fold s in Ha, Hc, Hz.
  unfold triggerTeamSpecial.
  destruct (gtb (cooldown s) 0) eqn:Eg; cbn [orb fst snd].
  - apply gtb_true in Eg. split; [|discriminate].
    split; [discriminate|]. intros (_ & E & _). lra.
  - apply gtb_false in Eg.
    destruct (isActive s) eqn:Ei; cbn [orb fst snd].
    + split; [|discriminate]. split; [discriminate|].
      intros (E & _). exfalso. now apply (proj1 Ha).
    + assert (Hp : phase s = idle).
      { destruct (phase s) eqn:Ep; [reflexivity| | |];
          exfalso; assert (false = true) by (apply Ha; discriminate);
          discriminate. }
      destruct (enemies p) as [|e es]; cbn [List.length Nat.eqb fst snd].
      * split; [|discriminate]. split; [discriminate|].
        intros (_ & _ & E). now elim E.
      * split; [|intros _; split; reflexivity].
        split; [intros _|reflexivity].
        split; [exact Hp|]. split; [lra|discriminate].
Qed.

(** X2. After any history, one more operation either leaves the phase as it
    is or moves it one step along the cycle idle, approach, attack, escape,
    idle; the step out of idle is taken by the trigger and the other three by
    a frame. *)
Theorem phase_order `{MathLib} (history : list Op) (op : Op) :
  let s := stateAfter history in
  let s' := fst (step op s) in
  phase s' = phase s
  \/ (phase s = idle /\ phase s' = approach
      /\ exists p now, op = Trigger p now)
  \/ (isFrame op = true
      /\ ((phase s = approach /\ phase s' = attack)
          \/ (phase s = attack /\ phase s' = escape)
          \/ (phase s = escape /\ phase s' = idle))).
Proof.
  intros s s'. subst s'.
  destruct (stateAfter_consistent history) as (Ha & Hc & Hz).
  fold s in Ha, Hc, Hz.
  destruct op; cbn [step isFrame].
  - unfold triggerTeamSpecial.
    destruct (gtb (cooldown s) 0); cbn [orb fst]; [now left|].
    destruct (isActive s) eqn:Ei; cbn [orb fst]; [now left|].
    destruct (_ =? _)%nat; cbn [fst phase]; [now left|].
    right; left. split; [|split; [reflexivity|now exists p, now]].
    destruct (phase s) eqn:Ep; [reflexivity| | |];
      exfalso; assert (false = true) by (apply Ha; discriminate);
      discriminate.
  - unfold useFrame.
    destruct (isActive s) eqn:Ei; cbn [negb].
    + destruct (gtb (cooldown s) 0); destruct (phase s) eqn:Ep;
        try (left; cbn; now rewrite ?Ep);
        try (destruct (geb _ 1); cbn [fst executeAttack phase set_cooldown];
             rewrite ?Ep; auto 7);
        try (destruct (_ >? _)%Z; cbn [fst phase set_cooldown];
             rewrite ?Ep; auto 7).
    + left. destruct (gtb (cooldown s) 0); reflexivity.
  - now left.
  - now left.
  - now left.
  - now left.
Qed.

(** X3. An accepted trigger followed by a frame at least 1000 ms later, a
    frame more than [ATTACK_DURATION] after that one and a frame at least
    [ESCAPE_DURATION] after the second closes the cycle: the three frames
    enter the attack, escape and idle phases; the second reports the ids of
    the enemies captured by the trigger; at the end the component is
    inactive with no targets and no tracked effect, the explosions are those
    it started with, the cooldown is the configured maximum, and a trigger
    is turned down whatever its arguments. *)
Theorem activation_cycle `{MathLib} (p0 : Props) (now0 : Z) (s0 s1 : State)
    (ev0 : list Event) (r1 r2 r3 : Rand) (p1 p2 p3 : Props) (t1 t2 t3 : Z)
    (d1 d2 d3 : Q) :
  triggerTeamSpecial p0 now0 s0 = (true, s1, ev0) ->
  (1000 <= t1 - now0)%Z ->
  (ATTACK_DURATION < t2 - t1)%Z ->
  (ESCAPE_DURATION <= t3 - t2)%Z ->
  let s2 := fst (useFrame r1 p1 t1 d1 s1) in
  let s3 := fst (useFrame r2 p2 t2 d2 s2) in
  let s4 := fst (useFrame r3 p3 t3 d3 s3) in
  phase s2 = attack /\ phase s3 = escape /\ phase s4 = idle
  /\ snd (useFrame r2 p2 t2 d2 s2)
     = (if onEnemiesDestroyed p2
        then [EnemiesDestroyed (map id (enemies p0))] else [])
  /\ isActive s4 = false /\ targetEnemies s4 = [] /\ attackEffects s4 = []
  /\ explosions s4 = explosions s0
  /\ cooldown s4 = TEAM_SPECIAL_COOLDOWN
  /\ forall p now, fst (fst (triggerTeamSpecial p now s4)) = false.
Proof.
  intros Ht H1 H2 H3.
  apply trigger_accepted in Ht. destruct Ht as (Hc & _ & _ & ->).
  assert (Eg : gtb (cooldown s0) 0 = false) by now apply gtb_false.
  pose proof (progress_full 1000 (t1 - now0) eq_refl H1) as G1.
  change (inject_Z 1000) with (1000 : Q) in G1.
  pose proof (progress_full ESCAPE_DURATION (t3 - t2) eq_refl H3) as G3.
  apply Z.gtb_lt in H2.
  intros s2.
  assert (E2 : exists pos rot,
             s2 = mkState (cooldown s0) true attack pos rot
                    (generateEffects r1 (selectedWingman p1) (enemies p0)
                       (getAttackPosition p0))
                    (explosions s0) (enemies p0) t1 (getAttackPosition p0)).
  { subst s2. unfold useFrame.
    cbn [cooldown isActive phase phaseStartTime negb attackPosition].
    rewrite Eg, G1. cbn [fst executeAttack]. eexists _, _. reflexivity. }
  destruct E2 as (pos & rot & E2). clearbody s2. subst s2.
  intros s3.
  assert (E3 : s3 = mkState (cooldown s0) true escape pos rot
                    (generateEffects r1 (selectedWingman p1) (enemies p0)
                       (getAttackPosition p0))
                    (explosions s0) (enemies p0) t2 (getAttackPosition p0)
               /\ snd (useFrame r2 p2 t2 d2
                         (mkState (cooldown s0) true attack pos rot
                            (generateEffects r1 (selectedWingman p1)
                               (enemies p0) (getAttackPosition p0))
                            (explosions s0) (enemies p0) t1
                            (getAttackPosition p0)))
                  = (if onEnemiesDestroyed p2
                     then [EnemiesDestroyed (map id (enemies p0))] else [])).
  { subst s3. unfold useFrame.
    cbn [cooldown isActive phase phaseStartTime negb attackPosition].
    rewrite Eg, H2. cbn [fst snd andb List.app targetEnemies].
    split; reflexivity. }
  destruct E3 as (E3 & Hev). clearbody s3. subst s3.
  intros s4.
  assert (E4 : exists pos' rot',
             s4 = mkState TEAM_SPECIAL_COOLDOWN false idle pos' rot' []
                    (explosions s0) [] t2 (getAttackPosition p0)).
  { subst s4. unfold useFrame.
    cbn [cooldown isActive phase phaseStartTime negb attackPosition].
    rewrite Eg, G3. cbn [fst explosions]. eexists _, _. reflexivity. }
  destruct E4 as (pos' & rot' & E4). clearbody s4. subst s4.
  cbn [phase isActive targetEnemies attackEffects explosions cooldown].
  repeat split; try reflexivity. exact Hev.
Qed.

Lemma run_cons_fst `{MathLib} (op : Op) (ops : list Op) (s : State) :
  fst (run (op :: ops) s) = fst (run ops (fst (step op s))).
Proof.
  cbn [run]. destruct (step op s) as [s1 ev1]. cbn [fst].
  destruct (run ops s1) as [s2 ev2]. reflexivity.
Qed.

Lemma run_app_fst `{MathLib} (ops1 ops2 : list Op) (s : State) :
  fst (run (ops1 ++ ops2) s) = fst (run ops2 (fst (run ops1 s))).
Proof.
  revert s. induction ops1 as [|op ops1 IH]; intros s; [reflexivity|].
  rewrite <- app_comm_cons, !run_cons_fst. apply IH.
Qed.

Lemma idle_frames_cooldown `{MathLib} (ops : list Op) :
  Forall (fun op => isFrame op = true /\ 0 <= frameDelta op) ops ->
  forall s, isActive s = false -> 0 <= cooldown s ->
    let s' := fst (run ops s) in
    isActive s' = false /\ phase s' = phase s
    /\ 0 <= totalDelta ops
    /\ cooldown s' == Math_max 0 (cooldown s - 1000 * totalDelta ops).
Proof.
  induction 1 as [|op ops [Hf Hd] _ IH]; intros s Hi Hc.
  - cbv zeta. cbn [run fst totalDelta fold_right].
    repeat split; auto; try lra.
    destruct (Math_max_spec 0 (cooldown s - 1000 * 0)) as [[? E]|[? E]];
      rewrite E; lra.
  - cbv zeta. rewrite run_cons_fst.
    destruct op; try discriminate. cbn [frameDelta] in Hd.
    cbn [step totalDelta fold_right frameDelta].
    fold (totalDelta ops).
    set (s1 := fst (useFrame rand p now delta s)).
    assert (H1 : isActive s1 = false /\ phase s1 = phase s
                 /\ 0 <= cooldown s1
                 /\ cooldown s1 == Math_max 0 (cooldown s - 1000 * delta)).
    { subst s1. unfold useFrame. rewrite Hi. cbn [negb].
      destruct (gtb (cooldown s) 0) eqn:Eg;
        cbn [fst set_cooldown isActive phase cooldown].
      - apply gtb_true in Eg.
        destruct (Math_max_spec 0 (cooldown s - delta * 1000))
          as [[? E]|[? E]];
        destruct (Math_max_spec 0 (cooldown s - 1000 * delta))
          as [[? E']|[? E']]; rewrite E, E'; repeat split; auto; lra.
      - apply gtb_false in Eg.
        destruct (Math_max_spec 0 (cooldown s - 1000 * delta))
          as [[? E']|[? E']]; rewrite E'; repeat split; auto; lra. }
    destruct H1 as (Hi1 & Hp1 & Hc1 & He1).
    destruct (IH s1 Hi1 Hc1) as (Hi2 & Hp2 & Ht & He2).
    repeat split; auto; try congruence; try lra.
    rewrite He2.
    destruct (Math_max_spec 0 (cooldown s1 - 1000 * totalDelta ops))
      as [[? E]|[? E]];
    destruct (Math_max_spec 0 (cooldown s - 1000 * delta))
      as [[? E1]|[? E1]];
    destruct (Math_max_spec 0 (cooldown s - 1000 * (delta + totalDelta ops)))
      as [[? E2]|[? E2]]; rewrite E, E2; rewrite E1 in He1; lra.
Qed.

(** X4. Frames rendered while the component is idle, with frame times that
    are not negative, count the cooldown down by 1000 per second of frame
    time and stop it at zero: after them the cooldown equals
    [max(0, cooldown - 1000 * total frame time)] and the phase is still
    idle; once the frame times add up to the cooldown the trigger is
    accepted again for any non-empty enemy list. *)
Theorem cooldown_runs_down `{MathLib} (history frames : list Op) :
  phase (stateAfter history) = idle ->
  Forall (fun op => isFrame op = true /\ 0 <= frameDelta op) frames ->
  let s := stateAfter history in
  let s' := stateAfter (history ++ frames) in
  phase s' = idle
  /\ cooldown s' == Math_max 0 (cooldown s - 1000 * totalDelta frames)
  /\ (cooldown s <= 1000 * totalDelta frames ->
      forall p now, enemies p <> [] ->
        fst (fst (triggerTeamSpecial p now s')) = true).
Proof.
  intros Hp Hf s s'.
  destruct (stateAfter_consistent history) as (Ha & Hc & _).
  fold s in Ha, Hc, Hp.
  assert (Hi : isActive s = false).
  { destruct (isActive s); [|reflexivity].
    exfalso. now apply (proj1 Ha). }
  destruct (idle_frames_cooldown frames Hf s Hi Hc) as (Hi' & Hp' & Ht & He).
  assert (Es : s' = fst (run frames s)).
  { subst s s'. unfold stateAfter. apply run_app_fst. }
  rewrite <- Es in Hi', Hp', He.
  split; [congruence|]. split; [exact He|].
  intros Hle p now Hne. unfold triggerTeamSpecial.
  assert (Eg : gtb (cooldown s') 0 = false).
  { apply gtb_false. rewrite He.
    destruct (Math_max_spec 0 (cooldown s - 1000 * totalDelta frames))
      as [[? E]|[? E]]; rewrite E; lra. }
  rewrite Eg, Hi'. destruct (enemies p); [now elim Hne|reflexivity].
Qed.

(** X5. With [onCooldownUpdate] supplied, a frame run after any history
    calls it exactly when the cooldown it finds is positive, and then once,
    with the value the frame commits and the configured maximum; a frame
    that finds the cooldown at zero does not call it. *)
Theorem cooldown_update_event `{MathLib} (history : list Op) (rand : Rand)
    (p : Props) (now : Z) (delta : Q) :
  onCooldownUpdate p = true ->
  let s := stateAfter history in
  let s' := fst (useFrame rand p now delta s) in
  let events := snd (useFrame rand p now delta s) in
  (0 < cooldown s ->
   events = [CooldownUpdate (cooldown s') TEAM_SPECIAL_COOLDOWN]
   /\ cooldown s' = Math_max 0 (cooldown s - delta * 1000))
  /\ (cooldown s <= 0 ->
      forall current max, ~ In (CooldownUpdate current max) events).
Proof.
  intros Hcb s s' events. subst s' events.
  destruct (stateAfter_consistent history) as (Ha & Hc & Hz).
  fold s in Ha, Hc, Hz. unfold useFrame. rewrite Hcb. split.
  - intros Hpos.
    assert (Ei : isActive s = false).
    { destruct (isActive s); [|reflexivity].
      assert (cooldown s <= 0) by auto. lra. }
    assert (Eg : gtb (cooldown s) 0 = true) by now apply gtb_true.
    rewrite Ei, Eg. cbn. split; reflexivity.
  - intros Hle current max.
    assert (Eg : gtb (cooldown s) 0 = false) by now apply gtb_false.
    rewrite Eg. cbn [andb].
    destruct (isActive s); cbn [negb]; [|intros []].
    destruct (phase s); try (intros []).
    + destruct (geb _ 1); intros [].
    + destruct (_ >? _)%Z; cbn [snd List.app]; [|intros []].
      destruct (onEnemiesDestroyed p); [|intros []].
      intros [C|[]]. discriminate.
    + destruct (geb _ 1); intros [].
Qed.

Lemma step_cooldown_bounded `{MathLib} (op : Op) (s : State) :
  0 <= frameDelta op ->
  consistent s -> cooldown s <= TEAM_SPECIAL_COOLDOWN ->
  cooldown (fst (step op s)) <= TEAM_SPECIAL_COOLDOWN.
Proof.
  intros Hd (Ha & Hc & Hz) Hm. destruct op; cbn [step frameDelta] in *.
  - unfold triggerTeamSpecial. destruct (_ || _ || _); cbn; exact Hm.
  - unfold useFrame.
    assert (Hn : Math_max 0 (cooldown s - delta * 1000)
                 <= TEAM_SPECIAL_COOLDOWN).
    { destruct (Math_max_spec 0 (cooldown s - delta * 1000))
        as [[? E]|[? E]]; rewrite E; [lra|]. now compute. }
    assert (Hs1 : cooldown (if gtb (cooldown s) 0
                            then set_cooldown
                                   (Math_max 0 (cooldown s - delta * 1000)) s
                            else s) <= TEAM_SPECIAL_COOLDOWN).
    { destruct (gtb (cooldown s) 0); cbn [set_cooldown cooldown]; auto. }
    destruct (isActive s); cbn [negb]; [|exact Hs1].
    destruct (phase s); [exact Hs1| | |].
    + destruct (geb _ 1); cbn [fst executeAttack cooldown]; exact Hs1.
    + destruct (_ >? _)%Z; cbn [fst cooldown]; exact Hs1.
    + destruct (geb _ 1); cbn [fst cooldown]; [apply Qle_refl|exact Hs1].
  - exact Hm.
  - exact Hm.
  - exact Hm.
  - exact Hm.
Qed.

(** X6. After any history whose frame times are not negative the cooldown
    lies between zero and the configured maximum of 45000 ms. *)
Theorem cooldown_bounded `{MathLib} (history : list Op) :
  Forall (fun op => 0 <= frameDelta op) history ->
  0 <= cooldown (stateAfter history) <= TEAM_SPECIAL_COOLDOWN.
Proof.
  intros Hf. split; [apply stateAfter_consistent|].
  unfold stateAfter.
  assert (G : forall s, consistent s -> cooldown s <= TEAM_SPECIAL_COOLDOWN ->
                cooldown (fst (run history s)) <= TEAM_SPECIAL_COOLDOWN).
  { induction Hf as [|op ops Hd _ IH]; intros s Hs Hm; [exact Hm|].
    rewrite run_cons_fst. apply IH.
    - now apply step_consistent.
    - now apply step_cooldown_bounded. }
  apply G; [apply initial_consistent|now compute].
Qed.

Lemma progress_bounds (window elapsed : Z) :
  (0 < window)%Z -> (0 <= elapsed)%Z ->
  0 <= Math_min (inject_Z elapsed / inject_Z window) 1 <= 1.
Proof.
  intros Hw He.
  assert (0 <= inject_Z elapsed / inject_Z window).
  { apply Qle_shift_div_l; [now rewrite <- (Zlt_Qlt 0)|].
    rewrite Qmult_0_l, <- (Zle_Qle 0). exact He. }
  destruct (Math_min_spec (inject_Z elapsed / inject_Z window) 1)
    as [[? E]|[? E]]; rewrite E; lra.
Qed.

Lemma progress_mono (window e1 e2 : Z) :
  (0 < window)%Z -> (e1 <= e2)%Z ->
  Math_min (inject_Z e1 / inject_Z window) 1
  <= Math_min (inject_Z e2 / inject_Z window) 1.
Proof.
  intros Hw He.
  assert (inject_Z e1 / inject_Z window <= inject_Z e2 / inject_Z window).
  { apply Qmult_le_compat_r; [now rewrite <- Zle_Qle|].
    apply Qinv_le_0_compat. rewrite <- (Zle_Qle 0). lia. }
  destruct (Math_min_spec (inject_Z e1 / inject_Z window) 1)
    as [[? E]|[? E]];
  destruct (Math_min_spec (inject_Z e2 / inject_Z window) 1)
    as [[? E']|[? E']]; rewrite E, E'; lra.
Qed.

(** X7. In the escape phase a frame puts the unit on the straight line that
    leaves the attack pose with a rise of 50 and a run of 30: x stays that
    of the attack pose, y and z lie between the attack pose and the attack
    pose plus (50, 30) in the ratio 5 to 3, and the pitch is the fixed climb
    angle. The phase ends exactly when [ESCAPE_DURATION] has passed, with
    the unit at the far end of the line; until then a later frame never puts
    the unit lower or further back than an earlier one. *)
Theorem escape_climb `{MathLib} (s : State) (r1 r2 : Rand) (p1 p2 : Props)
    (now1 now2 : Z) (d1 d2 : Q) :
  isActive s = true -> phase s = escape ->
  (phaseStartTime s <= now1 <= now2)%Z ->
  let s1 := fst (useFrame r1 p1 now1 d1 s) in
  let s2 := fst (useFrame r2 p2 now2 d2 s1) in
  let a := attackPosition s in
  let w1 := wingmanPosition s1 in
  let w2 := wingmanPosition s2 in
  Vector3.x w1 = Vector3.x a
  /\ Vector3.y a <= Vector3.y w1 <= Vector3.y a + 50
  /\ Vector3.z a <= Vector3.z w1 <= Vector3.z a + 30
  /\ 3 * (Vector3.y w1 - Vector3.y a) == 5 * (Vector3.z w1 - Vector3.z a)
  /\ wingmanRotation s1 = (radians (- ESCAPE_CLIMB_ANGLE), Math_PI, radians 0)
  /\ (phase s1 = idle <-> (ESCAPE_DURATION <= now1 - phaseStartTime s)%Z)
  /\ (phase s1 = idle ->
      Vector3.y w1 == Vector3.y a + 50 /\ Vector3.z w1 == Vector3.z a + 30)
  /\ (phase s1 = escape ->
      Vector3.x w2 = Vector3.x a
      /\ Vector3.y w1 <= Vector3.y w2 /\ Vector3.z w1 <= Vector3.z w2).
Proof.
  intros Hi Hp Hn s1 s2 a w1 w2.
  set (e1 := Math_min (inject_Z (now1 - phaseStartTime s)
                       / inject_Z ESCAPE_DURATION) 1).
  set (e2 := Math_min (inject_Z (now2 - phaseStartTime s)
                       / inject_Z ESCAPE_DURATION) 1).
  assert (B1 : 0 <= e1 <= 1) by (apply progress_bounds; [reflexivity|lia]).
  assert (M : e1 <= e2) by (apply progress_mono; [reflexivity|lia]).
  assert (E1 : wingmanPosition s1
               = Vector3.new (Vector3.x a) (Vector3.y a + e1 * 50)
                   (Vector3.z a + e1 * 30)
               /\ wingmanRotation s1
                  = (radians (- ESCAPE_CLIMB_ANGLE), Math_PI, radians 0)
               /\ (geb e1 1 = true -> phase s1 = idle)
               /\ (geb e1 1 = false ->
                   phase s1 = escape /\ isActive s1 = true
                   /\ phaseStartTime s1 = phaseStartTime s
                   /\ attackPosition s1 = a)).
  { subst s1. unfold useFrame. rewrite Hi, Hp. cbn [negb]. fold e1.
    destruct (geb e1 1);
      destruct (gtb (cooldown s) 0);
      cbn [fst wingmanPosition wingmanRotation phase isActive
             phaseStartTime attackPosition set_cooldown];
      repeat split; auto; discriminate. }
  destruct E1 as (Ew & Er & Hx & Hs).
  assert (Hiff : geb e1 1 = true
                 <-> (ESCAPE_DURATION <= now1 - phaseStartTime s)%Z).
  { split; intros Hg.
    - destruct (Z_le_gt_dec ESCAPE_DURATION (now1 - phaseStartTime s))
        as [Hle|Hgt]; [exact Hle|].
      assert (F : geb e1 1 = false)
        by (apply progress_partial; [reflexivity|lia]).
      congruence.
    - apply progress_full; [reflexivity|exact Hg]. }
  subst w1. rewrite Ew. cbn [Vector3.x Vector3.y Vector3.z].
  split; [reflexivity|]. split; [lra|]. split; [lra|].
  split; [ring|]. split; [exact Er|].
  split; [|split].
  - rewrite <- Hiff. destruct (geb e1 1) eqn:Eg.
    + split; auto.
    + destruct (Hs eq_refl) as (Hp1 & _). rewrite Hp1.
      split; discriminate.
  - intros Hidle. assert (Eg : geb e1 1 = true).
    { destruct (geb e1 1) eqn:Eg; [reflexivity|].
      destruct (Hs eq_refl) as (Hp1 & _). congruence. }
    apply geb_true in Eg. assert (Ee : e1 == 1) by lra.
    rewrite Ee. split; ring.
  - intros Hesc. assert (Eg : geb e1 1 = false).
    { destruct (geb e1 1) eqn:Eg; [|reflexivity].
      rewrite (Hx eq_refl) in Hesc. discriminate. }
    destruct (Hs Eg) as (Hp1 & Hi1 & Ht1 & Ha1).
    assert (E2 : w2 = Vector3.new (Vector3.x a) (Vector3.y a + e2 * 50)
                        (Vector3.z a + e2 * 30)).
    { subst w2 s2. unfold useFrame at 1. rewrite Hi1, Hp1, Ht1, Ha1.
      cbn [negb]. fold e2.
      destruct (geb e2 1); reflexivity. }
    rewrite E2. cbn [Vector3.x Vector3.y Vector3.z].
    split; [reflexivity|]. split; lra.
Qed.

(** X8. In the approach phase of an activation the frame enters the attack
    phase exactly when at least 1000 ms have passed since the trigger. That
    frame puts the unit at the attack pose computed by the trigger, records
    its clock reading as the phase start, replaces the tracked effects by
    those generated for the wingman selected at that frame, the snapshot
    captured by the trigger and the attack pose, and calls no callback; an
    earlier frame leaves the tracked effects as they are. *)
Theorem approach_arrival `{MathLib} (p0 : Props) (now0 : Z) (s : State)
    (rand : Rand) (p : Props) (now : Z) (delta : Q) :
  engaged p0 now0 s -> phase s = approach ->
  let s' := fst (useFrame rand p now delta s) in
  (phase s' = attack <-> (1000 <= now - now0)%Z)
  /\ (phase s' = attack ->
      Vector3.equals (wingmanPosition s') (getAttackPosition p0)
      /\ phaseStartTime s' = now
      /\ attackEffects s'
         = generateEffects rand (selectedWingman p) (enemies p0)
             (getAttackPosition p0))
  /\ (phase s' <> attack ->
      phase s' = approach /\ attackEffects s' = attackEffects s)
  /\ snd (useFrame rand p now delta s) = [].
Proof.
  intros He Hp s'. subst s'.
  apply engaged_snapshot in He.
  destruct He as (Ht & Hi & _ & Hc & Ha & Hst).
  specialize (Hst Hp).
  assert (Eg : gtb (cooldown s) 0 = false) by now apply gtb_false.
  unfold useFrame. rewrite Hi, Hp, Eg. cbn [negb andb].
  rewrite Hst, Ha, Ht.
  set (e := Math_min (inject_Z (now - now0) / 1000) 1).
  assert (Hiff : geb e 1 = true <-> (1000 <= now - now0)%Z).
  { split; intros Hg.
    - destruct (Z_le_gt_dec 1000 (now - now0)) as [Hle|Hgt]; [exact Hle|].
      assert (F : geb e 1 = false)
        by (apply (progress_partial 1000); [reflexivity|lia]).
      congruence.
    - apply (progress_full 1000); [reflexivity|exact Hg]. }
  destruct (geb e 1) eqn:Eg1;
    cbn [fst snd executeAttack phase wingmanPosition phaseStartTime
           attackEffects targetEnemies attackPosition]; rewrite ?Hp.
  - split; [rewrite <- Hiff; split; auto|].
    split; [intros _|split; [intros C; now elim C|reflexivity]].
    split; [|split; reflexivity].
    apply geb_true in Eg1.
    assert (Es : MathUtils.smoothstep e 0 1 = 1).
    { unfold MathUtils.smoothstep.
      destruct (Qle_bool e 0) eqn:E0.
      - apply Qle_bool_iff in E0. lra.
      - destruct (Qle_bool 1 e) eqn:E1'; [reflexivity|].
        assert (Qle_bool 1 e = true) by now apply Qle_bool_iff.
        congruence. }
    rewrite Es. unfold Vector3.equals, Vector3.lerpVectors.
    cbn [Vector3.x Vector3.y Vector3.z]. repeat split; ring.
  - split; [rewrite <- Hiff; split; discriminate|].
    split; [discriminate|]. split; [|reflexivity].
    intros _. split; reflexivity.
Qed.

(** X9. In the attack phase of an activation a frame run no later than
    [ATTACK_DURATION] after the phase began changes nothing and calls no
    callback. *)
Theorem attack_hold `{MathLib} (p0 : Props) (now0 : Z) (s : State)
    (rand : Rand) (p : Props) (now : Z) (delta : Q) :
  engaged p0 now0 s -> phase s = attack ->
  (now - phaseStartTime s <= ATTACK_DURATION)%Z ->
  useFrame rand p now delta s = (s, []).
Proof.
  intros He Hp Hn. apply engaged_snapshot in He.
  destruct He as (_ & Hi & _ & Hc & _ & _).
  assert (Eg : gtb (cooldown s) 0 = false) by now apply gtb_false.
  unfold useFrame. rewrite Hi, Hp, Eg. cbn [negb andb].
  assert (Hf : (now - phaseStartTime s >? ATTACK_DURATION)%Z = false).
  { rewrite Z.gtb_ltb. apply Z.ltb_ge. exact Hn. }
  rewrite Hf. reflexivity.
Qed.

(** ** The attack generator *)

Lemma nth_error_mapi {A B} (g : nat -> A -> B) (l : list A) :
  forall i0 n,
    nth_error (mapi g i0 l) n
    = option_map (g (i0 + n)%nat) (nth_error l n).
Proof.
  induction l as [|a l IH]; intros i0 n; cbn [mapi].
  - destruct n; reflexivity.
  - destruct n as [|n]; cbn [nth_error option_map].
    + now rewrite Nat.add_0_r.
    + rewrite IH. now rewrite Nat.add_succ_r.
Qed.

Lemma mapi_length {A B} (g : nat -> A -> B) (l : list A) :
  forall i0, List.length (mapi g i0 l) = List.length l.
Proof.
  induction l as [|a l IH]; intros i0; cbn [mapi List.length]; auto.
Qed.

Lemma forEach_ret_mapi {A B} (g : nat -> A -> B) (l : list A) :
  forall i k, forEach (fun a j => ret [g j a]) l i k = (mapi g i l, k).
Proof.
  induction l as [|a l IH]; intros i k; cbn [forEach mapi].
  - reflexivity.
  - unfold bind, ret. unfold ret in IH. rewrite IH. reflexivity.
Qed.

Lemma gatling_block `{MathLib} (rand : Rand) (shipPos : Vector3.t)
    (enemy : Enemy) (i k : nat) :
  let shot j k' :=
    gatling ("gatling-" ++ nat_toString i ++ "-" ++ nat_toString j)%string
      (Vector3.add shipPos
         (Vector3.new ((rand k' - (1 # 2)) * 2) ((rand (S k') - (1 # 2)) * 1)
            0))
      (position enemy) (Z.of_nat j * 50 + Z.of_nat i * 30)%Z in
  for_loop 5 0 (gatlingShot rand shipPos enemy i) k
  = ([shot 0 k; shot 1 (2 + k); shot 2 (4 + k); shot 3 (6 + k);
      shot 4 (8 + k)]%nat, (10 + k)%nat).
Proof. reflexivity. Qed.

Lemma rapidBurst_counter `{MathLib} (rand : Rand) (shipPos : Vector3.t)
    (l : list Enemy) :
  forall i0 k0,
    snd (forEach
           (fun enemy i => for_loop 5 0 (gatlingShot rand shipPos enemy i))
           l i0 k0)
    = (k0 + 10 * List.length l)%nat.
Proof.
  induction l as [|a l IH]; intros i0 k0; cbn [forEach].
  - cbn. lia.
  - unfold bind at 1. rewrite gatling_block. cbv zeta. unfold bind at 1.
    specialize (IH (S i0) (10 + k0)%nat).
    destruct (forEach _ l (S i0) (10 + k0)%nat) as [rest k2].
    unfold ret. cbn [snd List.length] in *. lia.
Qed.

Lemma rapidBurst_nth `{MathLib} (rand : Rand) (shipPos : Vector3.t)
    (l : list Enemy) :
  forall i0 k0 n j enemy,
    nth_error l n = Some enemy -> (j < 5)%nat ->
    nth_error
      (fst (forEach
              (fun enemy i => for_loop 5 0 (gatlingShot rand shipPos enemy i))
              l i0 k0))
      (5 * n + j)
    = Some
        (gatling
           ("gatling-" ++ nat_toString (i0 + n) ++ "-" ++ nat_toString j)
           %string
           (Vector3.add shipPos
              (Vector3.new
                 ((rand (k0 + 10 * n + 2 * j)%nat - (1 # 2)) * 2)
                 ((rand (S (k0 + 10 * n + 2 * j)) - (1 # 2)) * 1) 0))
           (position enemy) (Z.of_nat j * 50 + Z.of_nat (i0 + n) * 30)%Z).
Proof.
  induction l as [|a l IH]; intros i0 k0 n j enemy Hn Hj.
  - destruct n; discriminate.
  - cbn [forEach]. unfold bind at 1. rewrite gatling_block. cbv zeta.
    unfold bind at 1.
    destruct n as [|n].
    + injection Hn as ->.
      destruct (forEach _ l (S i0) (10 + k0)%nat) as [rest k2].
      unfold ret. cbn [fst].
      do 5 (destruct j as [|j];
            [cbn [List.app nth_error Nat.mul Nat.add];
             repeat (f_equal; try lia)|]).
      lia.
    + cbn [nth_error] in Hn.
      pose proof (IH (S i0) (10 + k0)%nat n j enemy Hn Hj) as Hv.
      destruct (forEach _ l (S i0) (10 + k0)%nat) as [rest k2].
      unfold ret. cbn [fst] in *.
      replace (5 * S n + j)%nat with (5 + (5 * n + j))%nat by lia.
      cbn [List.app nth_error Nat.add]. rewrite Hv.
      replace (S i0 + n)%nat with (i0 + S n)%nat by lia.
      replace (10 + k0 + 10 * n + 2 * j)%nat
        with (k0 + 10 * S n + 2 * j)%nat by lia.
      reflexivity.
Qed.

(** X10. RapidBurst for a snapshot: the descriptor at index [5 * i + j]
    (target [i], shot [j < 5]) has the id [gatling-i-j], aims at the position
    of target [i], starts [j * 50 + i * 30] ms after the attack begins, and
    starts from the ship position displaced by the results of the two calls
    of [Math.random] numbered [10 * i + 2 * j] and the next one; with results
    in [0, 1) the displacement stays within 1 unit sideways and half a unit
    in height, and there is none in depth. *)
Theorem rapid_burst_descriptors `{MathLib} (rand : Rand)
    (targets : list Enemy) (shipPos : Vector3.t) (i j : nat)
    (enemy : Enemy) :
  nth_error targets i = Some enemy -> (j < 5)%nat ->
  let r1 := rand (10 * i + 2 * j)%nat in
  let r2 := rand (10 * i + 2 * j + 1)%nat in
  let start :=
    Vector3.add shipPos
      (Vector3.new ((r1 - (1 # 2)) * 2) ((r2 - (1 # 2)) * 1) 0) in
  nth_error (generateEffects rand 0 targets shipPos) (5 * i + j)
  = Some (gatling
            ("gatling-" ++ nat_toString i ++ "-" ++ nat_toString j)%string
            start (position enemy) (Z.of_nat j * 50 + Z.of_nat i * 30)%Z)
  /\ (0 <= r1 < 1 -> 0 <= r2 < 1 ->
      - (1) <= Vector3.x start - Vector3.x shipPos < 1
      /\ - (1 # 2) <= Vector3.y start - Vector3.y shipPos < 1 # 2
      /\ Vector3.z start == Vector3.z shipPos).
Proof.
  intros Hn Hj r1 r2 start. split.
  - unfold generateEffects. cbn [Z.eqb].
    rewrite (rapidBurst_nth rand shipPos targets 0 0 i j enemy Hn Hj).
    subst start r1 r2. cbn [Nat.add].
    replace (10 * i + 2 * j + 1)%nat with (S (10 * i + 2 * j)) by lia.
    reflexivity.
  - intros H1 H2. subst start. cbn [Vector3.add Vector3.x Vector3.y Vector3.z].
    repeat split; lra.
Qed.

(** X11. PrecisionBeam and HomingSwarm for a snapshot: one descriptor per
    target in snapshot order. Beam [i] has the id [beam-i], runs from the
    ship position to target [i], starts [i * 50] ms after the attack begins
    and lasts [BEAM_LOCK_DURATION]; missile [i] has the id [missile-i], aims
    at target [i] with no start delay and the fixed flight time, and starts
    from a grid three wide around the ship position, on which no two
    missiles share a start position. Neither draws a random number. *)
Theorem beam_and_missile_descriptors `{MathLib} (rand : Rand)
    (targets : list Enemy) (shipPos : Vector3.t) :
  let slot (i : nat) :=
    Vector3.add shipPos
      (Vector3.new ((inject_Z (Z.of_nat (i mod 3)) - 1) * (3 # 2))
         (inject_Z (Z.of_nat (i / 3)) * (1 # 2)) 0) in
  generateEffects rand 1 targets shipPos
  = mapi (fun i enemy =>
            beam ("beam-" ++ nat_toString i)%string shipPos (position enemy)
              (Z.of_nat i * 50)%Z BEAM_LOCK_DURATION)
      0 targets
  /\ generateEffects rand 3 targets shipPos
     = mapi (fun i enemy =>
               missile ("missile-" ++ nat_toString i)%string (slot i)
                 (position enemy) 0%Z MISSILE_FLIGHT_TIME)
         0 targets
  /\ forall i j, Vector3.equals (slot i) (slot j) -> i = j.
Proof.
  intros slot. unfold generateEffects. cbn [Z.eqb Pos.eqb].
  split; [|split].
  - now rewrite (forEach_ret_mapi
                   (fun i enemy =>
                      beam ("beam-" ++ nat_toString i)%string shipPos
                        (position enemy) (Z.of_nat i * 50)%Z
                        BEAM_LOCK_DURATION)).
  - now rewrite (forEach_ret_mapi
                   (fun i enemy =>
                      missile ("missile-" ++ nat_toString i)%string (slot i)
                        (position enemy) 0%Z MISSILE_FLIGHT_TIME)).
  - intros i j (Hx & Hy & _). subst slot.
    cbn [Vector3.add Vector3.x Vector3.y] in Hx, Hy.
    assert (Em : inject_Z (Z.of_nat (i mod 3))
                 == inject_Z (Z.of_nat (j mod 3))) by lra.
    assert (Ed : inject_Z (Z.of_nat (i / 3)) == inject_Z (Z.of_nat (j / 3)))
      by lra.
    apply inject_Z_injective, Nat2Z.inj in Em.
    apply inject_Z_injective, Nat2Z.inj in Ed.
    rewrite (Nat.div_mod_eq i 3), (Nat.div_mod_eq j 3), Em, Ed. reflexivity.
Qed.

(** *** Effect ids *)

Lemma nat_toString_inj (i j : nat) : nat_toString i = nat_toString j -> i = j.
Proof.
  unfold nat_toString. intros E. apply (f_equal parseInt) in E.
  rewrite !parseInt_toString in E by lia. injection E as E. lia.
Qed.

Lemma dash_split_inj (a a' r r' : string) :
  lacks "-" a = true -> lacks "-" a' = true ->
  (a ++ String "-" r)%string = (a' ++ String "-" r')%string ->
  a = a' /\ r = r'.
Proof.
  revert a'. induction a as [|c a IH]; intros [|c' a'] Ha Ha' E;
    cbn in *.
  - injection E as <-. auto.
  - injection E as <- _. discriminate.
  - injection E as -> _. discriminate.
  - injection E as <- E.
    apply andb_prop in Ha, Ha'. destruct Ha as (_ & Ha), Ha' as (_ & Ha').
    destruct (IH a' Ha Ha' E) as (<- & <-). auto.
Qed.

Lemma gatling_id_inj (i j i' j' : nat) :
  ("gatling-" ++ nat_toString i ++ "-" ++ nat_toString j)%string
  = ("gatling-" ++ nat_toString i' ++ "-" ++ nat_toString j')%string ->
  i = i' /\ j = j'.
Proof.
  intros E. cbn [String.append] in E.
  injection E as E.
  apply dash_split_inj in E;
    try (apply toString_lacks_dash; lia).
  destruct E as (Ei & Ej).
  split; now apply nat_toString_inj.
Qed.

Lemma NoDup_mapi_ids {A} (prefix : string) (l : list A) :
  forall i0,
    NoDup (mapi (fun i (_ : A) => (prefix ++ nat_toString i)%string) i0 l).
Proof.
  induction l as [|a l IH]; intros i0; cbn [mapi]; constructor; [|apply IH].
  intros Hin. apply In_nth_error in Hin. destruct Hin as (n & Hn).
  rewrite nth_error_mapi in Hn.
  destruct (nth_error l n); [|discriminate]. cbn in Hn.
  injection Hn as Hn.
  assert (E : nat_toString (S i0 + n) = nat_toString i0).
  { clear - Hn. induction prefix as [|c prefix IH]; cbn in Hn.
    - exact Hn.
    - injection Hn as Hn. auto. }
  apply nat_toString_inj in E. lia.
Qed.

Lemma map_mapi {A B C} (f : B -> C) (g : nat -> A -> B) (l : list A) :
  forall i0, map f (mapi g i0 l) = mapi (fun i a => f (g i a)) i0 l.
Proof.
  induction l as [|a l IH]; intros i0; cbn [mapi map]; [|rewrite IH];
    reflexivity.
Qed.

Lemma generateEffects_ids_NoDup `{MathLib} (rand : Rand) (wingman : Z)
    (targets : list Enemy) (shipPos : Vector3.t) :
  NoDup (map effect_id (generateEffects rand wingman targets shipPos)).
Proof.
  unfold generateEffects.
  destruct (wingman =? 0)%Z eqn:E0.
  - set (effs := fst (forEach _ targets 0%nat 0%nat)).
    assert (Hl : List.length effs = (5 * List.length targets)%nat).
    { subst effs. rewrite (forEach_length _ 5%nat); [lia|].
      intros a i k. apply (for_loop_length _ 1%nat). reflexivity. }
    assert (Hid : forall n, (n < List.length effs)%nat ->
              nth_error (map effect_id effs) n
              = Some ("gatling-" ++ nat_toString (n / 5) ++ "-"
                      ++ nat_toString (n mod 5))%string).
    { intros n Hn.
      assert (Hd : (n / 5 < List.length targets)%nat)
        by (apply Nat.Div0.div_lt_upper_bound; lia).
      destruct (nth_error targets (n / 5)) as [enemy|] eqn:Ee;
        [|apply nth_error_None in Ee; lia].
      pose proof (rapidBurst_nth rand shipPos targets 0 0 (n / 5) (n mod 5)
                    enemy Ee ltac:(apply Nat.mod_upper_bound; lia)) as Hv.
      rewrite <- Nat.div_mod_eq in Hv. fold effs in Hv.
      rewrite nth_error_map, Hv. reflexivity. }
    apply NoDup_nth_error. intros n m Hn E.
    rewrite length_map in Hn.
    assert (Hm : (m < List.length effs)%nat).
    { apply nth_error_Some. rewrite <- (length_map effect_id) in Hn.
      apply nth_error_Some in Hn. rewrite E in Hn.
      intros C. apply Hn. rewrite nth_error_map, C. reflexivity. }
    rewrite (Hid n Hn), (Hid m Hm) in E.
    apply (f_equal (fun o => match o with
                                | Some x => x
                                | None => EmptyString
                                end)) in E.
    apply gatling_id_inj in E. destruct E as (Ed & Em).
    rewrite (Nat.div_mod_eq n 5), (Nat.div_mod_eq m 5). lia.
  - destruct (wingman =? 1)%Z.
    { rewrite (forEach_ret_mapi
                 (fun i enemy =>
                    beam ("beam-" ++ nat_toString i)%string shipPos
                      (position enemy) (Z.of_nat i * 50)%Z
                      BEAM_LOCK_DURATION)).
      cbn [fst]. rewrite map_mapi. cbn [effect_id].
      apply (NoDup_mapi_ids "beam-"). }
    destruct (wingman =? 2)%Z.
    { destruct (0 <? _)%nat; cbn; repeat constructor. intros []. }
    destruct (wingman =? 3)%Z; [|constructor].
    rewrite (forEach_ret_mapi
               (fun i enemy =>
                  missile ("missile-" ++ nat_toString i)%string
                    (Vector3.add shipPos
                       (Vector3.new
                          ((inject_Z (Z.of_nat (i mod 3)) - 1) * (3 # 2))
                          (inject_Z (Z.of_nat (i / 3)) * (1 # 2)) 0))
                    (position enemy) 0%Z MISSILE_FLIGHT_TIME)).
    cbn [fst]. rewrite map_mapi. cbn [effect_id].
    apply (NoDup_mapi_ids "missile-").
Qed.

Lemma NoDup_ids_inj (l : list Effect) (a b : Effect) :
  NoDup (map effect_id l) -> In a l -> In b l ->
  effect_id a = effect_id b -> a = b.
Proof.
  induction l as [|c l IH]; cbn [map]; intros Hnd Ha Hb E; [destruct Ha|].
  inversion Hnd as [|? ? Hc Hnd']; subst.
  destruct Ha as [<-|Ha], Hb as [<-|Hb]; auto.
  - exfalso. apply Hc. rewrite E. now apply in_map.
  - exfalso. apply Hc. rewrite <- E. now apply in_map.
Qed.

Lemma complete_unique_id (l : list Effect) (e : Effect) :
  NoDup (map effect_id l) -> In e l ->
  find (fun x => String.eqb (effect_id x) (effect_id e)) l = Some e
  /\ S (List.length
          (filter (fun x => negb (String.eqb (effect_id x) (effect_id e))) l))
     = List.length l.
Proof.
  induction l as [|c l IH]; cbn [map]; intros Hnd He; [destruct He|].
  inversion Hnd as [|? ? Hc Hnd']; subst.
  cbn [find filter].
  destruct (String.eqb_spec (effect_id c) (effect_id e)) as [E|E];
    cbn [negb List.length].
  - assert (c = e).
    { apply (NoDup_ids_inj (c :: l)); auto. now left. }
    subst c. split; [reflexivity|]. f_equal.
    clear IH He Hnd. induction l as [|d l IH]; [reflexivity|].
    cbn [filter]. cbn [map] in Hc, Hnd'.
    inversion Hnd'; subst.
    destruct (String.eqb_spec (effect_id d) (effect_id e)) as [E'|E'].
    + exfalso. apply Hc. left. exact E'.
    + cbn [negb List.length]. f_equal. apply IH; auto.
      intros C. apply Hc. now right.
  - destruct He as [->|He]; [now elim E|].
    destruct (IH Hnd' He) as (Hf & Hl). split; [exact Hf|]. now rewrite Hl.
Qed.

(** X12. The ids of the descriptors generated for one attack are pairwise
    distinct, whatever the wingman index and the snapshot. Hence, while the
    generated descriptors are the tracked ones, the completion of one of
    them removes that descriptor and no other, so the tracked set shrinks by
    exactly one, and it appends exactly one explosion, placed at the target
    of the descriptor and coloured for the selected wingman; the chain
    descriptor, which has no single target, appends none. *)
Theorem effect_ids_unique `{MathLib} (rand : Rand) (wingman : Z)
    (targets : list Enemy) (shipPos : Vector3.t) :
  let effects := generateEffects rand wingman targets shipPos in
  NoDup (map effect_id effects)
  /\ forall s p now rnd e,
       attackEffects s = effects -> In e effects ->
       let s' :=
         handleEffectComplete p (attackEffects s) now rnd (effect_id e) s in
       (forall e', In e' (attackEffects s') <-> In e' effects /\ e' <> e)
       /\ S (List.length (attackEffects s')) = List.length effects
       /\ explosions s'
          = explosions s ++
            match effect_targetPosition e with
            | Some target =>
                [ {| Explosion.id :=
                       ("explosion-" ++ Number_toString now ++ "-" ++ rnd)
                       %string;
                     Explosion.position := target;
                     Explosion.color :=
                       item WINGMAN_COLORS (selectedWingman p) |} ]
            | None => []
            end.
Proof.
  intros effects.
  pose proof (generateEffects_ids_NoDup rand wingman targets shipPos) as Hnd.
  fold effects in Hnd. split; [exact Hnd|].
  intros s p now rnd e Hs He s'.
  destruct (complete_unique_id effects e Hnd He) as (Hf & Hl).
  split; [|split].
  - intros e'. subst s'. rewrite handleEffectComplete_removes, Hs.
    split; intros (Hin & Hne); split; auto.
    + intros ->. now apply Hne.
    + intros E. apply Hne. now apply (NoDup_ids_inj effects).
  - subst s'. unfold handleEffectComplete.
    cbn [attackEffects set_explosions set_attackEffects].
    rewrite Hs. exact Hl.
  - subst s'. unfold handleEffectComplete.
    cbn [explosions set_explosions set_attackEffects].
    rewrite Hs, Hf. destruct (effect_targetPosition e);
      [reflexivity|now rewrite app_nil_r].
Qed.

(** *** The chain *)

Section StableSort.
Context {A : Type} (key : A -> Q).

Let cmp (a b : A) : Q := key a - key b.

Lemma sort_insert_filter (c : Q) (a : A) (l : list A) :
  filter (fun e => Qeq_bool (key e) c) (sort_insert cmp a l)
  = filter (fun e => Qeq_bool (key e) c) (a :: l).
Proof.
  induction l as [|b l IH]; [reflexivity|].
  cbn [sort_insert]. destruct (gtb (cmp a b) 0) eqn:Eg; [|reflexivity].
  apply gtb_true in Eg. unfold cmp in Eg.
  cbn [filter] in *. rewrite IH.
  destruct (Qeq_bool (key a) c) eqn:Ea; destruct (Qeq_bool (key b) c) eqn:Eb;
    try reflexivity.
  apply Qeq_bool_iff in Ea, Eb. lra.
Qed.

Lemma Array_sort_filter (c : Q) (l : list A) :
  filter (fun e => Qeq_bool (key e) c) (Array_sort cmp l)
  = filter (fun e => Qeq_bool (key e) c) l.
Proof.
  induction l as [|a l IH]; [reflexivity|].
  cbn [Array_sort fold_right]. fold (Array_sort cmp l).
  rewrite sort_insert_filter. cbn [filter]. now rewrite IH.
Qed.

Lemma Array_sort_sorted_id (l : list A) :
  StronglySorted (fun a b => key a <= key b) l -> Array_sort cmp l = l.
Proof.
  induction 1 as [|a l Hs IH Ha]; [reflexivity|].
  cbn [Array_sort fold_right]. fold (Array_sort cmp l). rewrite IH.
  destruct l as [|b l]; [reflexivity|].
  cbn [sort_insert]. inversion Ha as [|? ? Hab _]; subst.
  assert (Eg : gtb (cmp a b) 0 = false) by (apply gtb_false; unfold cmp; lra).
  now rewrite Eg.
Qed.

End StableSort.

(** X13. The chain of ChainedArc visits every target of the snapshot once:
    it has one position more than the snapshot has targets. The sort behind
    it is stable: targets at the same distance from the ship position keep
    the order they have in the snapshot, and a snapshot that is already in
    ascending order of distance is visited in snapshot order. *)
Theorem chain_order_stable `{MathLib} (rand : Rand) (targets : list Enemy)
    (shipPos : Vector3.t) :
  targets <> [] ->
  let distance e := Vector3.distanceTo shipPos (position e) in
  exists sorted,
    generateEffects rand 2 targets shipPos
    = [lightning "lightning-chain" (shipPos :: map position sorted) 0%Z
         LIGHTNING_CHAIN_DURATION]
    /\ List.length (shipPos :: map position sorted)
       = S (List.length targets)
    /\ (forall d,
          filter (fun e => Qeq_bool (distance e) d) sorted
          = filter (fun e => Qeq_bool (distance e) d) targets)
    /\ (StronglySorted (fun a b => distance a <= distance b) targets ->
        sorted = targets).
Proof.
  intros Hne distance. unfold generateEffects; cbn [Z.eqb Pos.eqb].
  destruct targets as [|t targets]; [congruence|].
  change (0 <? List.length (t :: targets))%nat with true. cbv iota.
  eexists. split; [reflexivity|]. split; [|split].
  - cbn [List.length]. rewrite length_map. f_equal.
    change (S (List.length targets)) with (List.length (t :: targets)).
    symmetry. apply Permutation_length, (Array_sort_perm distance).
  - intros d. apply (Array_sort_filter distance).
  - apply (Array_sort_sorted_id distance).
Qed.

(** ** Completion handlers and the sweeper *)

Lemma filter_all {A} (f : A -> bool) (l : list A) :
  (forall a, In a l -> f a = true) -> filter f l = l.
Proof.
  induction l as [|a l IH]; intros Hf; cbn [filter]; [reflexivity|].
  rewrite (Hf a) by now left. f_equal. apply IH. intros b Hb.
  apply Hf. now right.
Qed.

Lemma find_none {A} (f : A -> bool) (l : list A) :
  (forall a, In a l -> f a = false) -> find f l = None.
Proof.
  induction l as [|a l IH]; intros Hf; cbn [find]; [reflexivity|].
  rewrite (Hf a) by now left. apply IH. intros b Hb. apply Hf. now right.
Qed.

Lemma handleEffectComplete_unknown p seen now rnd effectId s :
  (forall e, In e (attackEffects s) -> effect_id e <> effectId) ->
  (forall e, In e seen -> effect_id e <> effectId) ->
  handleEffectComplete p seen now rnd effectId s = s.
Proof.
  intros Hu Hs. unfold handleEffectComplete.
  rewrite filter_all, find_none.
  - destruct s; reflexivity.
  - intros e He. apply String.eqb_neq. now apply Hs.
  - intros e He. apply negb_true_iff, String.eqb_neq. now apply Hu.
Qed.

(** X14. What a completion signal does depends on what the callback that
    carries it has seen. A signal for an id carried neither by a tracked
    descriptor nor by a descriptor the callback has seen changes nothing at
    all. After a first signal for an id, a second one sent through the
    callback of the next render, which has seen the tracked set without that
    id, changes nothing either. A second one sent through the same callback
    as the first, the one a removed component still holds, removes nothing
    more but finds the descriptor again in what that callback has seen, and
    appends a second explosion at the same target. *)
Theorem repeated_completion_signal (p : Props) (seen : list Effect)
    (now now' : Z) (rnd rnd' effectId : string) (s : State) :
  let s1 := handleEffectComplete p seen now rnd effectId s in
  let explosion clock text target :=
    {| Explosion.id :=
         ("explosion-" ++ Number_toString clock ++ "-" ++ text)%string;
       Explosion.position := target;
       Explosion.color := item WINGMAN_COLORS (selectedWingman p) |} in
  ((forall e, In e (attackEffects s) -> effect_id e <> effectId) ->
   (forall e, In e seen -> effect_id e <> effectId) ->
   s1 = s)
  /\ handleEffectComplete p (attackEffects s1) now' rnd' effectId s1 = s1
  /\ attackEffects (handleEffectComplete p seen now' rnd' effectId s1)
     = attackEffects s1
  /\ (forall e target,
        NoDup (map effect_id seen) -> In e seen ->
        effect_id e = effectId -> effect_targetPosition e = Some target ->
        explosions (handleEffectComplete p seen now' rnd' effectId s1)
        = explosions s
          ++ [explosion now rnd target; explosion now' rnd' target]).
Proof.
  intros s1 explosion.
  assert (Hgone : forall e, In e (attackEffects s1) ->
                    effect_id e <> effectId).
  { intros e He. subst s1. apply handleEffectComplete_removes in He. tauto. }
  split; [apply handleEffectComplete_unknown|].
  split; [apply handleEffectComplete_unknown; exact Hgone|].
  split.
  - unfold handleEffectComplete at 1.
    cbn [attackEffects set_explosions set_attackEffects].
    apply filter_all. intros e He.
    apply negb_true_iff, String.eqb_neq. now apply Hgone.
  - intros e target Hnd He <- Ht.
    destruct (complete_unique_id seen e Hnd He) as (Hf & _).
    subst s1. unfold handleEffectComplete.
    cbn [explosions set_explosions set_attackEffects].
    rewrite Hf, Ht. now rewrite <- app_assoc.
Qed.

Lemma fireLightningTimers_explosions (l : list Enemy) :
  forall (clocks : list Z) (i0 : nat) (s : State),
    let s' :=
      fireLightningTimers
        (mapi (fun i e => ((Z.of_nat i * 50)%Z, (i, position e))) i0 l)
        clocks s in
    explosions s'
    = explosions s ++
      mapi (fun i en =>
              {| Explosion.id :=
                   ("explosion-" ++ Number_toString (snd en) ++ "-"
                    ++ nat_toString i)%string;
                 Explosion.position := position (fst en);
                 Explosion.color := Some "#ffff00" |})
        i0 (combine l clocks)
    /\ attackEffects s' = attackEffects s /\ phase s' = phase s
    /\ isActive s' = isActive s /\ cooldown s' = cooldown s.
Proof.
  induction l as [|e l IH]; intros clocks i0 s; cbn [mapi combine].
  - cbn. rewrite app_nil_r. repeat split.
  - destruct clocks as [|now clocks]; cbn [fireLightningTimers mapi].
    + rewrite app_nil_r. repeat split.
    + cbv zeta in IH.
      destruct (IH clocks (S i0) (lightningExplosion now i0 (position e) s))
        as (He & Ha & Hp & Hi & Hc).
      rewrite He, Ha, Hp, Hi, Hc.
      cbn [lightningExplosion set_explosions explosions attackEffects phase
             isActive cooldown fst snd].
      rewrite <- app_assoc. repeat split.
Qed.

(** X15. The completion handler of the chain empties the tracked set and
    arms one timer per target of the snapshot, the timer of target [i] being
    [i * 50] ms ahead. When the timers fire in that order they append one
    yellow explosion per target, in snapshot order and at the positions of
    the snapshot (not in the order of the chain), each stamped with the clock
    reading of its own timer and the index of its target; with clock
    readings that are not negative the ids of these explosions are pairwise
    distinct. Nothing else of the state changes. *)
Theorem lightning_explosions (s : State) (clocks : list Z) :
  let s1 := fst (handleLightningComplete s) in
  let timers := snd (handleLightningComplete s) in
  let s2 := fireLightningTimers timers clocks s1 in
  let added :=
    mapi (fun i en =>
            {| Explosion.id :=
                 ("explosion-" ++ Number_toString (snd en) ++ "-"
                  ++ nat_toString i)%string;
               Explosion.position := position (fst en);
               Explosion.color := Some "#ffff00" |})
      0 (combine (targetEnemies s) clocks) in
  timers = mapi (fun i e => ((Z.of_nat i * 50)%Z, (i, position e))) 0
             (targetEnemies s)
  /\ attackEffects s1 = [] /\ attackEffects s2 = []
  /\ explosions s2 = explosions s ++ added
  /\ (List.length clocks = List.length (targetEnemies s) ->
      List.length added = List.length (targetEnemies s))
  /\ phase s2 = phase s /\ isActive s2 = isActive s
  /\ cooldown s2 = cooldown s
  /\ (Forall (fun now => 0 <= now)%Z clocks ->
      NoDup (map Explosion.id added)).
Proof.
  intros s1 timers s2 added.
  assert (Et : timers
               = mapi (fun i e => ((Z.of_nat i * 50)%Z, (i, position e))) 0
                   (targetEnemies s)).
  { subst timers. unfold handleLightningComplete. cbn [snd].
    now rewrite (forEach_ret_mapi
                   (fun i e => ((Z.of_nat i * 50)%Z, (i, position e)))). }
  split; [exact Et|]. split; [reflexivity|].
  destruct (fireLightningTimers_explosions (targetEnemies s) clocks 0 s1)
    as (He & Ha & Hp & Hi & Hc).
  subst s2. rewrite Et. rewrite He, Ha, Hp, Hi, Hc.
  repeat split.
  - intros Hl. subst added. rewrite mapi_length, length_combine. lia.
  - intros Hpos. subst added. apply NoDup_nth_error. intros n m Hn E.
    rewrite length_map in Hn.
    assert (Hm : (m < List.length
                        (mapi (fun i en =>
                                 {| Explosion.id :=
                                      ("explosion-"
                                       ++ Number_toString (snd en) ++ "-"
                                       ++ nat_toString i)%string;
                                    Explosion.position := position (fst en);
                                    Explosion.color := Some "#ffff00" |})
                           0 (combine (targetEnemies s) clocks)))%nat).
    { rewrite <- (length_map Explosion.id). apply nth_error_Some.
      rewrite <- E. apply nth_error_Some. now rewrite length_map. }
    rewrite mapi_length in Hn, Hm.
    rewrite !nth_error_map, !nth_error_mapi in E.
    destruct (nth_error (combine (targetEnemies s) clocks) n)
      as [[e1 c1]|] eqn:E1; [|apply nth_error_None in E1; lia].
    destruct (nth_error (combine (targetEnemies s) clocks) m)
      as [[e2 c2]|] eqn:E2; [|apply nth_error_None in E2; lia].
    cbn [option_map Explosion.id snd Nat.add] in E.
    apply (f_equal (fun o => match o with
                             | Some x => x
                             | None => EmptyString
                             end)) in E.
    cbn [String.append] in E.
    assert (H1 : (0 <= c1)%Z).
    { apply nth_error_In, in_combine_r in E1.
      rewrite Forall_forall in Hpos. now apply Hpos. }
    assert (H2 : (0 <= c2)%Z).
    { apply nth_error_In, in_combine_r in E2.
      rewrite Forall_forall in Hpos. now apply Hpos. }
    assert (E' : (Number_toString c1 ++ String "-" (nat_toString n))%string
                 = (Number_toString c2 ++ String "-" (nat_toString m))
                   %string).
    { clear - E. injection E as E. exact E. }
    apply dash_split_inj in E'; try now apply toString_lacks_dash.
    destruct E' as (_ & E'). now apply nat_toString_inj.
Qed.

Lemma keepExplosion_created (now created : Z) (suffix : string)
    (pos : Vector3.t) (color : option string) :
  (0 <= created)%Z ->
  keepExplosion now
    {| Explosion.id :=
         ("explosion-" ++ Number_toString created ++ "-" ++ suffix)%string;
       Explosion.position := pos; Explosion.color := color |}
  = (now - created <? 600)%Z.
Proof.
  intros Hc. unfold keepExplosion. cbn [Explosion.id].
  rewrite explosion_id_token by exact Hc.
  now rewrite parseInt_toString by exact Hc.
Qed.

Lemma useFrame_explosions `{MathLib} rand p now delta s :
  explosions (fst (useFrame rand p now delta s)) = explosions s.
Proof.
  unfold useFrame.
  destruct (gtb (cooldown s) 0); destruct (isActive s); cbn [negb];
    try reflexivity; destruct (phase s); try reflexivity;
    try (destruct (geb _ 1); reflexivity);
    destruct (_ >? _)%Z; reflexivity.
Qed.

Lemma trigger_explosions p now s :
  explosions (snd (fst (triggerTeamSpecial p now s))) = explosions s.
Proof.
  unfold triggerTeamSpecial. destruct (_ || _ || _); reflexivity.
Qed.

(** X16. Triggers and frames never touch the explosions; the completion
    handlers and the chain timers only append to them and the sweeper only
    removes from them; and none of the handlers, timers and sweeps touches
    the phase, the activity flag, the cooldown, the snapshot or the clock
    reading of the phase start. *)
Theorem separation_of_concerns `{MathLib} (op : Op) (s : State) :
  let s' := fst (step op s) in
  (isFrame op = true \/ (exists p now, op = Trigger p now) ->
   explosions s' = explosions s)
  /\ ((exists now, op = Cleanup now) \/
      exists added, explosions s' = explosions s ++ added)
  /\ (forall now, op = Cleanup now -> incl (explosions s') (explosions s))
  /\ (isFrame op = true \/ (exists p now, op = Trigger p now) \/
      phase s' = phase s /\ isActive s' = isActive s
      /\ cooldown s' = cooldown s /\ targetEnemies s' = targetEnemies s
      /\ phaseStartTime s' = phaseStartTime s
      /\ wingmanPosition s' = wingmanPosition s).
Proof.
  intros s'. subst s'.
  assert (Hf : forall rand p now delta,
             explosions (fst (useFrame rand p now delta s)) = explosions s)
    by (intros; apply useFrame_explosions).
  destruct op; cbn [step isFrame].
  - pose proof (trigger_explosions p now s) as Ht.
    destruct (triggerTeamSpecial p now s) as [[ok s'] ev]. cbn [fst snd] in *.
    split; [auto|]. split; [right; exists []; now rewrite app_nil_r|].
    split; [discriminate|]. right; left. now exists p, now.
  - split; [auto|]. split; [right; exists []; now rewrite app_nil_r, Hf|].
    split; [discriminate|]. now left.
  - cbn [fst]. split; [intros [C|(? & ? & C)]; discriminate|].
    split; [|split; [discriminate|right; right; repeat split]].
    right. unfold handleEffectComplete. cbn [explosions set_explosions].
    destruct (find _ _) as [e|]; [|exists []; now rewrite app_nil_r].
    destruct (effect_targetPosition e);
      [eexists; reflexivity|exists []; now rewrite app_nil_r].
  - cbn [fst]. split; [reflexivity|].
    split; [right; exists []; now rewrite app_nil_r|].
    split; [discriminate|right; right; repeat split].
  - cbn [fst]. split; [intros [C|(? & ? & C)]; discriminate|].
    split; [right; eexists; reflexivity|].
    split; [discriminate|right; right; repeat split].
  - cbn [fst]. split; [intros [C|(? & ? & C)]; discriminate|].
    split; [left; now exists now|].
    split; [|right; right; repeat split].
    intros _ _ e He. unfold cleanup in He.
    cbn [explosions set_explosions] in He. now apply filter_In in He.
Qed.

Lemma step_explosions_aged `{MathLib} (T : Z) (op : Op) (s : State) :
  clockWithin 0 T op ->
  Forall (fun e => forall now, (T + 600 <= now)%Z ->
                     keepExplosion now e = false) (explosions s) ->
  Forall (fun e => forall now, (T + 600 <= now)%Z ->
                     keepExplosion now e = false)
    (explosions (fst (step op s))).
Proof.
  intros Hc Hs.
  assert (Hnew : forall created suffix pos color,
             (0 <= created <= T)%Z ->
             forall now, (T + 600 <= now)%Z ->
               keepExplosion now
                 {| Explosion.id :=
                      ("explosion-" ++ Number_toString created ++ "-"
                       ++ suffix)%string;
                    Explosion.position := pos; Explosion.color := color |}
               = false).
  { intros created suffix pos color Hcr now Hn.
    rewrite keepExplosion_created by lia. apply Z.ltb_ge. lia. }
  destruct op; cbn [step fst clockWithin clockOf isFrame] in *.
  - pose proof (trigger_explosions p now s) as Ht.
    destruct (triggerTeamSpecial p now s) as [[ok s'] ev].
    cbn [fst snd] in *. now rewrite Ht.
  - now rewrite useFrame_explosions.
  - unfold handleEffectComplete. cbn [explosions set_explosions].
    destruct (find _ _) as [e|]; [|exact Hs].
    destruct (effect_targetPosition e); [|exact Hs].
    apply Forall_app. split; [exact Hs|]. constructor; [|constructor].
    now apply Hnew.
  - exact Hs.
  - unfold lightningExplosion. cbn [explosions set_explosions].
    apply Forall_app. split; [exact Hs|]. constructor; [|constructor].
    now apply Hnew.
  - unfold cleanup. cbn [explosions set_explosions].
    rewrite Forall_forall in *. intros e He. apply filter_In in He.
    apply Hs. tauto.
Qed.

(** X17. The sweeper leaves nothing behind: after any history whose clock
    readings lie between 0 and [T], one run of the sweeper at [T + 600] or
    later removes every explosion. *)
Theorem sweeper_clears_all `{MathLib} (T : Z) (history : list Op)
    (now : Z) :
  Forall (clockWithin 0 T) history -> (T + 600 <= now)%Z ->
  explosions (cleanup now (stateAfter history)) = [].
Proof.
  intros Hh Hn.
  assert (G : forall s,
             Forall (fun e => forall now, (T + 600 <= now)%Z ->
                                keepExplosion now e = false) (explosions s) ->
             Forall (fun e => forall now, (T + 600 <= now)%Z ->
                                keepExplosion now e = false)
               (explosions (fst (run history s)))).
  { induction Hh as [|op ops Hop _ IH]; intros s Hs; [exact Hs|].
    rewrite run_cons_fst. apply IH. now apply step_explosions_aged. }
  specialize (G initialState (Forall_nil _)). fold (stateAfter history) in G.
  unfold cleanup. cbn [explosions set_explosions].
  rewrite Forall_forall in G.
  destruct (filter _ _) as [|e l] eqn:Ef; [reflexivity|].
  assert (He : In e (filter (keepExplosion now)
                       (explosions (stateAfter history))))
    by (rewrite Ef; now left).
  apply filter_In in He. destruct He as (Hin & Hk).
  rewrite (G e Hin now Hn) in Hk. discriminate.
Qed.

(** X18. A sweep makes an earlier sweep redundant: sweeping at [now1] and
    then at a later [now2] gives the state that the sweep at [now2] alone
    gives, whatever the explosions are, and sweeping twice at one clock
    reading is the same as sweeping once. *)
Theorem sweep_absorbs_earlier (now1 now2 : Z) (s : State) :
  (now1 <= now2)%Z ->
  cleanup now2 (cleanup now1 s) = cleanup now2 s.
Proof.
  intros Hn. unfold cleanup, set_explosions.
  cbn [explosions cooldown isActive phase wingmanPosition
         wingmanRotation attackEffects targetEnemies phaseStartTime
         attackPosition].
  f_equal.
  induction (explosions s) as [|e l IH]; [reflexivity|].
  cbn [filter].
  destruct (keepExplosion now1 e) eqn:E1; cbn [filter]; rewrite IH.
  - reflexivity.
  - destruct (keepExplosion now2 e) eqn:E2; [|reflexivity].
    exfalso. unfold keepExplosion in E1, E2.
    destruct (nth_error _ 1) as [token|]; [|discriminate].
    destruct (parseInt token) as [created|]; [|discriminate].
    apply Z.ltb_lt in E2. apply Z.ltb_ge in E1. lia.
Qed.

(** ** The explosion component and the sweeper *)

(** X19. A frame of a mounted [Explosion] at or after its mount, for a
    positive duration: the opacity lies between 0 and 1, the scale between
    0.1 and 3.1, and the two move together ([scale = 0.1 + 3 * (1 -
    opacity)]); something is drawn exactly while less than [duration] has
    passed since the mount; and a later frame never shows the explosion
    more opaque or smaller. *)
Theorem explosion_fades (duration now later : Z)
    (l : ExplosionComponent.local) :
  (0 < duration)%Z ->
  (ExplosionComponent.startTime l <= now <= later)%Z ->
  let l1 := ExplosionComponent.useFrame duration now l in
  let l2 := ExplosionComponent.useFrame duration later l1 in
  0 <= ExplosionComponent.opacity l1 <= 1
  /\ 1 # 10 <= ExplosionComponent.scale l1 <= 31 # 10
  /\ ExplosionComponent.scale l1
     == (1 # 10) + 3 * (1 - ExplosionComponent.opacity l1)
  /\ (ExplosionComponent.drawn l1 = true
      <-> (now - ExplosionComponent.startTime l < duration)%Z)
  /\ ExplosionComponent.opacity l2 <= ExplosionComponent.opacity l1
  /\ ExplosionComponent.scale l1 <= ExplosionComponent.scale l2.
Proof.
  intros Hd Hn l1 l2. subst l1 l2. unfold ExplosionComponent.useFrame.
  cbn [ExplosionComponent.opacity ExplosionComponent.scale
         ExplosionComponent.startTime ExplosionComponent.drawn].
  set (e1 := Math_min (inject_Z (now - ExplosionComponent.startTime l)
                       / inject_Z duration) 1).
  set (e2 := Math_min (inject_Z (later - ExplosionComponent.startTime l)
                       / inject_Z duration) 1).
  assert (B1 : 0 <= e1 <= 1) by (apply progress_bounds; lia).
  assert (M : e1 <= e2) by (apply progress_mono; lia).
  split; [lra|]. split; [lra|]. split; [ring|].
  split; [|lra].
  unfold ExplosionComponent.drawn. cbn [ExplosionComponent.opacity].
  split.
  - intros Hdr.
    destruct (Z_lt_ge_dec (now - ExplosionComponent.startTime l) duration)
      as [Hlt|Hge]; [exact Hlt|].
    assert (G : geb e1 1 = true) by (apply progress_full; lia).
    apply geb_true in G.
    assert (Hle : Qle_bool (1 - e1) 0 = true) by (apply Qle_bool_iff; lra).
    rewrite Hle in Hdr. discriminate.
  - intros Hlt.
    assert (G : geb e1 1 = false) by (apply progress_partial; lia).
    destruct (Qle_bool (1 - e1) 0) eqn:Hle; [|reflexivity].
    apply Qle_bool_iff in Hle.
    assert (G' : geb e1 1 = true) by (apply geb_true; lra).
    congruence.
Qed.

(** X20. The sweeper removes only what has faded out. For an explosion
    stamped with the clock reading [created], whose component mounted at
    [mountedAt] and was last rendered at [lastFrame]: when the delay of the
    mount and the time since the last frame add up to no more than 100 ms,
    an explosion that a sweep at [now] removes was no longer drawn by that
    last frame. *)
Theorem swept_explosions_invisible (created mountedAt lastFrame now : Z)
    (suffix : string) (pos : Vector3.t) (color : option string)
    (l : ExplosionComponent.local) :
  (0 <= created <= mountedAt)%Z ->
  ExplosionComponent.startTime l = mountedAt ->
  (lastFrame <= now)%Z ->
  ((mountedAt - created) + (now - lastFrame) <= 100)%Z ->
  keepExplosion now
    {| Explosion.id :=
         ("explosion-" ++ Number_toString created ++ "-" ++ suffix)%string;
       Explosion.position := pos; Explosion.color := color |}
  = false ->
  ExplosionComponent.drawn
    (ExplosionComponent.useFrame ExplosionComponent.duration lastFrame l)
  = false.
Proof.
  intros Hc Hm Hl Hs Hk.
  rewrite keepExplosion_created in Hk by lia. apply Z.ltb_ge in Hk.
  unfold ExplosionComponent.drawn, ExplosionComponent.useFrame.
  cbn [ExplosionComponent.opacity]. rewrite Hm.
  set (e := Math_min (inject_Z (lastFrame - mountedAt)
                      / inject_Z ExplosionComponent.duration) 1).
  assert (G : geb e 1 = true).
  { apply progress_full; [reflexivity|].
    unfold ExplosionComponent.duration. lia. }
  apply geb_true in G.
  assert (Hle : Qle_bool (1 - e) 0 = true) by (apply Qle_bool_iff; lra).
  now rewrite Hle.
Qed.

(** ** The selector HUD *)

(** X21. The cooldown bar of the HUD: for a positive maximum and a cooldown
    between zero and the maximum the width lies between 0 and 100 percent,
    it is 100 exactly when the cooldown is zero and 0 exactly when the
    cooldown is the maximum, and a smaller cooldown never gives a narrower
    bar; with a maximum that is not positive the width is 100, so nothing is
    divided by zero. *)
Theorem cooldown_bar_percent (cooldown cooldown' maxCooldown : Q) :
  0 <= cooldown <= cooldown' -> cooldown' <= maxCooldown ->
  0 < maxCooldown ->
  let pct := WingmanSelectorHUD.cooldownPercent cooldown maxCooldown in
  let pct' := WingmanSelectorHUD.cooldownPercent cooldown' maxCooldown in
  0 <= pct <= 100
  /\ (pct == 100 <-> cooldown == 0)
  /\ (pct == 0 <-> cooldown == maxCooldown)
  /\ pct' <= pct
  /\ forall c m, m <= 0 -> WingmanSelectorHUD.cooldownPercent c m = 100.
Proof.
  intros Hc Hc' Hm pct pct'. subst pct pct'.
  unfold WingmanSelectorHUD.cooldownPercent.
  assert (Eg : gtb maxCooldown 0 = true) by now apply gtb_true.
  rewrite Eg.
  assert (Hne : ~ maxCooldown == 0) by lra.
  assert (E : forall c, (maxCooldown - c) / maxCooldown * 100
                        == 100 - 100 * (c / maxCooldown))
    by (intros c; field; exact Hne).
  assert (B : forall c, 0 <= c <= maxCooldown -> 0 <= c / maxCooldown <= 1).
  { intros c Hb. split.
    - apply Qle_shift_div_l; [exact Hm|lra].
    - apply Qle_shift_div_r; [exact Hm|lra]. }
  assert (Z0 : forall c, c / maxCooldown == 0 -> c == 0).
  { intros c H0. assert (Ec : c == c / maxCooldown * maxCooldown)
      by (field; exact Hne). rewrite Ec, H0. ring. }
  assert (Z1 : forall c, c / maxCooldown == 1 -> c == maxCooldown).
  { intros c H1. assert (Ec : c == c / maxCooldown * maxCooldown)
      by (field; exact Hne). rewrite Ec, H1. ring. }
  assert (Mo : cooldown / maxCooldown <= cooldown' / maxCooldown).
  { apply Qmult_le_compat_r; [lra|].
    apply Qinv_le_0_compat. lra. }
  pose proof (B cooldown ltac:(lra)) as Bc.
  rewrite !E. split; [lra|]. split; [|split; [|split]].
  - split; intros H1.
    + apply Z0. lra.
    + rewrite H1. unfold Qdiv. rewrite Qmult_0_l. ring.
  - split; intros H1.
    + apply Z1. lra.
    + rewrite H1. unfold Qdiv. rewrite Qmult_inv_r by exact Hne. ring.
  - lra.
  - intros c m Hle. apply gtb_false in Hle. now rewrite Hle.
Qed.

(** X22. The status label of the HUD: [ACTIVE] whenever the activity flag
    is set; otherwise [READY] when the cooldown is zero; otherwise, for a
    cooldown of at most 45000 ms, the remaining whole seconds rounded up,
    a number from 1 to 45. The bar is amber, bright green and dark green in
    these three cases. *)
Theorem status_label (cooldown : Q) (isActive : bool) :
  (isActive = true ->
   WingmanSelectorHUD.status cooldown isActive = "[ACTIVE]"
   /\ WingmanSelectorHUD.barColor cooldown isActive = "#ffaa00")
  /\ (isActive = false -> cooldown == 0 ->
      WingmanSelectorHUD.status cooldown isActive = "[READY]"
      /\ WingmanSelectorHUD.barColor cooldown isActive = "#00ff88")
  /\ (isActive = false -> 0 < cooldown <= TEAM_SPECIAL_COOLDOWN ->
      WingmanSelectorHUD.barColor cooldown isActive = "#448844"
      /\ exists seconds,
           WingmanSelectorHUD.status cooldown isActive
           = ("[" ++ Number_toString seconds ++ "s]")%string
           /\ (1 <= seconds <= 45)%Z
           /\ 1000 * inject_Z (seconds - 1) < cooldown
           /\ cooldown <= 1000 * inject_Z seconds).
Proof.
  unfold WingmanSelectorHUD.status, WingmanSelectorHUD.barColor,
    WingmanSelectorHUD.isReady.
  split; [intros ->; rewrite andb_false_r; split; reflexivity|]. split.
  - intros -> E. apply Qeq_bool_iff in E. rewrite E. split; reflexivity.
  - intros -> (Hpos & Hmax).
    assert (E : Qeq_bool cooldown 0 = false).
    { destruct (Qeq_bool cooldown 0) eqn:E; [|reflexivity].
      apply Qeq_bool_iff in E. lra. }
    rewrite E. cbn [andb negb]. split; [reflexivity|].
    exists (WingmanSelectorHUD.Math_ceil (cooldown / 1000)).
    split; [reflexivity|].
    unfold WingmanSelectorHUD.Math_ceil.
    pose proof (Qle_ceiling (cooldown / 1000)) as Hup.
    pose proof (Qceiling_lt (cooldown / 1000)) as Hlo.
    assert (Ec : cooldown == 1000 * (cooldown / 1000)) by field.
    set (n := Qceiling (cooldown / 1000)) in *.
    assert (Hmax' : cooldown <= 45000) by exact Hmax.
    assert (H1 : 0 < inject_Z n) by lra.
    assert (H2 : inject_Z (n - 1) < 45) by lra.
    rewrite <- (Zlt_Qlt 0) in H1.
    change 45 with (inject_Z 45) in H2. rewrite <- Zlt_Qlt in H2.
    split; [lia|]. split; lra.
Qed.

(** ** The default export *)

(** What a frame does, by the state it finds. *)
Lemma useFrame_cases `{MathLib} (rand : Rand) (p : Props) (now : Z)
    (delta : Q) (s : State) :
  consistent s ->
  let s' := fst (useFrame rand p now delta s) in
  let evs := snd (useFrame rand p now delta s) in
  (isActive s = false /\ 0 < cooldown s /\ phase s' = phase s
   /\ attackEffects s' = attackEffects s
   /\ evs = (if onCooldownUpdate p
             then [CooldownUpdate (cooldown s') TEAM_SPECIAL_COOLDOWN]
             else []))
  \/ (isActive s = false /\ cooldown s <= 0 /\ s' = s /\ evs = [])
  \/ (phase s = approach /\ evs = [] /\ cooldown s' = cooldown s
      /\ ((phase s' = approach /\ attackEffects s' = attackEffects s)
          \/ (phase s' = attack
              /\ attackEffects s'
                 = generateEffects rand (selectedWingman p) (targetEnemies s)
                     (attackPosition s))))
  \/ (phase s = attack /\ cooldown s' = cooldown s
      /\ attackEffects s' = attackEffects s
      /\ ((phase s' = attack /\ evs = [])
          \/ (phase s' = escape
              /\ evs = (if onEnemiesDestroyed p
                        then [EnemiesDestroyed (map id (targetEnemies s))]
                        else []))))
  \/ (phase s = escape /\ evs = []
      /\ ((phase s' = escape /\ cooldown s' = cooldown s
           /\ attackEffects s' = attackEffects s)
          \/ (phase s' = idle /\ cooldown s' = TEAM_SPECIAL_COOLDOWN
              /\ attackEffects s' = []))).
Proof.
  intros (Hact & Hc0 & Hcz) s' evs. subst s' evs. unfold useFrame.
  destruct (isActive s) eqn:Ei; cbn [negb].
  - assert (Eg : gtb (cooldown s) 0 = false) by (apply gtb_false; auto).
    rewrite Eg. cbn [andb].
    destruct (phase s) eqn:Ep.
    + exfalso. now apply (proj1 Hact).
    + do 2 right. left.
      destruct (geb _ 1); cbn [fst snd executeAttack phase cooldown
                                 attackEffects targetEnemies attackPosition];
        rewrite ?Ep; auto 8.
    + do 3 right. left.
      destruct (_ >? _)%Z; cbn [fst snd phase cooldown attackEffects List.app];
        rewrite ?Ep; auto 8.
    + do 4 right.
      destruct (geb _ 1); cbn [fst snd phase cooldown attackEffects];
        rewrite ?Ep; auto 8.
  - destruct (gtb (cooldown s) 0) eqn:Eg.
    + left. apply gtb_true in Eg.
      cbn [andb fst snd set_cooldown phase attackEffects cooldown].
      auto 8.
    + right; left. apply gtb_false in Eg. cbn. auto.
Qed.

Lemma rapidBurst_all_gatling `{MathLib} (rand : Rand) (targets : list Enemy)
    (shipPos : Vector3.t) :
  forallb isGatling (generateEffects rand 0 targets shipPos) = true.
Proof.
  apply forallb_forall. apply Forall_forall.
  unfold generateEffects. cbn [Z.eqb].
  apply forEach_Forall. intros a i k.
  apply for_loop_Forall. intros j k'. repeat constructor.
Qed.

Lemma forallb_filter_true {A} (f g : A -> bool) (l : list A) :
  forallb f l = true -> forallb f (filter g l) = true.
Proof.
  rewrite !forallb_forall. intros Hf a Ha. apply filter_In in Ha.
  apply Hf. tauto.
Qed.

Lemma sysStep_inSync `{MathLib} (op : WingmanSupportSystem.SysOp)
    (ws : WingmanSupportSystem.local * State) :
  inSync ws -> inSync (fst (WingmanSupportSystem.sysStep op ws)).
Proof.
  destruct ws as [w s]. intros (Hs & Hw & Ha & Hc & Hg).
  pose proof (step_consistent (WingmanSupportSystem.innerOp w op) s Hs)
    as Hs'.
  assert (Hmax : ~ TEAM_SPECIAL_COOLDOWN <= 0) by (now compute).
  unfold WingmanSupportSystem.sysStep.
  destruct op;
    cbn [WingmanSupportSystem.innerOp WingmanSupportSystem.hostOf step]
    in *.
  - (* trigger *)
    destruct Hs as (Hact & Hc0 & Hcz).
    unfold triggerTeamSpecial in *.
    destruct (gtb (cooldown s) 0) eqn:Eg; cbn [orb] in *.
    { cbn. exact (conj Hs' (conj Hw (conj Ha (conj Hc Hg)))). }
    destruct (isActive s) eqn:Ei; cbn [orb] in *.
    { cbn. exact (conj Hs' (conj Hw (conj Ha (conj Hc Hg)))). }
    destruct (_ =? _)%nat; cbn [fst] in *.
    { cbn. exact (conj Hs' (conj Hw (conj Ha (conj Hc Hg)))). }
    cbn. apply gtb_false in Eg.
    split; [exact Hs'|]. split; [exact Hw|]. split; [tauto|].
    split; [|exact Hg].
    destruct Hc as [Hc|(Hc & _)]; [now left|].
    rewrite Hc in Eg. contradiction.
  - (* frame *)
    pose proof (useFrame_cases rand (WingmanSupportSystem.innerProps h w)
                  now delta s Hs) as Hf.
    cbv zeta in Hf.
    destruct (useFrame rand (WingmanSupportSystem.innerProps h w) now delta
                s) as [s' evs].
    cbn [fst snd] in *.
    cbn [WingmanSupportSystem.innerProps WingmanSupportSystem.mkInnerProps
           onCooldownUpdate onEnemiesDestroyed selectedWingman] in Hf.
    destruct Hs as (Hact & Hc0 & Hcz).
    assert (Hidle : isActive s = false -> phase s = idle).
    { intros Ei. destruct (phase s) eqn:Ep; [reflexivity| | |];
        exfalso; assert (isActive s = true) by (apply Hact; discriminate);
        congruence. }
    assert (Hcw : phase s <> idle ->
                  WingmanSupportSystem.cooldown w = cooldown s).
    { intros Hp. destruct Hc as [Hc|(_ & Hc & _)]; [exact Hc|].
      contradiction. }
    destruct Hf as [(Ei & Hpos & Hp & Hae & ->)
                   |[(Ei & Hle & -> & ->)
                    |[(Ep & -> & Hcs & Hf)
                     |[(Ep & Hcs & Hae & Hf)
                      |(Ep & -> & Hf)]]]].
    + cbn. split; [exact Hs'|]. split; [exact Hw|].
      rewrite Hp, Hae. split; [exact Ha|]. split; [now left|exact Hg].
    + cbn. exact (conj Hs' (conj Hw (conj Ha (conj Hc Hg)))).
    + cbn. split; [exact Hs'|]. split; [exact Hw|].
      rewrite Hcs.
      assert (Haw : WingmanSupportSystem.isActive w = true)
        by (apply Ha; now left).
      destruct Hf as [(Hp & Hae)|(Hp & Hae)]; rewrite Hp, Hae.
      * split; [tauto|]. split; [|exact Hg].
        left. apply Hcw. rewrite Ep. discriminate.
      * split; [tauto|]. split.
        -- left. apply Hcw. rewrite Ep. discriminate.
        -- rewrite Hw. apply rapidBurst_all_gatling.
    + assert (Haw : WingmanSupportSystem.isActive w = true)
        by (apply Ha; now right).
      destruct Hf as [(Hp & ->)|(Hp & ->)]; cbn;
        (split; [exact Hs'|]); (split; [exact Hw|]);
        rewrite Hcs, Hae, Hp.
      * split; [tauto|]. split; [|exact Hg].
        left. apply Hcw. rewrite Ep. discriminate.
      * split; [split; [discriminate|intros [C|C]; discriminate]|].
        split; [|exact Hg].
        left. apply Hcw. rewrite Ep. discriminate.
    + assert (Haw : WingmanSupportSystem.isActive w = false).
      { destruct (WingmanSupportSystem.isActive w); [|reflexivity].
        destruct (proj1 Ha eq_refl) as [C|C]; congruence. }
      assert (Hcwe : WingmanSupportSystem.cooldown w = cooldown s)
        by (apply Hcw; rewrite Ep; discriminate).
      assert (Hle : cooldown s <= 0)
        by (apply Hcz, Hact; rewrite Ep; discriminate).
      cbn. split; [exact Hs'|]. split; [exact Hw|].
      destruct Hf as [(Hp & Hcs & Hae)|(Hp & Hcs & Hae)];
        rewrite Hp, Hcs, Hae.
      * split; [rewrite Haw; split;
                [discriminate|intros [C|C]; discriminate]|].
        split; [now left|exact Hg].
      * split; [rewrite Haw; split;
                [discriminate|intros [C|C]; discriminate]|].
        split; [|reflexivity].
        right. repeat split. rewrite Hcwe. lra.
  - (* completion signal *)
    cbn [fst snd WingmanSupportSystem.deliverAll] in *.
    split; [exact Hs'|]. split; [exact Hw|].
    unfold handleEffectComplete.
    cbn [phase cooldown attackEffects set_explosions set_attackEffects].
    split; [exact Ha|]. split; [exact Hc|].
    now apply forallb_filter_true.
  - cbn. exact (conj Hs' (conj Hw (conj Ha (conj Hc eq_refl)))).
  - cbn. exact (conj Hs' (conj Hw (conj Ha (conj Hc Hg)))).
  - cbn. exact (conj Hs' (conj Hw (conj Ha (conj Hc Hg)))).
Qed.

Lemma sysRun_inSync `{MathLib} (ops : list WingmanSupportSystem.SysOp) :
  forall ws, inSync ws -> inSync (fst (WingmanSupportSystem.sysRun ops ws)).
Proof.
  induction ops as [|op ops IH]; intros ws Hws; [exact Hws|].
  cbn [WingmanSupportSystem.sysRun].
  pose proof (sysStep_inSync op ws Hws) as H1.
  destruct (WingmanSupportSystem.sysStep op ws) as [ws1 out1].
  specialize (IH ws1 H1).
  destruct (WingmanSupportSystem.sysRun ops ws1) as [ws2 out2]. exact IH.
Qed.

Lemma sysAfter_inSync `{MathLib}
    (history : list WingmanSupportSystem.SysOp) :
  inSync (WingmanSupportSystem.sysAfter history).
Proof.
  apply sysRun_inSync. cbn. repeat split; auto; try discriminate.
  intros [C|C]; discriminate.
Qed.

(** X23. The state of the default export follows the component it renders.
    After any history: the selection is still 0; the activity flag of the
    wrapper is set exactly in the approach and attack phases (it is cleared
    by the elimination callback, before the escape phase); and the cooldown
    of the wrapper is that of the component, except between the frame that
    ends the escape window and the next frame, when the component already
    holds the configured maximum and the wrapper still reads zero. *)
Theorem wrapper_in_step `{MathLib}
    (history : list WingmanSupportSystem.SysOp) :
  let w := fst (WingmanSupportSystem.sysAfter history) in
  let s := snd (WingmanSupportSystem.sysAfter history) in
  WingmanSupportSystem.selectedWingman w = 0%Z
  /\ (WingmanSupportSystem.isActive w = true
      <-> phase s = approach \/ phase s = attack)
  /\ (WingmanSupportSystem.cooldown w = cooldown s
      \/ (phase s = idle /\ cooldown s = TEAM_SPECIAL_COOLDOWN
          /\ WingmanSupportSystem.cooldown w == 0))
  /\ (phase s <> idle ->
      WingmanSupportSystem.cooldown w = cooldown s /\ cooldown s == 0).
Proof.
  intros w s. pose proof (sysAfter_inSync history) as Hi.
  unfold inSync in Hi. subst w s.
  destruct (WingmanSupportSystem.sysAfter history) as [w s]. cbn [fst snd].
  destruct Hi as ((Hact & Hc0 & Hcz) & Hw & Ha & Hc & _).
  split; [exact Hw|]. split; [exact Ha|]. split; [tauto|].
  intros Hp. split.
  - destruct Hc as [Hc|(_ & Hc & _)]; [exact Hc|contradiction].
  - assert (cooldown s <= 0) by (apply Hcz, Hact, Hp). lra.
Qed.

(** X24. A HUD fed with the state of the default export, as the
    integration guide wires it: whenever the trigger would be accepted the
    HUD reports ready; but it also reports ready throughout the escape
    phase, when every trigger is turned down, and it reports ready only in
    the idle and escape phases. *)
Theorem ready_label_and_trigger `{MathLib}
    (history : list WingmanSupportSystem.SysOp) :
  let w := fst (WingmanSupportSystem.sysAfter history) in
  let s := snd (WingmanSupportSystem.sysAfter history) in
  let ready :=
    WingmanSelectorHUD.isReady (WingmanSupportSystem.cooldown w)
      (WingmanSupportSystem.isActive w) in
  (forall p now,
     fst (fst (triggerTeamSpecial p now s)) = true -> ready = true)
  /\ (phase s = escape ->
      ready = true
      /\ forall p now, fst (fst (triggerTeamSpecial p now s)) = false)
  /\ (ready = true -> phase s = idle \/ phase s = escape).
Proof.
  intros w s ready. pose proof (sysAfter_inSync history) as Hi.
  unfold inSync in Hi. subst ready w s.
  destruct (WingmanSupportSystem.sysAfter history) as [w s]. cbn [fst snd].
  destruct Hi as ((Hact & Hc0 & Hcz) & Hw & Ha & Hc & _).
  assert (Hmax : ~ TEAM_SPECIAL_COOLDOWN <= 0) by (now compute).
  unfold WingmanSelectorHUD.isReady.
  assert (Hoff : phase s = idle \/ phase s = escape ->
                 WingmanSupportSystem.isActive w = false).
  { intros Hp. destruct (WingmanSupportSystem.isActive w); [|reflexivity].
    destruct (proj1 Ha eq_refl) as [C|C]; destruct Hp; congruence. }
  split; [|split].
  - intros p now Hacc. unfold triggerTeamSpecial in Hacc.
    destruct (gtb (cooldown s) 0) eqn:Eg; [discriminate|].
    destruct (isActive s) eqn:Ei; [discriminate|].
    apply gtb_false in Eg.
    assert (Hp : phase s = idle).
    { destruct (phase s) eqn:Ep; [reflexivity| | |];
        exfalso; assert (false = true) by (apply Hact; discriminate);
        discriminate. }
    rewrite Hoff by now left. rewrite andb_true_r.
    apply Qeq_bool_iff.
    destruct Hc as [Hc|(Hc & _)]; [rewrite Hc; lra|].
    rewrite Hc in Eg. contradiction.
  - intros Hp.
    assert (Ei : isActive s = true) by (apply Hact; rewrite Hp; discriminate).
    split.
    + rewrite Hoff by now right. rewrite andb_true_r.
      apply Qeq_bool_iff.
      assert (Hle : cooldown s <= 0) by auto.
      destruct Hc as [Hc|(_ & C & _)]; [rewrite Hc; lra|congruence].
    + intros p now. unfold triggerTeamSpecial.
      rewrite Ei, orb_true_r. reflexivity.
  - intros Hr. apply andb_prop in Hr. destruct Hr as (_ & Hr).
    apply negb_true_iff in Hr.
    destruct (phase s) eqn:Ep; auto;
      assert (WingmanSupportSystem.isActive w = true) by (apply Ha; auto);
      congruence.
Qed.

(** X25. The default export never changes the selection, so it always
    flies RapidBurst: after any history every tracked descriptor is a
    projectile descriptor; the only line it logs is the one that names
    FALCO, logged when a trigger is accepted; and the host callback is
    called only by the frame that enters the escape phase, with the ids of
    the snapshot, and only when the host supplied it. *)
Theorem default_export_rapid_burst `{MathLib}
    (history : list WingmanSupportSystem.SysOp)
    (op : WingmanSupportSystem.SysOp) :
  let ws := WingmanSupportSystem.sysAfter history in
  let ws' := fst (WingmanSupportSystem.sysStep op ws) in
  forallb isGatling (attackEffects (snd ws)) = true
  /\ forall out,
       In out (snd (WingmanSupportSystem.sysStep op ws)) ->
       (out = WingmanSupportSystem.console_log
                "FALCO incoming for Team Special!"
        /\ phase (snd ws) = idle /\ phase (snd ws') = approach
        /\ exists h now, op = WingmanSupportSystem.SysTrigger h now)
       \/ (out = WingmanSupportSystem.hostEnemiesDestroyed
                   (map id (targetEnemies (snd ws)))
           /\ phase (snd ws) = attack /\ phase (snd ws') = escape
           /\ exists rand h now delta,
                op = WingmanSupportSystem.SysFrame rand h now delta
                /\ WingmanSupportSystem.onEnemiesDestroyed h = true).
Proof.
  intros ws ws'. pose proof (sysAfter_inSync history) as Hi.
  fold ws in Hi. subst ws'. destruct ws as [w s]. cbn [snd].
  destruct Hi as (Hs & Hw & Ha & Hc & Hg).
  split; [exact Hg|].
  intros out. unfold WingmanSupportSystem.sysStep.
  destruct op;
    cbn [WingmanSupportSystem.innerOp WingmanSupportSystem.hostOf step];
    try (cbn; intros []).
  - destruct Hs as (Hact & Hc0 & Hcz). unfold triggerTeamSpecial.
    destruct (gtb (cooldown s) 0); cbn [orb]; [intros []|].
    destruct (isActive s) eqn:Ei; cbn [orb]; [intros []|].
    destruct (_ =? _)%nat; [intros []|].
    cbn [WingmanSupportSystem.innerProps WingmanSupportSystem.mkInnerProps
           onActivate selectedWingman].
    rewrite Hw. cbn. intros [<-|[]]. left.
    split; [reflexivity|]. split; [|split; [reflexivity|now exists h, now]].
    destruct (phase s) eqn:Ep; [reflexivity| | |];
      exfalso; assert (false = true) by (apply Hact; discriminate);
      discriminate.
  - pose proof (useFrame_cases rand (WingmanSupportSystem.innerProps h w)
                  now delta s Hs) as Hf.
    cbv zeta in Hf.
    destruct (useFrame rand (WingmanSupportSystem.innerProps h w) now delta
                s) as [s' evs].
    cbn [fst snd] in *.
    cbn [WingmanSupportSystem.innerProps WingmanSupportSystem.mkInnerProps
           onCooldownUpdate onEnemiesDestroyed selectedWingman] in Hf.
    destruct Hf as [(Ei & Hpos & Hp & Hae & ->)
                   |[(Ei & Hle & -> & ->)
                    |[(Ep & -> & Hcs & Hf)
                     |[(Ep & Hcs & Hae & Hf)
                      |(Ep & -> & Hf)]]]];
      try (cbn; intros []).
    destruct Hf as [(Hp & ->)|(Hp & ->)]; [cbn; intros []|].
    cbn [WingmanSupportSystem.deliverAll WingmanSupportSystem.deliver].
    destruct (WingmanSupportSystem.onEnemiesDestroyed h) eqn:Eh;
      cbn; [|intros []].
    intros [<-|[]]. right. repeat split; auto.
    now exists rand, h, now, delta.
Qed.

(** ** The jagged path of the chain *)

Lemma lightning_path_points `{MathLib} (rand : Rand)
    (start finish : Vector3.t) (k : nat) :
  let direction := Vector3.subVectors finish start in
  let length := Vector3.length direction in
  let unit := Vector3.normalize direction in
  let point i k' :=
    Vector3.add
      (Vector3.add start
         (Vector3.multiplyScalar unit
            (length * (inject_Z (Z.of_nat i)
                       / inject_Z (Z.of_nat LightningChain.segments)))))
      (Vector3.new ((rand k' - (1 # 2)) * 2) ((rand (S k') - (1 # 2)) * 2)
         ((rand (S (S k')) - (1 # 2)) * 2)) in
  LightningChain.generateLightningPoints rand start finish k
  = (start :: [point 1 k; point 2 (3 + k); point 3 (6 + k); point 4 (9 + k);
               point 5 (12 + k); point 6 (15 + k); point 7 (18 + k)]%nat
           ++ [finish],
     (21 + k)%nat).
Proof. reflexivity. Qed.

(** X26. The jagged path drawn between two chain positions has 9 points:
    it starts at the first position and ends at the second exactly, and
    draws 21 random numbers for the 7 points in between. When the two
    positions are a non-zero length apart and the random numbers lie in
    [0, 1), point [i] lies within 1 unit, on each axis, of the point [i / 8]
    of the way along the straight segment. *)
Theorem lightning_path_shape `{MathLib} (rand : Rand)
    (start finish : Vector3.t) (k : nat) :
  let points :=
    fst (LightningChain.generateLightningPoints rand start finish k) in
  List.length points = 9%nat
  /\ nth_error points 0 = Some start
  /\ nth_error points 8 = Some finish
  /\ snd (LightningChain.generateLightningPoints rand start finish k)
     = (k + 21)%nat
  /\ (~ Vector3.length (Vector3.subVectors finish start) == 0 ->
      (forall n, 0 <= rand n < 1) ->
      forall i p,
        (1 <= i <= 7)%nat -> nth_error points i = Some p ->
        let t := inject_Z (Z.of_nat i) / 8 in
        let along :=
          Vector3.lerpVectors start finish t in
        - (1) <= Vector3.x p - Vector3.x along < 1
        /\ - (1) <= Vector3.y p - Vector3.y along < 1
        /\ - (1) <= Vector3.z p - Vector3.z along < 1).
Proof.
  intros points. subst points. rewrite lightning_path_points.
  cbv zeta. cbn [fst snd List.app List.length nth_error].
  split; [reflexivity|]. split; [reflexivity|]. split; [reflexivity|].
  split; [lia|].
  intros Hlen Hrand i p Hi Hp.
  unfold Vector3.normalize in Hp.
  set (len := Vector3.length (Vector3.subVectors finish start)) in *.
  assert (E0 : Qeq_bool len 0 = false).
  { destruct (Qeq_bool len 0) eqn:E; [|reflexivity].
    apply Qeq_bool_iff in E. contradiction. }
  rewrite E0 in Hp.
  assert (Hk : forall c t, c * (1 / len) * (len * t) == c * t)
    by (intros c t; field; exact Hlen).
  destruct i as [|i]; [lia|].
  do 7 (destruct i as [|i];
        [cbn [nth_error] in Hp; injection Hp as <-;
         cbn [Vector3.add Vector3.multiplyScalar Vector3.subVectors
                Vector3.lerpVectors Vector3.x Vector3.y Vector3.z];
         rewrite !Hk;
         cbn [Z.of_nat Pos.of_succ_nat Pos.succ]; unfold inject_Z;
         repeat match goal with
                | |- context [rand ?a] =>
                    lazymatch goal with
                    | _ : 0 <= rand a < 1 |- _ => fail
                    | _ => pose proof (Hrand a)
                    end
                end;
         repeat split; lra|]).
  lia.
Qed.

(** ** Indices outside the roster *)

(** X28. A selected index outside 0..3 is not an error: the generator
    yields no descriptor at all, and the name passed to [onActivate], the
    explosion colour and the hint of the HUD are undefined. For an index
    from 0 to 3 all three are defined. *)
Theorem unknown_wingman `{MathLib} (rand : Rand) (wingman : Z)
    (targets : list Enemy) (shipPos : Vector3.t) :
  ((wingman < 0 \/ 3 < wingman)%Z ->
   generateEffects rand wingman targets shipPos = []
   /\ item WINGMAN_NAMES wingman = None
   /\ item WINGMAN_COLORS wingman = None
   /\ WingmanSelectorHUD.hint wingman = None)
  /\ ((0 <= wingman <= 3)%Z ->
      exists name color label,
        item WINGMAN_NAMES wingman = Some name
        /\ item WINGMAN_COLORS wingman = Some color
        /\ WingmanSelectorHUD.hint wingman = Some label).
Proof.
  split.
  - intros Hw.
    assert (Hi : forall (table : list string),
               List.length table = 4%nat -> item table wingman = None).
    { intros table Hl. unfold item.
      destruct (wingman <? 0)%Z eqn:E; [reflexivity|].
      apply Z.ltb_ge in E. apply nth_error_None. lia. }
    split; [|repeat split; apply Hi; reflexivity].
    unfold generateEffects.
    destruct (Z.eqb_spec wingman 0); [lia|].
    destruct (Z.eqb_spec wingman 1); [lia|].
    destruct (Z.eqb_spec wingman 2); [lia|].
    destruct (Z.eqb_spec wingman 3); [lia|reflexivity].
  - intros Hw.
    assert (Hc : wingman = 0%Z \/ wingman = 1%Z \/ wingman = 2%Z
                 \/ wingman = 3%Z) by lia.
    destruct Hc as [-> | [-> | [-> | ->]]]; repeat eexists.
Qed.

(** ** Further instances on concrete inputs *)

Lemma activation_cycle_witness :
  cooldown
    (fst (useFrame noJitter (sampleProps origin 0 sampleEnemies) 4600
            (1 # 10) sampleEscaping))
  = TEAM_SPECIAL_COOLDOWN.
Proof.
  pose proof (activation_cycle (sampleProps origin 0 sampleEnemies) 0
                initialState sampleAccepted [Activated 0 (Some "FALCO")]
                noJitter noJitter noJitter
                (sampleProps origin 0 sampleEnemies)
                (sampleProps origin 0 sampleEnemies)
                (sampleProps origin 0 sampleEnemies)
                1000 3100 4600 (1 # 60) (1 # 10) (1 # 10) eq_refl) as W.
  destruct W as (_ & _ & _ & _ & _ & _ & _ & _ & Hc & _);
    [evaluate ..|].
  exact Hc.
Defined.

Lemma cooldown_runs_down_witness :
  fst (fst (triggerTeamSpecial (sampleProps origin 0 sampleEnemies) 50000
              (stateAfter
                 (sampleRun (sampleProps origin 0 sampleEnemies) 100 46
                  ++ sampleIdleFrames))))
  = true.
Proof.
  pose proof (cooldown_runs_down
                (sampleRun (sampleProps origin 0 sampleEnemies) 100 46)
                sampleIdleFrames) as W.
  destruct W as (_ & _ & Hacc).
  - evaluate.
  - apply Forall_forall. intros op Hin. apply in_map_iff in Hin.
    destruct Hin as (k & <- & _). split; [reflexivity|].
    cbn [frameDelta]. discriminate.
  - apply Hacc; [evaluate|discriminate].
Defined.

Lemma cooldown_update_event_witness :
  snd (useFrame noJitter (sampleProps origin 0 sampleEnemies) 4700 (1 # 10)
         (stateAfter (sampleRun (sampleProps origin 0 sampleEnemies) 100 46)))
  = [CooldownUpdate
       (cooldown
          (fst (useFrame noJitter (sampleProps origin 0 sampleEnemies) 4700
                  (1 # 10)
                  (stateAfter
                     (sampleRun (sampleProps origin 0 sampleEnemies) 100
                        46)))))
       TEAM_SPECIAL_COOLDOWN].
Proof.
  pose proof (cooldown_update_event
                (sampleRun (sampleProps origin 0 sampleEnemies) 100 46)
                noJitter (sampleProps origin 0 sampleEnemies) 4700 (1 # 10)
                eq_refl) as (Hpos & _).
  apply Hpos. evaluate.
Defined.

Lemma cooldown_bounded_witness :
  0 <= cooldown
         (stateAfter (sampleRun (sampleProps origin 0 sampleEnemies) 100 47))
    <= TEAM_SPECIAL_COOLDOWN.
Proof.
  apply (cooldown_bounded
           (sampleRun (sampleProps origin 0 sampleEnemies) 100 47)).
  constructor; [cbn [frameDelta]; discriminate|].
  apply Forall_forall. intros op Hin. apply in_map_iff in Hin.
  destruct Hin as (k & <- & _). cbn [frameDelta]. discriminate.
Defined.

Lemma escape_climb_witness :
  Vector3.y (attackPosition sampleEscaping)
  <= Vector3.y
       (wingmanPosition
          (fst (useFrame noJitter (sampleProps origin 0 sampleEnemies) 3850
                  (1 # 10) sampleEscaping)))
  <= Vector3.y (attackPosition sampleEscaping) + 50.
Proof.
  pose proof (escape_climb sampleEscaping noJitter noJitter
                (sampleProps origin 0 sampleEnemies)
                (sampleProps origin 0 sampleEnemies) 3850 4000
                (1 # 10) (1 # 10) eq_refl eq_refl) as W.
  destruct W as (_ & Hy & _); [split; evaluate|].
  exact Hy.
Defined.

Lemma approach_arrival_witness :
  phase (fst (useFrame noJitter (sampleProps origin 0 sampleEnemies) 1000
                (1 # 60) sampleAccepted)) = attack
  <-> (1000 <= 1000 - 0)%Z.
Proof.
  exact (proj1 (approach_arrival (sampleProps origin 0 sampleEnemies) 0
                  sampleAccepted noJitter
                  (sampleProps origin 0 sampleEnemies) 1000 (1 # 60)
                  sampleAccepted_engaged eq_refl)).
Defined.

Lemma attack_hold_witness :
  useFrame noJitter (sampleProps origin 0 sampleEnemies) 2500 (1 # 60)
    sampleAttacking
  = (sampleAttacking, []).
Proof.
  apply (attack_hold (sampleProps origin 0 sampleEnemies) 0 sampleAttacking
           noJitter (sampleProps origin 0 sampleEnemies) 2500 (1 # 60)
           sampleAttacking_engaged eq_refl).
  evaluate.
Defined.

Lemma rapid_burst_descriptors_witness :
  nth_error (generateEffects noJitter 0 sampleEnemies origin) 7
  = Some (gatling "gatling-1-2"
            (Vector3.add origin
               (Vector3.new ((noJitter 14%nat - (1 # 2)) * 2)
                  ((noJitter 15%nat - (1 # 2)) * 1) 0))
            (Vector3.new 5 2 (-35)) 130%Z).
Proof.
  exact (proj1 (rapid_burst_descriptors noJitter sampleEnemies origin 1 2
                  {| id := "enemy-2"; position := Vector3.new 5 2 (-35) |}
                  eq_refl ltac:(repeat constructor))).
Defined.

Lemma chain_order_stable_witness :
  generateEffects noJitter 2 sampleEnemies origin
  = [lightning "lightning-chain" (origin :: map position sampleEnemies) 0%Z
       LIGHTNING_CHAIN_DURATION].
Proof.
  destruct (chain_order_stable noJitter sampleEnemies origin)
    as (sorted & Hg & _ & _ & Hs); [discriminate|].
  rewrite Hg, Hs; [reflexivity|].
  repeat constructor. evaluate.
Defined.

Lemma sweeper_clears_all_witness :
  List.length (explosions (stateAfter sampleCompletions)) = 2%nat
  /\ explosions (cleanup 1850 (stateAfter sampleCompletions)) = [].
Proof.
  split; [reflexivity|].
  apply (sweeper_clears_all 1250 sampleCompletions 1850).
  - repeat constructor; evaluate.
  - evaluate.
Defined.

Lemma sweep_absorbs_earlier_witness :
  cleanup 1900 (cleanup 1810 (stateAfter sampleCompletions))
  = cleanup 1900 (stateAfter sampleCompletions).
Proof.
  apply (sweep_absorbs_earlier 1810 1900 (stateAfter sampleCompletions)).
  evaluate.
Defined.

Lemma explosion_fades_witness :
  0 <= ExplosionComponent.opacity
         (ExplosionComponent.useFrame 500 1450
            (ExplosionComponent.mounted 1200))
    <= 1.
Proof.
  pose proof (explosion_fades 500 1450 1500
                (ExplosionComponent.mounted 1200)) as W.
  destruct W as (Ho & _); [evaluate|split; evaluate|].
  exact Ho.
Defined.

Lemma swept_explosions_invisible_witness :
  ExplosionComponent.drawn
    (ExplosionComponent.useFrame ExplosionComponent.duration 1784
       (ExplosionComponent.mounted 1216))
  = false.
Proof.
  apply (swept_explosions_invisible 1200 1216 1784 1800 "0.5" origin None
           (ExplosionComponent.mounted 1216));
    first [reflexivity | evaluate | split; evaluate].
Defined.

Lemma cooldown_bar_percent_witness :
  0 <= WingmanSelectorHUD.cooldownPercent 15000 45000 <= 100.
Proof.
  pose proof (cooldown_bar_percent 15000 30000 45000) as W.
  destruct W as (Hp & _); [split; evaluate|evaluate|evaluate|].
  exact Hp.
Defined.

(** * Timers and frames of the effect components *)

(** ** Beams *)


Section BeamsInv.

Variable effects : list Effect.
Hypothesis Hbeams :
  forall e, In e effects ->
    exists id a b delay duration,
      e = beam id a b delay duration /\ (0 <= delay)%Z /\ (0 <= duration)%Z.





End BeamsInv.






(** Thirteen beams. Each signal renders a new [handleEffectComplete], which
    sets back the start timer of every beam still mounted, so the signals
    come in groups of three and the thirteenth beam, whose delay and
    duration add up to 700 ms, signals 2400 ms after the descriptors were
    created. *)
Lemma thirteen_beams (p : Props) (createdAt : Z) (rnd : nat -> string)
    (s : State) :
  attackEffects s = generateEffects noJitter 1 (enemyRow 13) origin ->
  map fst
    (BeamEffect.calls
       (BeamEffect.settle p createdAt rnd 100 4000 (BeamEffect.mount s)))
  = [100; 150; 200; 450; 500; 550; 950; 1000; 1050; 1600; 1650; 1700;
     2400]%Z.
Proof.
  intros Hs. destruct s as [cd act ph wp wr eff ex te pst ap].
  cbn [attackEffects] in Hs. subst eff. lazy. reflexivity.
Qed.

(** ** The chain *)


(** ** Missiles *)


(** ** The projectile *)

Lemma ltb_true (a b : Q) : ltb a b = true <-> a < b.
Proof.
  unfold ltb. destruct (Qle_bool b a) eqn:E; cbn [negb].
  - apply Qle_bool_iff in E. split; [discriminate|lra].
  - split; [intros _|reflexivity].
    apply Qnot_le_lt. intros C. apply Qle_bool_iff in C. congruence.
Qed.

Lemma Qsqrt_lt_2 (q : Q) : 0 <= q -> (Qsqrt q < 2 <-> q < 4).
Proof.
  destruct q as [n d]. unfold Qsqrt, Qle, Qlt. cbn [Qnum Qden].
  intros Hn. rewrite !Z.mul_1_r in *.
  assert (Hd : (0 < Z.pos d)%Z) by lia.
  rewrite <- (Z.sqrt_lt_square (n * Z.pos d) (2 * Z.pos d)) by nia.
  nia.
Qed.

Section Projectile.

Context `{MathLib}.
Variables startPosition targetPosition : Vector3.t.

Let v := Vector3.subVectors targetPosition startPosition.
Let range := Vector3.length v.
Let dir := Vector3.multiplyScalar v (1 / range).

Hypothesis Hsqrt : forall q, 0 <= q -> (Math_sqrt q < 2 <-> q < 4).
Hypothesis Hsq : range * range == Vector3.lengthSq v.
Hypothesis Hfar : 0 < range.

(** [pos] lies [s] units from the start position on the way to the
    target. *)
Let onRay (pos : Vector3.t) (s : Q) : Prop :=
  Vector3.x pos == Vector3.x startPosition + Vector3.x v * (1 / range) * s
  /\ Vector3.y pos == Vector3.y startPosition + Vector3.y v * (1 / range) * s
  /\ Vector3.z pos == Vector3.z startPosition + Vector3.z v * (1 / range) * s.

Lemma projectile_started :
  GatlingProjectile.start startPosition targetPosition
    GatlingProjectile.mounted
  = {| GatlingProjectile.active := true;
       GatlingProjectile.mesh := Some startPosition;
       GatlingProjectile.direction := dir |}.
Proof.
  unfold GatlingProjectile.start, Vector3.normalize. fold v. fold range.
  destruct (Qeq_bool range 0) eqn:E; [|reflexivity].
  apply Qeq_bool_iff in E. lra.
Qed.

Lemma onRay_start : onRay startPosition 0.
Proof. unfold onRay. repeat split; ring. Qed.

(** A frame moves the projectile along the way, and its distance to the
    target is then the length of the way that is left, or by which it has
    passed the target. *)
Lemma projectile_step (pos : Vector3.t) (s d : Q) :
  onRay pos s ->
  let pos' :=
    Vector3.add pos
      (Vector3.multiplyScalar dir (GatlingProjectile.speed * d)) in
  let s' := s + GatlingProjectile.speed * d in
  onRay pos' s'
  /\ (ltb (Vector3.distanceTo pos' targetPosition) 2 = true
      <-> - (2) < s' - range < 2).
Proof.
  intros (Hx & Hy & Hz) pos' s'.
  assert (Hne : ~ range == 0) by lra.
  assert (Hx' : Vector3.x pos'
                == Vector3.x startPosition + Vector3.x v * (1 / range) * s').
  { subst pos' s' dir. cbn [Vector3.add Vector3.multiplyScalar Vector3.x].
    rewrite Hx. ring. }
  assert (Hy' : Vector3.y pos'
                == Vector3.y startPosition + Vector3.y v * (1 / range) * s').
  { subst pos' s' dir. cbn [Vector3.add Vector3.multiplyScalar Vector3.y].
    rewrite Hy. ring. }
  assert (Hz' : Vector3.z pos'
                == Vector3.z startPosition + Vector3.z v * (1 / range) * s').
  { subst pos' s' dir. cbn [Vector3.add Vector3.multiplyScalar Vector3.z].
    rewrite Hz. ring. }
  split; [now repeat split|].
  assert (Ed : Vector3.distanceToSquared pos' targetPosition
               == (s' - range) * (s' - range)).
  { unfold Vector3.distanceToSquared, Vector3.lengthSq.
    cbn [Vector3.subVectors Vector3.x Vector3.y Vector3.z].
    rewrite Hx', Hy', Hz'.
    transitivity (Vector3.lengthSq v
                  * ((1 / range) * s' - 1) * ((1 / range) * s' - 1)).
    - unfold Vector3.lengthSq. subst v.
      cbn [Vector3.subVectors Vector3.x Vector3.y Vector3.z]. ring.
    - rewrite <- Hsq. field. exact Hne. }
  rewrite ltb_true. unfold Vector3.distanceTo.
  revert Ed. generalize (s' - range). intros t Ed.
  assert (Hn : 0 <= t * t) by nra.
  rewrite Hsqrt by (rewrite Ed; exact Hn). rewrite Ed.
  split; intros Ht.
  - split.
    + apply Qnot_le_lt. intros C.
      assert (0 <= (- t - 2) * (- t + 2)) by (apply Qmult_le_0_compat; lra).
      lra.
    + apply Qnot_le_lt. intros C.
      assert (0 <= (t - 2) * (t + 2)) by (apply Qmult_le_0_compat; lra).
      lra.
  - assert (Hp : 0 < (t + 2) * (2 - t)) by (apply Qmult_lt_0_compat; lra).
    lra.
Qed.

(** Rendered often enough, the projectile never gets near a target that lies
    further than it flies between two renders. *)
Lemma projectile_put_back (limit : Q) :
  GatlingProjectile.speed * limit + 2 <= range ->
  forall ticks pos elapsed,
    onRay pos (GatlingProjectile.speed * elapsed) ->
    paced limit elapsed ticks ->
    snd (GatlingProjectile.run startPosition targetPosition ticks
           {| GatlingProjectile.active := true;
              GatlingProjectile.mesh := Some pos;
              GatlingProjectile.direction := dir |}) = 0%nat.
Proof.
  intros Hlimit.
  induction ticks as [|[d|] rest IH]; intros pos elapsed Hray Hp;
    cbn [GatlingProjectile.run].
  - reflexivity.
  - destruct Hp as (Hd & He & Hp).
    unfold GatlingProjectile.useFrame.
    cbn [GatlingProjectile.active GatlingProjectile.mesh
           GatlingProjectile.direction].
    destruct (projectile_step pos _ d Hray) as (Hray' & Hnear).
    destruct (ltb _ 2) eqn:El.
    + exfalso. destruct Hnear as (Hnear & _).
      specialize (Hnear eq_refl). unfold GatlingProjectile.speed in *.
      lra.
    + specialize (IH (Vector3.add pos
                        (Vector3.multiplyScalar dir
                           (GatlingProjectile.speed * d)))
                    (elapsed + d)).
      destruct (GatlingProjectile.run _ _ rest _) as [g2 n].
      cbn [snd] in *. rewrite IH; [reflexivity| |exact Hp].
      destruct Hray' as (Hx & Hy & Hz).
      repeat split; [rewrite Hx|rewrite Hy|rewrite Hz]; ring.
  - unfold GatlingProjectile.render.
    cbn [GatlingProjectile.active GatlingProjectile.direction].
    apply (IH startPosition 0); [|exact Hp].
    destruct onRay_start as (Hx & Hy & Hz).
    repeat split; [rewrite Hx at 1|rewrite Hy at 1|rewrite Hz at 1]; ring.
Qed.

(** Not rendered meanwhile, the projectile gets near its target if no frame
    carries it 4 units or more. *)
Lemma projectile_arrives :
  forall deltas pos s,
    onRay pos s -> s <= range - 2 ->
    Forall (fun delta => 0 < delta /\ GatlingProjectile.speed * delta < 4)
      deltas ->
    range - 2 < s + GatlingProjectile.speed * fold_right Qplus 0 deltas ->
    (1 <= snd (GatlingProjectile.run startPosition targetPosition
                 (map GatlingProjectile.frame deltas)
                 {| GatlingProjectile.active := true;
                    GatlingProjectile.mesh := Some pos;
                    GatlingProjectile.direction := dir |}))%nat.
Proof.
  induction deltas as [|d rest IH]; intros pos s Hray Hs Hd Hsum.
  - cbn [fold_right] in Hsum. lra.
  - inversion Hd as [|? ? (Hd0 & Hd4) Hrest]; subst.
    cbn [fold_right] in Hsum.
    cbn [map GatlingProjectile.run]. unfold GatlingProjectile.useFrame.
    cbn [GatlingProjectile.active GatlingProjectile.mesh
           GatlingProjectile.direction].
    destruct (projectile_step pos s d Hray) as (Hray' & Hnear).
    specialize (IH _ (s + GatlingProjectile.speed * d) Hray').
    destruct (GatlingProjectile.run _ _ (map _ rest) _) as [g2 n].
    cbn [snd] in *.
    destruct (Qlt_le_dec (range - 2) (s + GatlingProjectile.speed * d))
      as [Hin|Hout].
    + destruct Hnear as (_ & Hnear). rewrite Hnear; [lia|]. lra.
    + assert (1 <= n)%nat by (apply IH; auto; lra). lia.
Qed.

End Projectile.

(** X27. A started projectile is put back at its start position by every
    render of its component. Let the square root be exact on the squared
    distance from start to target and decide [sqrt q < 2] as [q < 4], and
    let start and target differ. If the frame times between two renders
    never add up to more than [limit] seconds, and the target lies at least
    2 units further than the projectile flies in [limit] seconds, then
    [onComplete] is never called. If there is no render, the target is at
    least 2 units away, every frame time is positive and moves the
    projectile less than 4 units (less than 1/30 s at speed 120), and the
    frame times together carry it to within 2 units of the target, then
    some frame ends within 2 units of the target and calls [onComplete]. *)
Theorem projectile_reach `{MathLib} (startPosition : Vector3.t)
    (targetPosition : Vector3.t) :
  let v := Vector3.subVectors targetPosition startPosition in
  let range := Vector3.length v in
  let shot :=
    GatlingProjectile.start startPosition targetPosition
      GatlingProjectile.mounted in
  (forall q, 0 <= q -> (Math_sqrt q < 2 <-> q < 4)) ->
  range * range == Vector3.lengthSq v ->
  0 < range ->
  (forall limit ticks,
     paced limit 0 ticks ->
     GatlingProjectile.speed * limit + 2 <= range ->
     snd (GatlingProjectile.run startPosition targetPosition ticks shot)
     = 0%nat)
  /\ (forall deltas,
        2 <= range ->
        Forall (fun delta => 0 < delta
                             /\ GatlingProjectile.speed * delta < 4)
          deltas ->
        range - 2 < GatlingProjectile.speed * fold_right Qplus 0 deltas ->
        (1 <= snd (GatlingProjectile.run startPosition targetPosition
                     (map GatlingProjectile.frame deltas) shot))%nat).
Proof.
  intros v range shot Hsqrt Hsq Hfar. subst shot.
  rewrite (projectile_started startPosition targetPosition Hfar).
  split.
  - intros limit ticks Hp Hl.
    apply (projectile_put_back startPosition targetPosition Hsqrt Hsq Hfar
             limit Hl ticks startPosition 0); [|exact Hp].
    repeat split; ring.
  - intros deltas H2 Hd Hsum.
    subst range v.
    apply (projectile_arrives startPosition targetPosition Hsqrt Hsq Hfar
             deltas startPosition 0); [repeat split; ring|lra|exact Hd|lra].
Qed.

(** ** Completion against the dwell *)


(** ** Completion of effect instances *)





(** The projectiles of the sample activation never arrive. RapidBurst
    against one enemy 30 units ahead of the attack pose, no jitter, frames
    0.1 s apart: the first descriptor is the projectile [gatling-0-0]. The
    sweeper stores a new array of explosions every 100 ms, which renders
    [WingmanSupport] and the projectile with it and puts the projectile back
    at its start position; with one such render between two frames each
    frame ends 12 units from the start and 18 from the target, and
    [onComplete] is not called in any of the 36 frames rendered while the
    projectile is mounted. The instance is still in the live set before the
    last frame of the escape phase and is dropped by that frame. *)
Lemma gatling_never_arrives :
  nth_error
    (attackEffects
       (stateAfter (sampleRun (sampleProps origin 0 loneEnemy) 100 10))) 0
  = Some (gatling "gatling-0-0" (Vector3.new (20 # 4) (8 # 4) 0)
            (Vector3.new 5 2 (-30)) 0)
  /\ snd (GatlingProjectile.run (Vector3.new (20 # 4) (8 # 4) 0)
            (Vector3.new 5 2 (-30))
            (renderedFrames 36 1 (inject_Z 100 / 1000))
            (GatlingProjectile.start (Vector3.new (20 # 4) (8 # 4) 0)
               (Vector3.new 5 2 (-30)) GatlingProjectile.mounted)) = 0%nat
  /\ phase (stateAfter (sampleRun (sampleProps origin 0 loneEnemy) 100 45))
     = escape
  /\ (exists e,
        In e (attackEffects
                (stateAfter
                   (sampleRun (sampleProps origin 0 loneEnemy) 100 45)))
        /\ effect_id e = "gatling-0-0")
  /\ phase (stateAfter (sampleRun (sampleProps origin 0 loneEnemy) 100 46))
     = idle
  /\ attackEffects
       (stateAfter (sampleRun (sampleProps origin 0 loneEnemy) 100 46))
     = [].
Proof.
  split; [vm_compute; reflexivity|].
  split; [vm_compute; reflexivity|].
  split; [vm_compute; reflexivity|].
  split.
  - exists (gatling "gatling-0-0" (Vector3.new (20 # 4) (8 # 4) 0)
              (Vector3.new 5 2 (-30)) 0).
    split; [vm_compute; left|]; reflexivity.
  - split; vm_compute; reflexivity.
Qed.

(** ** Timers and frames on concrete inputs *)



Lemma projectile_reach_witness :
  snd (GatlingProjectile.run (Vector3.new (20 # 4) (8 # 4) 0)
         (Vector3.new 5 2 (-30)) (renderedFrames 3 6 (1 # 60))
         (GatlingProjectile.start (Vector3.new (20 # 4) (8 # 4) 0)
            (Vector3.new 5 2 (-30)) GatlingProjectile.mounted)) = 0%nat
  /\ (1 <= snd (GatlingProjectile.run (Vector3.new (20 # 4) (8 # 4) 0)
                  (Vector3.new 5 2 (-30))
                  (map GatlingProjectile.frame (repeat (1 # 60) 15))
                  (GatlingProjectile.start (Vector3.new (20 # 4) (8 # 4) 0)
                     (Vector3.new 5 2 (-30)) GatlingProjectile.mounted)))%nat.
Proof.
  destruct (projectile_reach (Vector3.new (20 # 4) (8 # 4) 0)
              (Vector3.new 5 2 (-30))) as (Hback & Hreach).
  - exact Qsqrt_lt_2.
  - evaluate.
  - evaluate.
  - split.
    + apply (Hback (1 # 10)).
      * cbn. repeat split; evaluate.
      * evaluate.
    + apply Hreach.
      * evaluate.
      * apply Forall_forall. intros d Hin. apply repeat_spec in Hin. subst d.
        split; evaluate.
      * evaluate.
Defined.

(** ** Where the timers depart from the stated claims *)


